(** * duplicate_finder: a shallow embedding of [duplicate_finder/core.py]
    and of the argument validation of [duplicate_finder/cli.py].

    Python integers are [Z], file contents are [list byte], the
    insertion-ordered [dict] of the scan is an association list, the file
    table of the file system is a [gmap] from paths to inodes, and Python
    exceptions are the [Raise] branch of a result type. *)

From Stdlib Require Import ZArith List Ascii String Strings.Byte.
From stdpp Require Import gmap strings list pretty.

Set Warnings "-register-all,-clear-no-such-hyp".

Local Open Scope Z_scope.

(** ** [hashlib.md5] (RFC 1321), on 32-bit words kept in [Z] *)

Module MD5.

Definition w32 (x : Z) : Z := x mod 2 ^ 32.

Definition add32 (x y : Z) : Z := w32 (x + y).

Definition not32 (x : Z) : Z := Z.lxor x 4294967295.

Definition rotl32 (x c : Z) : Z :=
  Z.lor (w32 (Z.shiftl x c)) (Z.shiftr x (32 - c)).

(** [K[i] = floor(2^32 * abs(sin(i + 1)))] *)
Definition K : list Z :=
  [ 3614090360; 3905402710; 606105819; 3250441966;
    4118548399; 1200080426; 2821735955; 4249261313;
    1770035416; 2336552879; 4294925233; 2304563134;
    1804603682; 4254626195; 2792965006; 1236535329;
    4129170786; 3225465664; 643717713; 3921069994;
    3593408605; 38016083; 3634488961; 3889429448;
    568446438; 3275163606; 4107603335; 1163531501;
    2850285829; 4243563512; 1735328473; 2368359562;
    4294588738; 2272392833; 1839030562; 4259657740;
    2763975236; 1272893353; 4139469664; 3200236656;
    681279174; 3936430074; 3572445317; 76029189;
    3654602809; 3873151461; 530742520; 3299628645;
    4096336452; 1126891415; 2878612391; 4237533241;
    1700485571; 2399980690; 4293915773; 2240044497;
    1873313359; 4264355552; 2734768916; 1309151649;
    4149444226; 3174756917; 718787259; 3951481745 ].

(** per-round left-rotation amounts *)
Definition R : list Z :=
  [ 7; 12; 17; 22; 7; 12; 17; 22; 7; 12; 17; 22; 7; 12; 17; 22;
    5; 9; 14; 20; 5; 9; 14; 20; 5; 9; 14; 20; 5; 9; 14; 20;
    4; 11; 16; 23; 4; 11; 16; 23; 4; 11; 16; 23; 4; 11; 16; 23;
    6; 10; 15; 21; 6; 10; 15; 21; 6; 10; 15; 21; 6; 10; 15; 21 ].

Definition state : Type := Z * Z * Z * Z.

Definition init : state := (1732584193, 4023233417, 2562383102, 271733878).

Definition round (M : list Z) (s : state) (i : nat) : state :=
  let '(A, B, C, D) := s in
  let '(F, g) :=
    if (i <? 16)%nat then
      (Z.lor (Z.land B C) (Z.land (not32 B) D), i)
    else if (i <? 32)%nat then
      (Z.lor (Z.land D B) (Z.land (not32 D) C), ((5 * i + 1) mod 16)%nat)
    else if (i <? 48)%nat then
      (Z.lxor (Z.lxor B C) D, ((3 * i + 5) mod 16)%nat)
    else
      (Z.lxor C (Z.lor B (not32 D)), ((7 * i) mod 16)%nat) in
  let F' := add32 (add32 (add32 F A) (nth i K 0)) (nth g M 0) in
  (D, add32 B (rotl32 F' (nth i R 0)), B, C).

Definition word_le (b0 b1 b2 b3 : Z) : Z :=
  b0 + 256 * b1 + 65536 * b2 + 16777216 * b3.

Fixpoint words_le (bs : list Z) : list Z :=
  match bs with
  | b0 :: b1 :: b2 :: b3 :: bs' => word_le b0 b1 b2 b3 :: words_le bs'
  | _ => []
  end.

Definition block (s : state) (bs : list Z) : state :=
  let '(a0, b0, c0, d0) := s in
  let '(A, B, C, D) := fold_left (round (words_le bs)) (seq 0 64) s in
  (add32 a0 A, add32 b0 B, add32 c0 C, add32 d0 D).

Fixpoint blocks (fuel : nat) (s : state) (bs : list Z) : state :=
  match fuel, bs with
  | S fuel', _ :: _ => blocks fuel' (block s (firstn 64 bs)) (skipn 64 bs)
  | _, _ => s
  end.

Definition bytes_le (n : nat) (x : Z) : list Z :=
  map (fun i => (x / 256 ^ Z.of_nat i) mod 256) (seq 0 n).

Definition pad (bs : list Z) : list Z :=
  let len := Z.of_nat (length bs) in
  bs ++ [128] ++ repeat 0 (Z.to_nat ((55 - len) mod 64))
     ++ bytes_le 8 ((8 * len) mod 2 ^ 64).

Definition digest (msg : list byte) : state :=
  let bs := pad (map (fun b => Z.of_N (Byte.to_N b)) msg) in
  blocks (length bs) init bs.

Definition hexdigit (d : Z) : ascii :=
  nth (Z.to_nat d)
    (list_ascii_of_string "0123456789abcdef") "0"%char.

Definition hex_byte (b : Z) : string :=
  String (hexdigit (b / 16)) (String (hexdigit (b mod 16)) EmptyString).

Definition hex_word (w : Z) : string :=
  hex_byte (w mod 256) +:+ hex_byte ((w / 256) mod 256)
    +:+ hex_byte ((w / 65536) mod 256) +:+ hex_byte ((w / 16777216) mod 256).

Definition hex_state (s : state) : string :=
  let '(a, b, c, d) := s in
  hex_word a +:+ hex_word b +:+ hex_word c +:+ hex_word d.

(** The [hashlib] object: [update] feeds bytes, [hexdigest] hashes all
    the bytes fed so far. *)
Record t : Type := { fed : list byte }.

Definition new : t := {| fed := [] |}.

Definition update (h : t) (chunk : list byte) : t :=
  {| fed := fed h ++ chunk |}.

Definition hexdigest (h : t) : string := hex_state (digest (fed h)).

End MD5.

Definition unhex_digit (c : ascii) : N :=
  let n := N_of_ascii c in
  if (n <? 58)%N then (n - 48)%N else (n - 87)%N.

(** bytes written as lower-case hexadecimal text *)
Fixpoint unhex (s : string) : list byte :=
  match s with
  | String hi (String lo s') =>
      match Byte.of_N (16 * unhex_digit hi + unhex_digit lo) with
      | Some b => b :: unhex s'
      | None => []
      end
  | _ => []
  end.


(** ** Python values *)

(** The exceptions the modelled code raises or names in its handlers.
    [IOError] and [PermissionError] are [OSError] (alias and subclass). *)
Inductive exn : Type :=
| OSError
| IndexError
| ValueError (msg : string).

Inductive result (A : Type) : Type :=
| Ok (a : A)
| Raise (e : exn).

Arguments Ok {A} a.
Arguments Raise {A} e.

(** [if s:] on a [str] *)
Definition truthy (s : string) : bool :=
  match s with
  | EmptyString => false
  | String _ _ => true
  end.

(** ** The file system *)

(** What the three system calls of [core.py] see of a file: its bytes, and
    whether [stat], [open]/[read] and [unlink] are permitted on it.  A call
    that is not permitted, or that names a path with no file, raises
    [OSError]; a call that can only raise [OSError] returns [option]. *)
Record inode : Type := {
  content : list byte;
  stat_ok : bool;
  readable : bool;
  removable : bool
}.

(** A directory of the tree [os.walk] follows: its path, whether it can
    be listed, the names of its non-directory entries and its
    subdirectories, both in listing order.  [unlink] takes a file out of
    the file table, and its name is listed no more (see [list_dir]). *)
Inductive dirtree : Type :=
| Dir (root : string) (listable : bool) (names : list string)
      (subdirs : list dirtree).

Record filesystem : Type := {
  fs_tree : dirtree;
  fs_files : gmap string inode
}.

Definition dir_root (t : dirtree) : string :=
  match t with Dir root _ _ _ => root end.

(** [Path(root) / filename], for a [root] that does not end in a separator *)
Definition path_join (root filename : string) : string :=
  root +:+ "/" +:+ filename.

(** [filepath.stat().st_size] *)
Definition stat (fs : filesystem) (filepath : string) : option Z :=
  match fs_files fs !! filepath with
  | Some i => if stat_ok i then Some (Z.of_nat (length (content i))) else None
  | None => None
  end.

(** [open(filepath, 'rb')]: the handle is the bytes not read yet. *)
Definition open_rb (fs : filesystem) (filepath : string) : option (list byte) :=
  match fs_files fs !! filepath with
  | Some i => if readable i then Some (content i) else None
  | None => None
  end.

(** [f.read(chunk_size)]: the chunk and the advanced handle *)
Definition read (chunk_size : nat) (f : list byte) : list byte * list byte :=
  (firstn chunk_size f, skipn chunk_size f).

(** [filepath.unlink()]: the entry of the path leaves the table.  The
    table gives every path an entry of its own: symbolic links are not
    modelled.  With them, unlinking the target of a link changes what
    [stat] and [open] see at the link, though not that the link is
    listed; what is stated below of the paths that a run does not unlink
    is therefore that their entries are there. *)
Definition unlink (fs : filesystem) (filepath : string) : option filesystem :=
  match fs_files fs !! filepath with
  | Some i =>
      if removable i
      then Some {| fs_tree := fs_tree fs;
                   fs_files := delete filepath (fs_files fs) |}
      else None
  | None => None
  end.

Fixpoint find_dir (directory : string) (t : dirtree) : option dirtree :=
  match t with
  | Dir root _ _ subdirs =>
      if String.eqb root directory then Some t
      else
        (fix first (ts : list dirtree) : option dirtree :=
           match ts with
           | [] => None
           | t' :: ts' =>
               match find_dir directory t' with
               | Some d => Some d
               | None => first ts'
               end
           end) subdirs
  end.

(** [os.path.isdir(directory)] *)
Definition isdir (fs : filesystem) (directory : string) : bool :=
  match find_dir directory (fs_tree fs) with
  | Some _ => true
  | None => false
  end.

(** [os.walk(top)], top-down, [onerror=None]: a directory that cannot be
    listed is skipped without an error, with everything below it.
    [walk_tree] follows the directories; [os_walk] lists, in each of them,
    the names whose path the file table has. *)
Fixpoint walk_tree (t : dirtree) : list (string * list string * list string) :=
  match t with
  | Dir root listable names subdirs =>
      if listable
      then (root, map dir_root subdirs, names) :: flat_map walk_tree subdirs
      else []
  end.

Definition list_dir (fs : filesystem)
    (entry : string * list string * list string)
  : string * list string * list string :=
  let '(root, dirs, names) := entry in
  (root, dirs, filter (λ n, is_Some (fs_files fs !! path_join root n)) names).

Definition os_walk (fs : filesystem) (directory : string)
  : list (string * list string * list string) :=
  match find_dir directory (fs_tree fs) with
  | Some t => map (list_dir fs) (walk_tree t)
  | None => []
  end.

(** ** [core.py] *)

(** [for chunk in iter(lambda: f.read(chunk_size), b''): hash_md5.update(chunk)];
    the loop runs at most once per byte of the file and once more for the
    empty read, which [fuel] counts. *)
Fixpoint feed_chunks (fuel chunk_size : nat) (f : list byte) (hash_md5 : MD5.t)
  : MD5.t :=
  match fuel with
  | O => hash_md5
  | S fuel' =>
      match read chunk_size f with
      | ([], _) => hash_md5
      | (chunk, f') => feed_chunks fuel' chunk_size f' (MD5.update hash_md5 chunk)
      end
  end.

Definition calculate_file_hash (fs : filesystem) (filepath : string)
    (chunk_size : nat) : option string :=
  match open_rb fs filepath with
  | Some f =>
      Some (MD5.hexdigest (feed_chunks (S (length f)) chunk_size f MD5.new))
  | None => None
  end.

(** [duplicates[file_hash].append(filepath)] on the [defaultdict(list)]:
    a new key goes last, an old key keeps its place. *)
Fixpoint dict_append (d : list (string * list string)) (k filepath : string)
  : list (string * list string) :=
  match d with
  | [] => [(k, [filepath])]
  | (k', paths) :: d' =>
      if String.eqb k k' then (k', paths ++ [filepath]) :: d'
      else (k', paths) :: dict_append d' k filepath
  end.

(** [duplicates.get(k)] *)
Fixpoint dict_get (d : list (string * list string)) (k : string)
  : option (list string) :=
  match d with
  | [] => None
  | (k', paths) :: d' => if String.eqb k k' then Some paths else dict_get d' k
  end.

(** The locals of [find_duplicates], and the calls made to
    [progress_callback] so far. *)
Record scan_state : Type := {
  duplicates : list (string * list string);
  total_files : Z;
  processed_files : Z;
  calls : list (Z * Z)
}.

Definition scan_init : scan_state :=
  {| duplicates := []; total_files := 0; processed_files := 0; calls := [] |}.

Definition default_chunk_size : nat := Z.to_nat 8192.

(** The body of [for filename in files], after
    [filepath = Path(root) / filename]. *)
Definition scan_filepath (fs : filesystem) (min_size : Z)
    (progress_callback : bool) (st : scan_state) (filepath : string)
  : scan_state :=
  let total := total_files st + 1 in
  let skipped :=
    {| duplicates := duplicates st; total_files := total;
       processed_files := processed_files st; calls := calls st |} in
  match stat fs filepath with
  | None => skipped
  | Some file_size =>
      if file_size <? min_size then skipped
      else
        let '(dups, processed) :=
          match calculate_file_hash fs filepath default_chunk_size with
          | Some file_hash =>
              if truthy file_hash
              then (dict_append (duplicates st) file_hash filepath,
                    processed_files st + 1)
              else (duplicates st, processed_files st)
          | None => (duplicates st, processed_files st)
          end in
        {| duplicates := dups; total_files := total;
           processed_files := processed;
           calls :=
             if progress_callback && (processed mod 100 =? 0)
             then calls st ++ [(processed, total)]
             else calls st |}
  end.

Definition scan_file (fs : filesystem) (min_size : Z) (progress_callback : bool)
    (root : string) (st : scan_state) (filename : string) : scan_state :=
  scan_filepath fs min_size progress_callback st (path_join root filename).

(** [for root, dirs, files in os.walk(directory)], with its [break]. *)
Fixpoint scan_walk (fs : filesystem) (recursive : bool) (min_size : Z)
    (progress_callback : bool)
    (walk : list (string * list string * list string)) (st : scan_state)
  : scan_state :=
  match walk with
  | [] => st
  | (root, _, files) :: walk' =>
      let st' := fold_left (scan_file fs min_size progress_callback root) files st in
      if recursive then scan_walk fs recursive min_size progress_callback walk' st'
      else st'
  end.

Definition find_duplicates_run (fs : filesystem) (directory : string)
    (recursive : bool) (min_size : Z) (progress_callback : bool) : scan_state :=
  scan_walk fs recursive min_size progress_callback (os_walk fs directory)
    scan_init.

(** [{h: paths for h, paths in duplicates.items() if len(paths) > 1}] *)
Definition find_duplicates (fs : filesystem) (directory : string)
    (recursive : bool) (min_size : Z) (progress_callback : bool)
  : list (string * list string) :=
  List.filter (fun '(_, paths) => (1 <? length paths)%nat)
    (duplicates (find_duplicates_run fs directory recursive min_size
                   progress_callback)).

(** The calls [find_duplicates] makes to [progress_callback], in order. *)
Definition progress_calls (fs : filesystem) (directory : string)
    (recursive : bool) (min_size : Z) (progress_callback : bool)
  : list (Z * Z) :=
  calls (find_duplicates_run fs directory recursive min_size progress_callback).

(** The body of the loop of [analyze_duplicates]; the [IndexError] of
    [filepaths[0]] is not caught by [except OSError]. *)
Definition analyze_group (fs : filesystem) (total_space : Z)
    (filepaths : list string) : result Z :=
  match filepaths with
  | [] => Raise IndexError
  | keeper :: _ =>
      match stat fs keeper with
      | Some file_size =>
          Ok (total_space + file_size * (Z.of_nat (length filepaths) - 1))
      | None => Ok total_space
      end
  end.

Fixpoint analyze_loop (fs : filesystem) (total_space : Z)
    (items : list (string * list string)) : result Z :=
  match items with
  | [] => Ok total_space
  | (_, filepaths) :: items' =>
      match analyze_group fs total_space filepaths with
      | Ok total_space' => analyze_loop fs total_space' items'
      | Raise e => Raise e
      end
  end.

Definition analyze_duplicates (fs : filesystem)
    (duplicates : list (string * list string)) : result (Z * Z) :=
  match analyze_loop fs 0 duplicates with
  | Ok total_space => Ok (Z.of_nat (length duplicates), total_space)
  | Raise e => Raise e
  end.

(** What [delete_duplicates] does to the outside: the [unlink] calls, with
    their outcome, and the printed lines. *)
Inductive event : Type :=
| Unlink (filepath : string) (ok : bool)
| Printed (line : string).

Record world : Type := {
  w_fs : filesystem;
  w_log : list event
}.

Record tally : Type := {
  deleted_count : Z;
  freed_space : Z
}.

(** The body of [for filepath in filepaths[1:]]; the text of the
    [OSError] is left out of the printed line. *)
Definition delete_file (file_size : Z) (acc : tally * world)
    (filepath : string) : tally * world :=
  let '(t, w) := acc in
  match unlink (w_fs w) filepath with
  | Some fs' =>
      ({| deleted_count := deleted_count t + 1;
          freed_space := freed_space t + file_size |},
       {| w_fs := fs'; w_log := w_log w ++ [Unlink filepath true] |})
  | None =>
      (t, {| w_fs := w_fs w;
             w_log := w_log w ++ [Unlink filepath false;
                                  Printed ("Error deleting " +:+ filepath)] |})
  end.

(** The [try] block of [delete_duplicates] for one group. *)
Definition delete_group (acc : tally * world) (filepaths : list string)
  : result (tally * world) :=
  match filepaths with
  | [] => Raise IndexError
  | keeper :: rest =>
      match stat (w_fs (snd acc)) keeper with
      | None => Raise OSError
      | Some file_size => Ok (fold_left (delete_file file_size) rest acc)
      end
  end.

Fixpoint delete_loop (acc : tally * world)
    (items : list (string * list string)) : result (tally * world) :=
  match items with
  | [] => Ok acc
  | (_, filepaths) :: items' =>
      match delete_group acc filepaths with
      | Ok acc' => delete_loop acc' items'
      | Raise OSError | Raise IndexError => delete_loop acc items'
      | Raise e => Raise e
      end
  end.

Definition delete_duplicates (fs : filesystem)
    (duplicates : list (string * list string)) : result (tally * world) :=
  delete_loop ({| deleted_count := 0; freed_space := 0 |},
               {| w_fs := fs; w_log := [] |}) duplicates.

(** ** [cli.py] *)

Record args : Type := {
  directory : string;
  recursive : bool;
  min_size : Z;
  show_size : bool;
  dry_run : bool;
  delete_flag : bool;
  quiet : bool
}.

Definition validate_args (fs : filesystem) (a : args) : result unit :=
  if negb (isdir fs (directory a)) then
    Raise (ValueError ("'" +:+ directory a +:+ "' is not a valid directory"))
  else if delete_flag a && dry_run a then
    Raise (ValueError "Cannot use both --delete and --dry-run")
  else if min_size a <? 0 then
    Raise (ValueError "Minimum size must be non-negative")
  else Ok tt.

(** ** Vocabulary of the statements *)

(** The digest of a byte string, as [hashlib] gives it in one [update]. *)
Definition md5_hex (bs : list byte) : string :=
  MD5.hexdigest {| MD5.fed := bs |}.

Arguments md5_hex : simpl never.

(** The paths the two loops of [find_duplicates] visit, in order. *)
Definition walk_paths (walk : list (string * list string * list string))
  : list string :=
  flat_map (fun '(root, _, files) => map (path_join root) files) walk.

Definition enumerated (fs : filesystem) (directory : string) (recursive : bool)
  : list string :=
  walk_paths (if recursive then os_walk fs directory
              else firstn 1 (os_walk fs directory)).

(** The key under which the scan files a path: none when [stat] fails,
    when the file is smaller than [min_size], or when it cannot be read. *)
Definition file_digest (fs : filesystem) (min_size : Z) (filepath : string)
  : option string :=
  match stat fs filepath with
  | Some file_size =>
      if file_size <? min_size then None else md5_hex <$> open_rb fs filepath
  | None => None
  end.

Definition same_group (ds : list (string * list string)) (a b : string) : Prop :=
  ∃ h paths, (h, paths) ∈ ds ∧ a ∈ paths ∧ b ∈ paths.

(** The paths handed to [unlink], in order. *)
Fixpoint attempts (log : list event) : list string :=
  match log with
  | [] => []
  | Unlink filepath _ :: log' => filepath :: attempts log'
  | Printed _ :: log' => attempts log'
  end.

(** The paths at index 1 and above of the groups. *)
Definition non_keepers (ds : list (string * list string)) : list string :=
  flat_map (fun '(_, paths) => tail paths) ds.

(** [reclaimable_bytes] as the specification words it: the sum over the
    groups of the size of the first path times the group length minus
    one, a group whose first path cannot be stat-ed being skipped. *)
Definition reclaimable_bytes (fs : filesystem)
    (ds : list (string * list string)) : Z :=
  fold_right
    (fun '(_, paths) sum =>
       match head paths ≫= stat fs with
       | Some size_of_first_path =>
           size_of_first_path * (Z.of_nat (length paths) - 1) + sum
       | None => sum
       end) 0 ds.

Definition regular (bs : list byte) : inode :=
  {| content := bs; stat_ok := true; readable := true; removable := true |}.

(** [d.get(k, [])] *)
Definition dict_paths (d : list (string * list string)) (k : string)
  : list string :=
  default [] (dict_get d k).

(** One step of the grouping, for a path filed under [key filepath]. *)
Definition file_under (key : string → option string)
    (d : list (string * list string)) (filepath : string)
  : list (string * list string) :=
  match key filepath with
  | Some h => dict_append d h filepath
  | None => d
  end.

(** The bytes of a file, if the path names one. *)
Definition file_content (fs : filesystem) (filepath : string)
  : option (list byte) :=
  content <$> fs_files fs !! filepath.

(** A zero-byte file the scan can hash: [stat] reports size 0 and the
    file opens for reading. *)
Definition readable_zero_byte (fs : filesystem) (filepath : string) : Prop :=
  stat fs filepath = Some 0 ∧ is_Some (open_rb fs filepath).

(** [hashlib.md5(b'').hexdigest()] *)
Definition empty_digest : string := "d41d8cd98f00b204e9800998ecf8427e".

Arguments empty_digest : simpl never.

(** [fs'] is [fs] with some files removed. *)
Definition fs_le (fs' fs : filesystem) : Prop :=
  fs_tree fs' = fs_tree fs ∧ fs_files fs' ⊆ fs_files fs.

Definition no_tally : tally := {| deleted_count := 0; freed_space := 0 |}.


(** A directory that [os.scandir] can list. *)
Definition accessible_dir (fs : filesystem) (directory : string) : bool :=
  match find_dir directory (fs_tree fs) with
  | Some (Dir _ listable _ _) => listable
  | None => false
  end.

(** The paths of the directory skeleton, whether their files are still
    there or not. *)
Definition static_paths (tree : dirtree) (directory : string)
    (recursive : bool) : list string :=
  walk_paths
    (let skeleton :=
       match find_dir directory tree with
       | Some t => walk_tree t
       | None => []
       end in
     if recursive then skeleton else firstn 1 skeleton).

Definition no_failure (log : list event) : Prop :=
  ∀ p, Unlink p false ∉ log.

(** No keeper of a later group is among the paths an earlier group
    deletes. *)
Fixpoint keepers_apart (ds : list (string * list string)) : Prop :=
  match ds with
  | [] => True
  | (_, paths) :: ds' =>
      (∀ h' keeper' rest', (h', keeper' :: rest') ∈ ds' → keeper' ∉ tail paths)
      ∧ keepers_apart ds'
  end.

(** [100; 200; ...], up to [processed]. *)
Definition hundreds (processed : Z) : list Z :=
  map (λ k, 100 * Z.of_nat k) (seq 1 (Z.to_nat (processed / 100))).

(** ** File systems of the examples *)

(** The scenario of the specification: [a.txt] and [b.txt] hold "X",
    [c.txt] holds "Y". *)
Definition fs_xxy : filesystem :=
  {| fs_tree := Dir "/d" true ["a.txt"; "b.txt"; "c.txt"] [];
     fs_files :=
       list_to_map
         [ ("/d/a.txt", regular (list_byte_of_string "X"));
           ("/d/b.txt", regular (list_byte_of_string "X"));
           ("/d/c.txt", regular (list_byte_of_string "Y")) ] |}.

(** Two 128-byte messages with one MD5 digest (Wang and Yu, 2005). *)
Definition wang_m1 : list byte :=
  unhex "d131dd02c5e6eec4693d9a0698aff95c2fcab58712467eab4004583eb8fb7f8955ad340609f4b30283e488832571415a085125e8f7cdc99fd91dbdf280373c5bd8823e3156348f5bae6dacd436c919c6dd53e2b487da03fd02396306d248cda0e99f33420f577ee8ce54b67080a80d1ec69821bcb6a8839396f9652b6ff72a70".

Definition wang_m2 : list byte :=
  unhex "d131dd02c5e6eec4693d9a0698aff95c2fcab50712467eab4004583eb8fb7f8955ad340609f4b30283e4888325f1415a085125e8f7cdc99fd91dbd7280373c5bd8823e3156348f5bae6dacd436c919c6dd53e23487da03fd02396306d248cda0e99f33420f577ee8ce54b67080280d1ec69821bcb6a8839396f965ab6ff72a70".

Definition fs_wang : filesystem :=
  {| fs_tree := Dir "/d" true ["m1.bin"; "m2.bin"] [];
     fs_files :=
       list_to_map
         [ ("/d/m1.bin", regular wang_m1); ("/d/m2.bin", regular wang_m2) ] |}.

(** The fixture of [TestMinSizeBehavior], without its two large files. *)
Definition fs_min_size : filesystem :=
  {| fs_tree :=
       Dir "/t" true ["empty.txt"; "empty2.txt"; "small.txt"; "small2.txt"] [];
     fs_files :=
       list_to_map
         [ ("/t/empty.txt", regular []);
           ("/t/empty2.txt", regular []);
           ("/t/small.txt", regular (list_byte_of_string "1234567890"));
           ("/t/small2.txt", regular (list_byte_of_string "1234567890")) ] |}.

Definition fs_xxy_deduped : filesystem :=
  {| fs_tree := fs_tree fs_xxy;
     fs_files := delete "/d/b.txt" (fs_files fs_xxy) |}.

(** The keeper was removed behind the back of the program; [b.txt] is
    still there. *)
Definition fs_keeper_gone : filesystem :=
  {| fs_tree := Dir "/d" true ["a.txt"; "b.txt"] [];
     fs_files :=
       list_to_map [ ("/d/b.txt", regular (list_byte_of_string "X")) ] |}.

(** The fixture of [TestAnalyzeAndDelete]: three files of 25 bytes and
    two of 35. *)
Definition fs_analyze : filesystem :=
  {| fs_tree :=
       Dir "/t" true
         ["g1_0.txt"; "g1_1.txt"; "g1_2.txt"; "g2_0.txt"; "g2_1.txt"] [];
     fs_files :=
       list_to_map
         [ ("/t/g1_0.txt", regular (list_byte_of_string "Content for deletion test"));
           ("/t/g1_1.txt", regular (list_byte_of_string "Content for deletion test"));
           ("/t/g1_2.txt", regular (list_byte_of_string "Content for deletion test"));
           ("/t/g2_0.txt",
            regular (list_byte_of_string "Different content for deletion test"));
           ("/t/g2_1.txt",
            regular (list_byte_of_string "Different content for deletion test")) ] |}.

Definition ds_analyze : list (string * list string) :=
  [ ("hash1", ["/t/g1_0.txt"; "/t/g1_1.txt"; "/t/g1_2.txt"]);
    ("hash2", ["/t/g2_0.txt"; "/t/g2_1.txt"]) ].

(** A directory that exists and cannot be listed passes [validate_args]
    and scans as empty. *)
Definition fs_unlistable : filesystem :=
  {| fs_tree := Dir "/locked" false ["a.txt"; "b.txt"] [];
     fs_files :=
       list_to_map
         [ ("/locked/a.txt", regular (list_byte_of_string "X"));
           ("/locked/b.txt", regular (list_byte_of_string "X")) ] |}.

(** One file of one byte that [stat] sees and [open] refuses. *)
Definition fs_locked : filesystem :=
  {| fs_tree := Dir "/d" true ["locked.bin"] [];
     fs_files :=
       list_to_map
         [ ("/d/locked.bin",
            {| content := list_byte_of_string "X"; stat_ok := true;
               readable := false; removable := true |}) ] |}.

(** Two files with the same byte; the second cannot be unlinked. *)
Definition fs_undeletable : filesystem :=
  {| fs_tree := Dir "/d" true ["a.txt"; "b.txt"] [];
     fs_files :=
       list_to_map
         [ ("/d/a.txt", regular (list_byte_of_string "X"));
           ("/d/b.txt",
            {| content := list_byte_of_string "X"; stat_ok := true;
               readable := true; removable := false |}) ] |}.

(** The fixture [duplicate_scenario] of [test_pytest.py]. *)
Definition fs_scenario : filesystem :=
  {| fs_tree :=
       Dir "/r" true
         ["dupe_root_0.txt"; "dupe_root_1.txt"; "dupe_root_2.txt"; "unique1.txt"]
         [Dir "/r/subdir" true
            ["dupe_sub_0.txt"; "dupe_sub_1.txt"; "unique2.txt"] []];
     fs_files :=
       list_to_map
         [ ("/r/dupe_root_0.txt", regular (list_byte_of_string "ROOT_DUPLICATE"));
           ("/r/dupe_root_1.txt", regular (list_byte_of_string "ROOT_DUPLICATE"));
           ("/r/dupe_root_2.txt", regular (list_byte_of_string "ROOT_DUPLICATE"));
           ("/r/unique1.txt", regular (list_byte_of_string "UNIQUE_1"));
           ("/r/subdir/dupe_sub_0.txt",
            regular (list_byte_of_string "SUBDIR_DUPLICATE"));
           ("/r/subdir/dupe_sub_1.txt",
            regular (list_byte_of_string "SUBDIR_DUPLICATE"));
           ("/r/subdir/unique2.txt", regular (list_byte_of_string "UNIQUE_2")) ] |}.

(** [n] files [file_0.txt], [file_1.txt], ... that all hold "content",
    as in [test_find_duplicates_with_progress_boundaries]. *)
Definition fs_many (n : nat) : filesystem :=
  let names := map (λ i : nat, "file_" +:+ pretty i +:+ ".txt") (seq 0 n) in
  {| fs_tree := Dir "/m" true names [];
     fs_files :=
       list_to_map
         (map (λ name, (path_join "/m" name,
                        regular (list_byte_of_string "content"))) names) |}.

(** ** The rest of [core.py] *)

(** The line feed and the carriage return of the printed text. *)
Definition nl : string := String (ascii_of_nat 10) EmptyString.

Definition cr : string := String (ascii_of_nat 13) EmptyString.

(** The integer nearest to [num / den], ties to the even one. *)
Definition round_half_even (num den : Z) : Z :=
  let q := num / den in
  let r := num mod den in
  if (den <? 2 * r) || ((2 * r =? den) && Z.odd q) then q + 1 else q.

(** [f"{x:.1f}"] for [x = num / den], [0 <= num], [0 < den]: the decimal
    with one digit after the point that is nearest to [x], ties to even,
    as CPython prints a float (and an [int], which it converts first). *)
Definition format_1f (num den : Z) : string :=
  let tenths := round_half_even (10 * num) den in
  pretty (tenths / 10) +:+ "." +:+ pretty (tenths mod 10).

(** The loop of [format_size].  [size_bytes] is the [int] it was given
    until the first [size_bytes /= 1024.0] and a float after it; the
    float is kept as the fraction [num / den], [den] a power of 1024.
    For [0 <= size_bytes < 2^53] the conversion of the [int] and every
    division by [1024.0] are exact in binary64, so the fraction is the
    float. *)
Fixpoint format_size_loop (units : list string) (num den : Z) : string :=
  match units with
  | [] => format_1f num den +:+ " TB"
  | unit :: units' =>
      if num <? 1024 * den then format_1f num den +:+ " " +:+ unit
      else format_size_loop units' num (1024 * den)
  end.

Definition format_size (size_bytes : Z) : string :=
  format_size_loop ["B"; "KB"; "MB"; "GB"] size_bytes 1.

(** ["-" * n] *)
Definition dashes (n : nat) : string := String.concat "" (repeat "-" n).

(** The line of one path of a group, [j] its index in the group. *)
Definition path_line (j : nat) (filepath : string) : string :=
  "  " +:+ (match j with O => "[KEEP]   " | S _ => "[DUPLICATE]" end)
    +:+ " " +:+ filepath.

(** The [try] block of the loop of [get_duplicates_report] for the
    [i]-th group: the lines it appends. *)
Definition group_lines (fs : filesystem) (show_size : bool) (i : nat)
    (file_hash : string) (filepaths : list string) : result (list string) :=
  match filepaths with
  | [] => Raise IndexError
  | keeper :: _ =>
      match stat fs keeper with
      | None => Raise OSError
      | Some file_size =>
          let size_info :=
            if show_size then " (" +:+ format_size file_size +:+ ")" else "" in
          Ok ([ nl +:+ "Set " +:+ pretty i +:+ " - Hash: "
                  +:+ substring 0 8 file_hash +:+ "..." +:+ size_info;
                "Files:" ]
              ++ imap path_line filepaths)
      end
  end.

(** [for i, (file_hash, filepaths) in enumerate(duplicates.items(), 1)],
    with its [except OSError: continue]. *)
Fixpoint report_loop (fs : filesystem) (show_size : bool) (i : nat)
    (items : list (string * list string)) (report_lines : list string)
  : result (list string) :=
  match items with
  | [] => Ok report_lines
  | (file_hash, filepaths) :: items' =>
      match group_lines fs show_size i file_hash filepaths with
      | Ok lines => report_loop fs show_size (S i) items' (report_lines ++ lines)
      | Raise OSError => report_loop fs show_size (S i) items' report_lines
      | Raise e => Raise e
      end
  end.

Definition get_duplicates_report (fs : filesystem)
    (duplicates : list (string * list string)) (show_size : bool)
  : result string :=
  match duplicates with
  | [] => Ok ("No duplicate files found!" +:+ nl)
  | _ :: _ =>
      match analyze_duplicates fs duplicates with
      | Raise e => Raise e
      | Ok (total_sets, total_space) =>
          match
            report_loop fs show_size 1 duplicates
              [ "Found " +:+ pretty total_sets +:+ " sets of duplicates:";
                dashes 60 ]
          with
          | Raise e => Raise e
          | Ok report_lines =>
              Ok (String.concat nl
                    (if 0 <? total_space
                     then report_lines
                          ++ [ nl +:+ "Total reclaimable space: "
                                 +:+ format_size total_space ]
                     else report_lines))
          end
      end
  end.

(** ** The rest of [cli.py] *)

(** What [progress_callback] writes to [sys.stderr]. *)
Definition progress_line (call : Z * Z) : string :=
  "Processed " +:+ pretty call.1 +:+ " of " +:+ pretty call.2
    +:+ " files..." +:+ cr.

(** [sum(paths[0].stat().st_size * (len(paths) - 1) for paths in
    duplicates.values())] of the dry run; nothing here is in a [try]. *)
Fixpoint dry_run_space (fs : filesystem)
    (groups : list (string * list string)) : result Z :=
  match groups with
  | [] => Ok 0
  | (_, paths) :: groups' =>
      match paths with
      | [] => Raise IndexError
      | keeper :: _ =>
          match stat fs keeper with
          | None => Raise OSError
          | Some file_size =>
              match dry_run_space fs groups' with
              | Ok rest => Ok (file_size * (Z.of_nat (length paths) - 1) + rest)
              | Raise e => Raise e
              end
          end
      end
  end.

(** How [main] ends: it returns, or calls [sys.exit], or lets an
    exception through. *)
Inductive ending : Type :=
| Returned
| Exit (code : Z)
| Uncaught (e : exn).

(** What a run of [main] leaves: how it ended, what it wrote to the two
    streams (one string per [print]) and the file system. *)
Record outcome : Type := {
  ended : ending;
  stdout : list string;
  stderr : list string;
  final_fs : filesystem
}.

(** [str(e)]; the text of an [OSError] comes from the operating system
    and is left out, as in [delete_file]. *)
Definition str_exn (e : exn) : string :=
  match e with
  | ValueError msg => msg
  | IndexError => "list index out of range"
  | OSError => ""
  end.

(** The lines [delete_duplicates] printed. *)
Fixpoint printed (log : list event) : list string :=
  match log with
  | [] => []
  | Printed line :: log' => (line +:+ nl) :: printed log'
  | Unlink _ _ :: log' => printed log'
  end.

(** Up to Python 3.11 [os.walk] is a recursive generator: every level of
    directories below [top] adds a frame to the stack, and at the level
    where the recursion limit of the interpreter is reached, going down
    from a directory that has subdirectories raises [RecursionError],
    after that directory was yielded.  [walk_until walk ts] walks the
    trees [ts] in turn, up to the first one whose walk ends that way. *)
Definition walk_until {A E : Type} (walk : A → list E * bool)
  : list A → list E * bool :=
  fix each (ts : list A) : list E * bool :=
    match ts with
    | [] => ([], false)
    | t :: ts' =>
        match walk t with
        | (yielded, true) => (yielded, true)
        | (yielded, false) =>
            let '(yielded', overflow) := each ts' in
            (yielded ++ yielded', overflow)
        end
    end.

(** What [os.walk] yields of a tree when the limit leaves room for
    [depth] levels below its root, and whether [RecursionError] ends it. *)
Fixpoint walk_tree_within (depth : nat) (t : dirtree)
  : list (string * list string * list string) * bool :=
  match t with
  | Dir root listable names subdirs =>
      if listable then
        let entry := (root, map dir_root subdirs, names) in
        match subdirs, depth with
        | [], _ => ([entry], false)
        | _ :: _, O => ([entry], true)
        | _ :: _, S depth' =>
            let below := walk_until (walk_tree_within depth') subdirs in
            (entry :: below.1, below.2)
        end
      else ([], false)
  end.

(** [os.walk(directory)] on an interpreter whose [os.walk] can go
    [walk_depth] levels down; [None] is an [os.walk] that does not
    recurse, as from Python 3.12. *)
Definition os_walk_within (walk_depth : option nat) (fs : filesystem)
    (directory : string)
  : list (string * list string * list string) * bool :=
  match find_dir directory (fs_tree fs) with
  | Some t =>
      match walk_depth with
      | Some depth =>
          let '(yielded, overflow) := walk_tree_within depth t in
          (map (list_dir fs) yielded, overflow)
      | None => (map (list_dir fs) (walk_tree t), false)
      end
  | None => ([], false)
  end.

(** Whether the scan ends in [RecursionError]: with [recursive=False] the
    loop leaves [os.walk] after the first directory and never resumes
    it. *)
Definition walk_overflows (walk_depth : option nat) (fs : filesystem)
    (directory : string) (recursive : bool) : bool :=
  recursive && (os_walk_within walk_depth fs directory).2.

(** [str(e)] of that [RecursionError] *)
Definition recursion_error : string := "maximum recursion depth exceeded".

(** The number of directory levels below the root of a tree. *)
Fixpoint tree_height (t : dirtree) : nat :=
  match t with
  | Dir _ _ _ subdirs =>
      match subdirs with
      | [] => O
      | _ :: _ => S (list_max (map tree_height subdirs))
      end
  end.

(** The handler [except Exception as e] of [main]. *)
Definition main_error (out err : list string) (fs : filesystem) (e : exn)
  : outcome :=
  {| ended := Exit 1; stdout := out;
     stderr := err ++ [nl +:+ "Error: " +:+ str_exn e +:+ nl];
     final_fs := fs |}.

(** [main], from the parsed arguments on.  Two things it depends on are
    not in the file system: [walk_depth], how many levels down the
    [os.walk] of the interpreter can go, and [stdout_error], what
    [print(report)] raises, if anything: the text of the
    [UnicodeEncodeError], a [ValueError], for a report that names a path
    with a character that the encoding of [sys.stdout] lacks.  The lines
    printed after the report name no path that the report does not name,
    and are taken to be printed; [sys.stderr] replaces what it cannot
    encode.  [KeyboardInterrupt] does not occur.  When the scan ends in
    [RecursionError], the handler [except Exception] gets it after the
    progress lines of the files scanned until then. *)
Definition main (walk_depth : option nat)
    (stdout_error : string → option string) (fs : filesystem) (a : args)
  : outcome :=
  match validate_args fs a with
  | Raise (ValueError msg) =>
      {| ended := Exit 1; stdout := [];
         stderr := ["Error: " +:+ msg +:+ nl]; final_fs := fs |}
  | Raise e =>
      {| ended := Uncaught e; stdout := []; stderr := []; final_fs := fs |}
  | Ok _ =>
      let info :=
        if quiet a then []
        else [ "Scanning directory: " +:+ directory a +:+ nl;
               "Recursive: " +:+ (if recursive a then "True" else "False")
                 +:+ ", Min size: " +:+ pretty (min_size a) +:+ " bytes"
                 +:+ nl ] in
      if walk_overflows walk_depth fs (directory a) (recursive a) then
        let run :=
          scan_walk fs true (min_size a) (negb (quiet a))
            (os_walk_within walk_depth fs (directory a)).1 scan_init in
        {| ended := Exit 1; stdout := [];
           stderr := info ++ map progress_line (calls run)
                     ++ [nl +:+ "Error: " +:+ recursion_error +:+ nl];
           final_fs := fs |}
      else
        let run :=
          find_duplicates_run fs (directory a) (recursive a) (min_size a)
            (negb (quiet a)) in
        let duplicates :=
          find_duplicates fs (directory a) (recursive a) (min_size a)
            (negb (quiet a)) in
        let err := info ++ map progress_line (calls run) in
        match get_duplicates_report fs duplicates (show_size a) with
        | Raise e => main_error [] err fs e
        | Ok report =>
            match stdout_error report with
            | Some msg => main_error [] err fs (ValueError msg)
            | None =>
                let out := [report +:+ nl] in
                if dry_run a then
                  match dry_run_space fs duplicates with
                  | Raise e => main_error out err fs e
                  | Ok total_space =>
                      {| ended := Returned;
                         stdout :=
                           out ++ [ nl +:+ "Dry run: Would delete "
                                      +:+ pretty (length duplicates)
                                      +:+ " duplicate sets" +:+ nl;
                                    "Would free approximately "
                                      +:+ format_size total_space +:+ nl ];
                         stderr := err; final_fs := fs |}
                  end
                else if delete_flag a && negb (bool_decide (duplicates = []))
                then
                  let err :=
                    if quiet a then err
                    else err ++ [nl +:+ "Deleting duplicate files..." +:+ nl] in
                  match delete_duplicates fs duplicates with
                  | Raise e => main_error out err fs e
                  | Ok (t, w) =>
                      {| ended := Returned;
                         stdout := out ++ printed (w_log w);
                         stderr :=
                           if quiet a then err
                           else err ++ [ "Deleted "
                                           +:+ pretty (deleted_count t)
                                           +:+ " files, freed "
                                           +:+ format_size (freed_space t)
                                           +:+ nl ];
                         final_fs := w_fs w |}
                  end
                else
                  {| ended := Returned; stdout := out; stderr := err;
                     final_fs := fs |}
            end
        end
  end.

(** The successful [unlink] calls of a log. *)
Fixpoint successes (log : list event) : Z :=
  match log with
  | [] => 0
  | Unlink _ true :: log' => 1 + successes log'
  | _ :: log' => successes log'
  end.

Definition hex_chars : list ascii := list_ascii_of_string "0123456789abcdef".

(** The lines the report has for the [i]-th group: none when its first
    path cannot be stat-ed. *)
Definition listed_lines (fs : filesystem) (show_size : bool) (i : nat)
    (group : string * list string) : list string :=
  match group_lines fs show_size i group.1 group.2 with
  | Ok lines => lines
  | Raise _ => []
  end.

Definition args_delete_xxy : args :=
  {| directory := "/d"; recursive := true; min_size := 1; show_size := false;
     dry_run := false; delete_flag := true; quiet := true |}.

Definition args_dry_run_xxy : args :=
  {| directory := "/d"; recursive := true; min_size := 1; show_size := false;
     dry_run := true; delete_flag := false; quiet := false |}.

(** * model_by_day: a shallow embedding of [model_by_day.py]

    A [date] is its proleptic Gregorian ordinal ([date.toordinal()]), so
    that [<] on dates is [<] on [Z] and [+ timedelta(days=1)] adds one,
    failing past [date.max].  [sleep] has no effect that is modelled. *)

Module ModelByDay.

Inductive error : Type :=
| ValueError (msg : string)
| IndexError
| OverflowError.

Inductive attempt (A : Type) : Type :=
| Returns (a : A)
| Raises (e : error).

Arguments Returns {A} a.
Arguments Raises {A} e.

(** [date.max.toordinal()], the ordinal of 9999-12-31 *)
Definition date_max : Z := 3652059.

(** [tdate + timedelta(days=1)] *)
Definition add_day (tdate : Z) : attempt Z :=
  if tdate <? date_max then Returns (tdate + 1) else Raises OverflowError.

(** What the script writes to [stdout], line by line: [HELP_STRING], the
    line [Done calculations for <tdate>], the line
    [Raised an error while running cli:], and the text of an exception. *)
Inductive line : Type :=
| HelpString
| DoneCalculations (tdate : Z)
| ErrorHeader
| ErrorText (e : error).

(** [calculate_model]: the state is what has been printed so far. *)
Definition calculate_model (tdate : Z) (out : list line)
  : list line * attempt Z :=
  (out ++ [DoneCalculations tdate], Returns 0).

(** The loop of [run_in_sequence].  [func] acts on a state [St] and may
    raise; [None] is a loop that needs more than [fuel] rounds. *)
Fixpoint run_in_sequence_loop {St : Type} (fuel : nat) (tdate to_date : Z)
    (func : Z → St → St * attempt Z) (s : St) : option (St * attempt unit) :=
  if tdate <? to_date then
    match fuel with
    | O => None
    | S fuel' =>
        match func tdate s with
        | (s', Raises e) => Some (s', Raises e)
        | (s', Returns _) =>
            match add_day tdate with
            | Raises e => Some (s', Raises e)
            | Returns tdate' =>
                run_in_sequence_loop fuel' tdate' to_date func s'
            end
        end
    end
  else Some (s, Returns tt).

Definition run_in_sequence {St : Type} (from_date to_date : Z)
    (func : Z → St → St * attempt Z) (s : St) : option (St * attempt unit) :=
  run_in_sequence_loop (Z.to_nat (to_date - from_date)) from_date to_date
    func s.

(** One round of [for i in range(2, len(argv))]: the state is [key],
    [value] and [kwarg]. *)
Definition pair_step
    (st : option string * option string * gmap string string) (arg : string)
  : option string * option string * gmap string string :=
  let '(key, value, kwarg) := st in
  let '(key, value) :=
    if String.prefix "--" arg then (Some arg, value) else (key, Some arg) in
  match key, value with
  | Some k, Some v => (None, None, <[k := v]> kwarg)
  | _, _ => (key, value, kwarg)
  end.

Definition period_kwarg (argv : list string) : gmap string string :=
  (fold_left pair_step (drop 2 argv) (None, None, ∅)).2.

(** How the [try] block is left: by [exit(code)], whose [SystemExit] the
    handler [except Exception] does not catch, by an exception it catches,
    or at its end. *)
Inductive flow : Type :=
| Exit (code : Z)
| Caught (e : error)
| Fell.

Section script.

(** [date.fromisoformat] and the value of [date.today()] *)
Variable fromisoformat : string → attempt Z.
Variable today : Z.

Definition period (argv : list string) : option (list line * flow) :=
  let kwarg := period_kwarg argv in
  match kwarg !! "--start" with
  | None => Some ([], Caught (ValueError "run command needs --start value"))
  | Some start =>
      match fromisoformat start with
      | Raises e => Some ([], Caught e)
      | Returns start_date =>
          let end_date :=
            match kwarg !! "--end" with
            | None =>
                match fromisoformat start with
                | Raises e => Raises e
                | Returns d => Returns (Z.max today d)
                end
            | Some e => fromisoformat e
            end in
          match end_date with
          | Raises e => Some ([], Caught e)
          | Returns end_date =>
              match run_in_sequence start_date end_date calculate_model [] with
              | None => None
              | Some (out, Raises e) => Some (out, Caught e)
              | Some (out, Returns _) => Some (out, Exit 0)
              end
          end
      end
  end.

Definition try_block (argv : list string) : option (list line * flow) :=
  if (length argv <? 2)%nat || bool_decide (argv !! 1%nat = Some "--help")
  then Some ([HelpString], Exit 0)
  else if bool_decide (argv !! 1%nat = Some "run") then
    match argv !! 2%nat with
    | None => Some ([], Caught IndexError)
    | Some a =>
        match fromisoformat a with
        | Raises e => Some ([], Caught e)
        | Returns tdate =>
            match calculate_model tdate [] with
            | (out, Raises e) => Some (out, Caught e)
            | (out, Returns _) => Some (out, Exit 0)
            end
        end
    end
  else if bool_decide (argv !! 1%nat = Some "period") then period argv
  else Some ([], Fell).

(** The script: exit status and [stdout]. *)
Definition script (argv : list string) : option (Z * list line) :=
  match try_block argv with
  | None => None
  | Some (out, Exit code) => Some (code, out)
  | Some (out, Caught e) => Some (1, out ++ [ErrorHeader; ErrorText e])
  | Some (out, Fell) => Some (1, out)
  end.

End script.

End ModelByDay.

(** ** Vocabulary for [model_by_day.py] *)

(** [func] on each date of a list in turn, up to the first call that
    raises. *)
Fixpoint for_each_date {St : Type}
    (func : Z → St → St * ModelByDay.attempt Z) (dates : list Z) (s : St)
  : St * ModelByDay.attempt unit :=
  match dates with
  | [] => (s, ModelByDay.Returns tt)
  | d :: dates' =>
      match func d s with
      | (s', ModelByDay.Raises e) => (s', ModelByDay.Raises e)
      | (s', ModelByDay.Returns _) => for_each_date func dates' s'
      end
  end.

(** The arguments of a list of key-value pairs, a pair written value
    first where its flag says so. *)
Definition pair_args (pairs : list (string * string * bool)) : list string :=
  flat_map (λ '(k, v, value_first), if value_first : bool then [v; k] else [k; v])
    pairs.

Definition pair_dict (pairs : list (string * string * bool))
  : gmap string string :=
  fold_left (λ kwarg '(k, v, _), <[k := v]> kwarg) pairs ∅.

(** A [fromisoformat] that knows the first days of 2026. *)
Definition iso_2026 (s : string) : ModelByDay.attempt Z :=
  if String.eqb s "2026-01-01" then ModelByDay.Returns 739617
  else if String.eqb s "2026-01-02" then ModelByDay.Returns 739618
  else if String.eqb s "2026-01-03" then ModelByDay.Returns 739619
  else if String.eqb s "2026-01-04" then ModelByDay.Returns 739620
  else ModelByDay.Raises
         (ModelByDay.ValueError ("Invalid isoformat string: '" +:+ s +:+ "'")).

(** * Properties *)

Example md5_empty :
  MD5.hexdigest MD5.new = "d41d8cd98f00b204e9800998ecf8427e".
Proof. vm_compute. reflexivity. Qed.

Example md5_a :
  MD5.hexdigest (MD5.update MD5.new (list_byte_of_string "a"))
  = "0cc175b9c0f1b6a831c399e269772661".
Proof. vm_compute. reflexivity. Qed.

Example md5_hello :
  MD5.hexdigest (MD5.update MD5.new (list_byte_of_string "Hello World"))
  = "b10a8db164e0754105b7a99be72e3fe5".
Proof. vm_compute. reflexivity. Qed.

Example md5_wang :
  MD5.hexdigest (MD5.update MD5.new (unhex "d131dd02c5e6eec4693d9a0698aff95c2fcab58712467eab4004583eb8fb7f8955ad340609f4b30283e488832571415a085125e8f7cdc99fd91dbdf280373c5bd8823e3156348f5bae6dacd436c919c6dd53e2b487da03fd02396306d248cda0e99f33420f577ee8ce54b67080a80d1ec69821bcb6a8839396f9652b6ff72a70"))
  = "79054025255fb1a26e4bc422aef54eb4".
Proof. vm_compute. reflexivity. Qed.

(** ** The hasher *)

(** The fuel of [MD5.blocks] is never the reason it stops: any fuel that
    covers the length of the input gives the same state. *)
Lemma md5_blocks_fuel fuel1 : ∀ fuel2 s bs,
  (length bs ≤ fuel1)%nat → (length bs ≤ fuel2)%nat →
  MD5.blocks fuel1 s bs = MD5.blocks fuel2 s bs.
Proof.
  induction fuel1 as [|fuel1 IH]; intros fuel2 s bs H1 H2.
  - destruct bs; [by destruct fuel2|simpl in H1; lia].
  - destruct bs as [|b bs]; [by destruct fuel2|].
    destruct fuel2 as [|fuel2]; [simpl in H2; lia|].
    cbn [MD5.blocks]. apply IH; rewrite length_skipn; simpl in *; lia.
Qed.

Lemma firstn_nil_inv {A} (n : nat) (l : list A) :
  (0 < n)%nat → firstn n l = [] → l = [].
Proof. destruct n, l; simpl; intros; try lia; congruence. Qed.

Lemma feed_chunks_fed (chunk_size : nat) :
  (0 < chunk_size)%nat →
  ∀ fuel f h, (length f < fuel)%nat →
    MD5.fed (feed_chunks fuel chunk_size f h) = MD5.fed h ++ f.
Proof.
  intros Hn. induction fuel as [|fuel IH]; intros f h Hlen; [lia|].
  simpl. unfold read. destruct (firstn chunk_size f) as [|c chunk] eqn:E.
  - apply firstn_nil_inv in E; [|done]. subst. by rewrite app_nil_r.
  - rewrite IH.
    + simpl. rewrite <- E, <- app_assoc. by rewrite firstn_skipn.
    + assert (f ≠ []) by (intros ->; by rewrite firstn_nil in E).
      rewrite length_skipn. destruct f; [done|]. simpl in *. lia.
Qed.

Lemma hexdigest_fed (h : MD5.t) : MD5.hexdigest h = md5_hex (MD5.fed h).
Proof. by destruct h. Qed.

Lemma calculate_file_hash_chunked fs filepath chunk_size :
  (0 < chunk_size)%nat →
  calculate_file_hash fs filepath chunk_size = md5_hex <$> open_rb fs filepath.
Proof.
  intros Hn. unfold calculate_file_hash.
  destruct (open_rb fs filepath) as [f|]; [|done].
  change (md5_hex <$> Some f) with (Some (md5_hex f)). f_equal.
  rewrite hexdigest_fed, feed_chunks_fed by (done || lia). done.
Qed.

Lemma md5_hex_truthy bs : truthy (md5_hex bs) = true.
Proof.
  unfold md5_hex, MD5.hexdigest, MD5.hex_state.
  destruct (MD5.digest _) as [[[a b] c] d]. reflexivity.
Qed.

Lemma md5_hex_length bs : String.length (md5_hex bs) = 32%nat.
Proof.
  unfold md5_hex, MD5.hexdigest, MD5.hex_state.
  destruct (MD5.digest _) as [[[a b] c] d]. reflexivity.
Qed.

Lemma calculate_file_hash_default fs filepath :
  calculate_file_hash fs filepath default_chunk_size
  = md5_hex <$> open_rb fs filepath.
Proof. apply calculate_file_hash_chunked. unfold default_chunk_size. lia. Qed.

(** ** The grouping dictionary *)

Lemma dict_paths_append d k p k' :
  dict_paths (dict_append d k p) k'
  = if String.eqb k' k then dict_paths d k' ++ [p] else dict_paths d k'.
Proof.
  unfold dict_paths. induction d as [|[k0 ps] d IH]; simpl.
  - by destruct (String.eqb k' k).
  - destruct (String.eqb_spec k k0) as [E|Hk]; simpl.
    + subst k0. by destruct (String.eqb k' k).
    + destruct (String.eqb_spec k' k0) as [E|Hk']; simpl; [|apply IH].
      subst k0. by destruct (String.eqb_spec k' k) as [E|_]; [congruence|].
Qed.

Lemma dict_append_keys d k p :
  (dict_append d k p).*1 = if decide (k ∈ d.*1) then d.*1 else d.*1 ++ [k].
Proof.
  induction d as [|[k0 ps] d IH]; csimpl; [done|].
  - destruct (String.eqb_spec k k0) as [E|Hk]; csimpl.
    + subst k0. by rewrite decide_True by set_solver.
    + rewrite IH. destruct (decide (k ∈ d.*1)).
      * by rewrite decide_True by set_solver.
      * by rewrite decide_False by set_solver.
Qed.

Lemma dict_append_NoDup d k p : NoDup d.*1 → NoDup (dict_append d k p).*1.
Proof.
  intros Hd. rewrite dict_append_keys. case_decide; [done|].
  apply NoDup_app. split_and!; [done| |apply NoDup_singleton].
  intros x Hx ->%list_elem_of_singleton. done.
Qed.

Lemma dict_append_nonempty d k p :
  Forall (λ g, g.2 ≠ []) d → Forall (λ g, g.2 ≠ []) (dict_append d k p).
Proof.
  induction 1 as [|[k0 ps] d Hps Hd IH]; simpl.
  - by repeat constructor.
  - destruct (String.eqb k k0); constructor; simpl in *; try done.
    by destruct ps.
Qed.

Lemma dict_get_keys d k ps : dict_get d k = Some ps → k ∈ d.*1.
Proof.
  induction d as [|[k0 ps0] d IH]; simpl; [done|].
  destruct (String.eqb_spec k k0) as [E|_]; set_solver.
Qed.

Lemma dict_get_elem d k ps :
  NoDup d.*1 → (k, ps) ∈ d ↔ dict_get d k = Some ps.
Proof.
  induction d as [|[k0 ps0] d IH]; simpl; intros Hd.
  - split; [by intros ?%elem_of_nil|done].
  - apply NoDup_cons in Hd as [Hk0 Hd].
    rewrite elem_of_cons, (IH Hd).
    destruct (String.eqb_spec k k0) as [E|Hk].
    + subst k0. split; [intros [?|Hin]|]; [congruence| |naive_solver].
      by apply dict_get_keys in Hin.
    + naive_solver.
Qed.

Lemma dict_get_paths d k ps :
  Forall (λ g, g.2 ≠ []) d → NoDup d.*1 →
  (k, ps) ∈ d ↔ ps ≠ [] ∧ dict_paths d k = ps.
Proof.
  intros Hne Hd. rewrite dict_get_elem by done. unfold dict_paths. split.
  - intros Hget. rewrite Hget. split; [|done].
    apply dict_get_elem in Hget; [|done].
    by apply (proj1 (Forall_forall _ _) Hne _ Hget).
  - intros [Hps Hdef]. destruct (dict_get d k); simpl in *; congruence.
Qed.

Lemma fold_file_under_paths key ps : ∀ d h,
  dict_paths (fold_left (file_under key) ps d) h
  = dict_paths d h ++ filter (λ p, key p = Some h) ps.
Proof.
  induction ps as [|p ps IH]; intros d h; simpl.
  - by rewrite app_nil_r.
  - rewrite IH. unfold file_under. rewrite filter_cons.
    destruct (key p) as [h'|] eqn:Hkey.
    + rewrite dict_paths_append.
      destruct (String.eqb_spec h h') as [E|Hne].
      * subst h'. rewrite decide_True by done. by rewrite <- app_assoc.
      * rewrite decide_False by congruence. done.
    + by rewrite decide_False by done.
Qed.

Lemma fold_file_under_wf key ps : ∀ d,
  Forall (λ g, g.2 ≠ []) d ∧ NoDup d.*1 →
  Forall (λ g, g.2 ≠ []) (fold_left (file_under key) ps d)
  ∧ NoDup (fold_left (file_under key) ps d).*1.
Proof.
  induction ps as [|p ps IH]; intros d [Hne Hd]; simpl; [done|].
  apply IH. unfold file_under. destruct (key p); [|done].
  split; [by apply dict_append_nonempty|by apply dict_append_NoDup].
Qed.

(** The groups of a grouping from the empty dictionary: under each key,
    the paths filed under it, in the order they came. *)
Lemma grouping_elem key ps h paths :
  (h, paths) ∈ fold_left (file_under key) ps []
  ↔ paths ≠ [] ∧ paths = filter (λ p, key p = Some h) ps.
Proof.
  destruct (fold_file_under_wf key ps []) as [Hne Hd].
  { split; [constructor|simpl; constructor]. }
  rewrite dict_get_paths, fold_file_under_paths by done.
  unfold dict_paths. simpl. naive_solver.
Qed.

Lemma grouping_keys_NoDup key ps :
  NoDup (fold_left (file_under key) ps []).*1.
Proof.
  apply fold_file_under_wf. split; [constructor|simpl; constructor].
Qed.

(** ** The scan *)

Lemma scan_filepath_duplicates fs min_size cb st filepath :
  duplicates (scan_filepath fs min_size cb st filepath)
  = file_under (file_digest fs min_size) (duplicates st) filepath.
Proof.
  unfold scan_filepath, file_under, file_digest.
  rewrite calculate_file_hash_default.
  destruct (stat fs filepath) as [sz|]; [|done].
  destruct (sz <? min_size); [done|].
  destruct (open_rb fs filepath) as [c|]; simpl; [|done].
  by rewrite md5_hex_truthy.
Qed.

Lemma fold_scan_duplicates fs min_size cb ps : ∀ st,
  duplicates (fold_left (scan_filepath fs min_size cb) ps st)
  = fold_left (file_under (file_digest fs min_size)) ps (duplicates st).
Proof.
  induction ps as [|p ps IH]; intros st; simpl; [done|].
  by rewrite IH, scan_filepath_duplicates.
Qed.

Lemma fold_scan_file fs min_size cb root files : ∀ st,
  fold_left (scan_file fs min_size cb root) files st
  = fold_left (scan_filepath fs min_size cb) (map (path_join root) files) st.
Proof. induction files as [|f files IH]; intros st; simpl; [done|apply IH]. Qed.

Lemma scan_walk_fold fs recursive min_size cb walk : ∀ st,
  scan_walk fs recursive min_size cb walk st
  = fold_left (scan_filepath fs min_size cb)
      (walk_paths (if recursive then walk else firstn 1 walk)) st.
Proof.
  unfold walk_paths.
  induction walk as [|[[root dirs] files] walk IH]; intros st; simpl.
  - by destruct recursive.
  - destruct recursive; simpl.
    + by rewrite IH, fold_left_app, fold_scan_file.
    + by rewrite app_nil_r, fold_scan_file.
Qed.

Lemma find_duplicates_run_fold fs directory recursive min_size cb :
  find_duplicates_run fs directory recursive min_size cb
  = fold_left (scan_filepath fs min_size cb)
      (enumerated fs directory recursive) scan_init.
Proof. unfold find_duplicates_run. apply scan_walk_fold. Qed.

(** The result of a scan: under each digest, the visited paths filed
    under it, in visiting order, when there are two or more. *)
Lemma find_duplicates_elem fs directory recursive min_size cb h paths :
  (h, paths) ∈ find_duplicates fs directory recursive min_size cb
  ↔ (1 < length paths)%nat
    ∧ paths = filter (λ p, file_digest fs min_size p = Some h)
                (enumerated fs directory recursive).
Proof.
  unfold find_duplicates.
  rewrite list_elem_of_In, filter_In, <- list_elem_of_In.
  rewrite find_duplicates_run_fold, fold_scan_duplicates. simpl.
  rewrite grouping_elem, Nat.ltb_lt.
  split; [naive_solver|]. intros [Hlen ->]. split_and!; [|done..].
  intros Hnil. rewrite Hnil in Hlen. simpl in Hlen. lia.
Qed.

Lemma find_duplicates_keys_NoDup fs directory recursive min_size cb :
  NoDup (find_duplicates fs directory recursive min_size cb).*1.
Proof.
  unfold find_duplicates.
  rewrite find_duplicates_run_fold, fold_scan_duplicates. simpl.
  generalize (grouping_keys_NoDup (file_digest fs min_size)
                (enumerated fs directory recursive)).
  generalize (fold_left (file_under (file_digest fs min_size))
                (enumerated fs directory recursive) []).
  induction l as [|[k ps] l IH]; csimpl; [done|].
  intros [Hk Hl]%NoDup_cons. destruct (1 <? length ps)%nat; csimpl; [|auto].
  apply NoDup_cons. split; [|auto].
  rewrite list_elem_of_fmap in *. intros [[k' ps'] [-> Hin]].
  apply Hk. exists (k', ps'). split; [done|].
  apply list_elem_of_In in Hin. apply filter_In in Hin as [Hin _].
  by apply list_elem_of_In.
Qed.

Example scan_xxy :
  find_duplicates fs_xxy "/d" true 1 true
  = [("02129bb861061d1a052c592e2dc6b383", ["/d/a.txt"; "/d/b.txt"])].
Proof. vm_compute. reflexivity. Qed.

Lemma filter_cons_inv {A} (P : A → Prop) `{∀ x, Decision (P x)} l x r :
  filter P l = x :: r →
  ∃ before after,
    l = before ++ x :: after ∧ filter P before = [] ∧ filter P after = r.
Proof.
  induction l as [|y l IH]; [done|]. rewrite filter_cons.
  destruct (decide (P y)) as [Hy|Hy].
  - intros [= -> <-]. by exists [], l.
  - intros (before & after & -> & Hb & Ha)%IH.
    exists (y :: before), after. split_and!; [done| |done].
    rewrite filter_cons. by rewrite decide_False.
Qed.

(** C8. In every group of a scan result the paths are the visited paths
    filed under the group's digest, in visiting order; so the path at
    index 0 is the member the traversal met first: no member of the
    group is visited before it. *)
Theorem C8_keeper_first_discovered fs directory recursive min_size cb h paths :
  (h, paths) ∈ find_duplicates fs directory recursive min_size cb →
  paths = filter (λ p, file_digest fs min_size p = Some h)
            (enumerated fs directory recursive)
  ∧ paths `sublist_of` enumerated fs directory recursive
  ∧ ∃ keeper rest before after,
      paths = keeper :: rest
      ∧ enumerated fs directory recursive = before ++ keeper :: after
      ∧ (∀ q, q ∈ before → q ∉ paths)
      ∧ rest `sublist_of` after.
Proof.
  intros [Hlen Hpaths]%find_duplicates_elem. split; [done|].
  split; [rewrite Hpaths; apply sublist_filter|].
  destruct paths as [|keeper rest]; [simpl in Hlen; lia|].
  symmetry in Hpaths.
  destruct (filter_cons_inv _ _ _ _ Hpaths) as (before & after & He & Hb & Ha).
  exists keeper, rest, before, after. split_and!; [done..| |].
  - intros q Hq Hin. rewrite <- Hpaths in Hin.
    apply list_elem_of_filter in Hin as [HP _].
    assert (q ∈ filter (λ p, file_digest fs min_size p = Some h) before) as Hq'
      by (by apply list_elem_of_filter).
    rewrite Hb in Hq'. by apply elem_of_nil in Hq'.
  - rewrite <- Ha. apply sublist_filter.
Qed.

Lemma C8_witness :
  ["/d/a.txt"; "/d/b.txt"]
  = filter (λ p, file_digest fs_xxy 1 p
                 = Some "02129bb861061d1a052c592e2dc6b383")
      (enumerated fs_xxy "/d" true)
  ∧ ["/d/a.txt"; "/d/b.txt"] `sublist_of` enumerated fs_xxy "/d" true
  ∧ ∃ keeper rest before after,
      ["/d/a.txt"; "/d/b.txt"] = keeper :: rest
      ∧ enumerated fs_xxy "/d" true = before ++ keeper :: after
      ∧ (∀ q, q ∈ before → q ∉ ["/d/a.txt"; "/d/b.txt"])
      ∧ rest `sublist_of` after.
Proof.
  apply (C8_keeper_first_discovered fs_xxy "/d" true 1 true
           "02129bb861061d1a052c592e2dc6b383" ["/d/a.txt"; "/d/b.txt"]).
  vm_compute. constructor.
Defined.

Lemma two_elems_length {A} (l : list A) a b :
  a ≠ b → a ∈ l → b ∈ l → (1 < length l)%nat.
Proof.
  intros Hab Ha Hb. destruct l as [|x [|y l]]; simpl; [|exfalso|lia].
  - by apply elem_of_nil in Ha.
  - apply list_elem_of_singleton in Ha, Hb. congruence.
Qed.

Lemma file_digest_Some fs min_size filepath h :
  file_digest fs min_size filepath = Some h
  ↔ ∃ i, fs_files fs !! filepath = Some i
         ∧ stat_ok i = true ∧ readable i = true
         ∧ min_size ≤ Z.of_nat (length (content i))
         ∧ h = md5_hex (content i).
Proof.
  unfold file_digest, stat, open_rb.
  destruct (fs_files fs !! filepath) as [i|];
    [|split; [done|]; by intros (i' & ? & _)].
  destruct (stat_ok i) eqn:Hs;
    [|split; [done|]; intros (i' & [= <-] & ? & _); congruence].
  destruct (Z.ltb_spec (Z.of_nat (length (content i))) min_size).
  - split; [done|]. intros (i' & [= <-] & _ & _ & ? & _). lia.
  - destruct (readable i) eqn:Hr; simpl.
    + split; [intros [= <-]; by exists i|]. by intros (i' & [= <-] & _ & _ & _ & ->).
    + split; [done|]. intros (i' & [= <-] & _ & ? & _). congruence.
Qed.

Lemma same_group_digest fs directory recursive min_size cb a b :
  same_group (find_duplicates fs directory recursive min_size cb) a b →
  ∃ h, file_digest fs min_size a = Some h ∧ file_digest fs min_size b = Some h.
Proof.
  intros (h & paths & Hin & Ha & Hb).
  apply find_duplicates_elem in Hin as [_ Hpaths]. subst paths.
  apply list_elem_of_filter in Ha as [Ha _], Hb as [Hb _]. eauto.
Qed.

Lemma same_digest_group fs directory recursive min_size cb a b h :
  a ≠ b →
  a ∈ enumerated fs directory recursive →
  b ∈ enumerated fs directory recursive →
  file_digest fs min_size a = Some h → file_digest fs min_size b = Some h →
  same_group (find_duplicates fs directory recursive min_size cb) a b.
Proof.
  intros Hab Ha Hb Hda Hdb.
  exists h, (filter (λ p, file_digest fs min_size p = Some h)
               (enumerated fs directory recursive)).
  assert (∀ p, p ∈ enumerated fs directory recursive →
               file_digest fs min_size p = Some h →
               p ∈ filter (λ p, file_digest fs min_size p = Some h)
                     (enumerated fs directory recursive)) as Hin
    by (intros; by apply list_elem_of_filter).
  split_and!; [|auto..]. apply find_duplicates_elem. split; [|done].
  apply (two_elems_length _ a b); auto.
Qed.

(** C1, as the code has it.  Two distinct visited paths share a group of
    the result exactly when the scan hashed both (stat succeeds, size at
    least [min_size], readable) and their MD5 digests are equal.  Files
    with identical bytes that the scan hashed therefore share a group;
    files with different bytes share one when, and only when, MD5 gives
    them one digest. *)
Theorem C1_same_group_iff_same_digest fs directory recursive min_size cb a b :
  a ≠ b →
  a ∈ enumerated fs directory recursive →
  b ∈ enumerated fs directory recursive →
  (same_group (find_duplicates fs directory recursive min_size cb) a b
   ↔ ∃ ia ib,
       fs_files fs !! a = Some ia ∧ fs_files fs !! b = Some ib
       ∧ stat_ok ia = true ∧ stat_ok ib = true
       ∧ readable ia = true ∧ readable ib = true
       ∧ min_size ≤ Z.of_nat (length (content ia))
       ∧ min_size ≤ Z.of_nat (length (content ib))
       ∧ md5_hex (content ia) = md5_hex (content ib))
  ∧ (∀ ia ib,
       fs_files fs !! a = Some ia → fs_files fs !! b = Some ib →
       stat_ok ia = true → stat_ok ib = true →
       readable ia = true → readable ib = true →
       min_size ≤ Z.of_nat (length (content ia)) →
       content ia = content ib →
       same_group (find_duplicates fs directory recursive min_size cb) a b).
Proof.
  intros Hab Ha Hb. split; [split|].
  - intros (h & Hda & Hdb)%same_group_digest.
    apply file_digest_Some in Hda as (ia & ? & ? & ? & ? & ->).
    apply file_digest_Some in Hdb as (ib & ? & ? & ? & ? & ?).
    exists ia, ib. split_and!; done.
  - intros (ia & ib & ? & ? & ? & ? & ? & ? & ? & ? & Hmd5).
    apply (same_digest_group _ _ _ _ _ _ _ (md5_hex (content ia))); try done.
    + apply file_digest_Some. exists ia. split_and!; done.
    + apply file_digest_Some. exists ib. split_and!; done.
  - intros ia ib ? ? ? ? ? ? ? Hc.
    apply (same_digest_group _ _ _ _ _ _ _ (md5_hex (content ia))); try done.
    + apply file_digest_Some. exists ia. split_and!; done.
    + apply file_digest_Some. exists ib. rewrite <- Hc. split_and!; done.
Qed.

Lemma C1_witness :
  (same_group (find_duplicates fs_xxy "/d" true 1 false) "/d/a.txt" "/d/b.txt"
   ↔ ∃ ia ib,
       fs_files fs_xxy !! "/d/a.txt" = Some ia
       ∧ fs_files fs_xxy !! "/d/b.txt" = Some ib
       ∧ stat_ok ia = true ∧ stat_ok ib = true
       ∧ readable ia = true ∧ readable ib = true
       ∧ 1 ≤ Z.of_nat (length (content ia))
       ∧ 1 ≤ Z.of_nat (length (content ib))
       ∧ md5_hex (content ia) = md5_hex (content ib))
  ∧ (∀ ia ib,
       fs_files fs_xxy !! "/d/a.txt" = Some ia →
       fs_files fs_xxy !! "/d/b.txt" = Some ib →
       stat_ok ia = true → stat_ok ib = true →
       readable ia = true → readable ib = true →
       1 ≤ Z.of_nat (length (content ia)) →
       content ia = content ib →
       same_group (find_duplicates fs_xxy "/d" true 1 false)
         "/d/a.txt" "/d/b.txt").
Proof.
  apply (C1_same_group_iff_same_digest fs_xxy "/d" true 1 false
           "/d/a.txt" "/d/b.txt").
  - discriminate.
  - vm_compute. repeat constructor.
  - vm_compute. repeat constructor.
Defined.

(** C1 as stated fails: the two files of [fs_wang] have the same size and
    different bytes, and the scan puts them in one group. *)
Lemma C1_counterexample :
  find_duplicates fs_wang "/d" true 1 false
  = [("79054025255fb1a26e4bc422aef54eb4", ["/d/m1.bin"; "/d/m2.bin"])]
  ∧ same_group (find_duplicates fs_wang "/d" true 1 false)
      "/d/m1.bin" "/d/m2.bin"
  ∧ file_content fs_wang "/d/m1.bin" ≠ file_content fs_wang "/d/m2.bin"
  ∧ stat fs_wang "/d/m1.bin" = Some 128
  ∧ stat fs_wang "/d/m2.bin" = Some 128.
Proof.
  assert (find_duplicates fs_wang "/d" true 1 false
          = [("79054025255fb1a26e4bc422aef54eb4", ["/d/m1.bin"; "/d/m2.bin"])])
    as Hscan by (vm_compute; reflexivity).
  split_and!; [done| | |vm_compute; reflexivity..].
  - rewrite Hscan. eexists _, _. split; [constructor|].
    split; repeat constructor.
  - vm_compute. discriminate.
Qed.

Example scan_min_size_0 :
  find_duplicates fs_min_size "/t" true 0 false
  = [ (empty_digest, ["/t/empty.txt"; "/t/empty2.txt"]);
      ("e807f1fcf82d132f9bb018ca6738a19f", ["/t/small.txt"; "/t/small2.txt"]) ].
Proof. vm_compute. reflexivity. Qed.

Example scan_min_size_1 :
  find_duplicates fs_min_size "/t" true 1 false
  = [ ("e807f1fcf82d132f9bb018ca6738a19f", ["/t/small.txt"; "/t/small2.txt"]) ].
Proof. vm_compute. reflexivity. Qed.

Lemma md5_hex_nil : md5_hex [] = empty_digest.
Proof. vm_compute. reflexivity. Qed.

Lemma readable_zero_byte_inode fs filepath :
  readable_zero_byte fs filepath →
  stat fs filepath = Some 0 ∧ open_rb fs filepath = Some [].
Proof.
  unfold readable_zero_byte, stat, open_rb.
  destruct (fs_files fs !! filepath) as [i|]; [|by intros [? ?]].
  destruct (stat_ok i); [|by intros [? ?]].
  destruct (readable i); [|by intros [? [? ?]]].
  intros [[= Hlen] _]. split; [by rewrite Hlen|].
  destruct (content i); [done|simpl in Hlen; lia].
Qed.

Lemma readable_zero_byte_digest fs filepath :
  readable_zero_byte fs filepath → file_digest fs 0 filepath = Some empty_digest.
Proof.
  intros [Hs Ho]%readable_zero_byte_inode. unfold file_digest.
  rewrite Hs, Ho. cbn [fmap option_fmap option_map Z.ltb Z.compare].
  by rewrite md5_hex_nil.
Qed.

(** C9. With [min_size = 0] a zero-byte file is not skipped by the size
    check: the scan hashes it, counts it and files it under the digest of
    the empty byte string.  When the scanned directory holds two or more
    such files, the result has the group of that digest, every one of
    them is in it, and no other group holds any of them. *)
Theorem C9_zero_byte_files_one_group fs directory recursive cb a b :
  a ≠ b →
  a ∈ enumerated fs directory recursive →
  b ∈ enumerated fs directory recursive →
  readable_zero_byte fs a → readable_zero_byte fs b →
  (∀ st p, readable_zero_byte fs p →
     duplicates (scan_filepath fs 0 cb st p)
     = dict_append (duplicates st) empty_digest p
     ∧ processed_files (scan_filepath fs 0 cb st p) = processed_files st + 1)
  ∧ ∃ paths,
      (empty_digest, paths) ∈ find_duplicates fs directory recursive 0 cb
      ∧ (∀ p, p ∈ enumerated fs directory recursive →
              readable_zero_byte fs p → p ∈ paths)
      ∧ (∀ h' paths' p,
           (h', paths') ∈ find_duplicates fs directory recursive 0 cb →
           p ∈ paths' → readable_zero_byte fs p →
           h' = empty_digest ∧ paths' = paths).
Proof.
  intros Hab Ha Hb Hza Hzb. split.
  - intros st p [Hs Ho]%readable_zero_byte_inode. unfold scan_filepath.
    rewrite calculate_file_hash_default, Hs, Ho.
    cbn [fmap option_fmap option_map]. rewrite md5_hex_truthy, md5_hex_nil.
    split; reflexivity.
  - exists (filter (λ p, file_digest fs 0 p = Some empty_digest)
              (enumerated fs directory recursive)).
    assert (∀ p, p ∈ enumerated fs directory recursive →
                 readable_zero_byte fs p →
                 p ∈ filter (λ p, file_digest fs 0 p = Some empty_digest)
                       (enumerated fs directory recursive)) as Hin.
    { intros p Hp Hz. apply list_elem_of_filter.
      split; [by apply readable_zero_byte_digest|done]. }
    split_and!; [|done|].
    + apply find_duplicates_elem. split; [|done].
      apply (two_elems_length _ a b); auto.
    + intros h' paths' p [_ Hpaths]%find_duplicates_elem Hp Hz.
      rewrite Hpaths in Hp. apply list_elem_of_filter in Hp as [Hd _].
      rewrite (readable_zero_byte_digest _ _ Hz) in Hd.
      injection Hd as <-. done.
Qed.

Lemma C9_witness :
  (∀ st p, readable_zero_byte fs_min_size p →
     duplicates (scan_filepath fs_min_size 0 false st p)
     = dict_append (duplicates st) empty_digest p
     ∧ processed_files (scan_filepath fs_min_size 0 false st p)
       = processed_files st + 1)
  ∧ ∃ paths,
      (empty_digest, paths) ∈ find_duplicates fs_min_size "/t" true 0 false
      ∧ (∀ p, p ∈ enumerated fs_min_size "/t" true →
              readable_zero_byte fs_min_size p → p ∈ paths)
      ∧ (∀ h' paths' p,
           (h', paths') ∈ find_duplicates fs_min_size "/t" true 0 false →
           p ∈ paths' → readable_zero_byte fs_min_size p →
           h' = empty_digest ∧ paths' = paths).
Proof.
  apply (C9_zero_byte_files_one_group fs_min_size "/t" true false
           "/t/empty.txt" "/t/empty2.txt").
  - discriminate.
  - vm_compute. repeat constructor.
  - vm_compute. repeat constructor.
  - split; [vm_compute; reflexivity|]. exists []. vm_compute. reflexivity.
  - split; [vm_compute; reflexivity|]. exists []. vm_compute. reflexivity.
Defined.

(** ** The eliminator *)

Lemma fs_le_refl fs : fs_le fs fs.
Proof. by split. Qed.

Lemma fs_le_trans fs1 fs2 fs3 : fs_le fs1 fs2 → fs_le fs2 fs3 → fs_le fs1 fs3.
Proof. intros [? ?] [? ?]. split; [congruence|by etrans]. Qed.

Lemma fs_le_lookup fs' fs p i :
  fs_le fs' fs → fs_files fs' !! p = Some i → fs_files fs !! p = Some i.
Proof. intros [_ Hsub] Hp. by eapply lookup_weaken. Qed.

Lemma unlink_le fs p fs' : unlink fs p = Some fs' → fs_le fs' fs.
Proof.
  unfold unlink. destruct (fs_files fs !! p) as [i|]; [|done].
  destruct (removable i); [|done]. intros [= <-].
  split; [done|apply delete_subseteq].
Qed.

Lemma unlink_lookup fs p fs' q :
  unlink fs p = Some fs' →
  fs_files fs' !! q = if decide (p = q) then None else fs_files fs !! q.
Proof.
  unfold unlink. destruct (fs_files fs !! p) as [i|]; [|done].
  destruct (removable i); [|done]. intros [= <-]. simpl.
  apply lookup_delete.
Qed.



Lemma attempts_app log1 log2 : attempts (log1 ++ log2) = attempts log1 ++ attempts log2.
Proof.
  induction log1 as [|[p ok|line] log1 IH]; simpl; [done| |done].
  by rewrite IH.
Qed.

(** What one pass of the inner loop does. *)
Lemma delete_file_cases file_size t w p :
  (∃ fs', unlink (w_fs w) p = Some fs'
          ∧ delete_file file_size (t, w) p
            = ({| deleted_count := deleted_count t + 1;
                  freed_space := freed_space t + file_size |},
               {| w_fs := fs'; w_log := w_log w ++ [Unlink p true] |}))
  ∨ (unlink (w_fs w) p = None
     ∧ delete_file file_size (t, w) p
       = (t, {| w_fs := w_fs w;
                w_log := w_log w ++ [Unlink p false;
                                     Printed ("Error deleting " +:+ p)] |})).
Proof. unfold delete_file. destruct (unlink (w_fs w) p); eauto. Qed.

(** Case analysis on the outcome of the [unlink] of one pass. *)
Ltac delete_file_outcomes file_size acc p :=
  let t := fresh "t" in
  let w := fresh "w" in
  let fs' := fresh "fs'" in
  let Hu := fresh "Hu" in
  destruct acc as [t w];
  destruct (delete_file_cases file_size t w p) as [(fs' & Hu & ->)|[Hu ->]];
  simpl.

Lemma delete_file_le file_size acc p :
  fs_le (w_fs (delete_file file_size acc p).2) (w_fs acc.2).
Proof.
  delete_file_outcomes file_size acc p; [by eapply unlink_le|apply fs_le_refl].
Qed.


Lemma delete_file_attempts file_size acc p :
  attempts (w_log (delete_file file_size acc p).2)
  = attempts (w_log acc.2) ++ [p].
Proof.
  delete_file_outcomes file_size acc p; by rewrite attempts_app.
Qed.

Lemma delete_file_frame file_size acc p q :
  q ≠ p →
  fs_files (w_fs (delete_file file_size acc p).2) !! q
  = fs_files (w_fs acc.2) !! q.
Proof.
  intros Hq. delete_file_outcomes file_size acc p; [|done].
  by rewrite (unlink_lookup _ _ _ q Hu), decide_False.
Qed.

Lemma fold_delete_le file_size rest : ∀ acc,
  fs_le (w_fs (fold_left (delete_file file_size) rest acc).2) (w_fs acc.2).
Proof.
  induction rest as [|p rest IH]; intros acc; simpl; [apply fs_le_refl|].
  eapply fs_le_trans; [apply IH|apply delete_file_le].
Qed.


Lemma fold_delete_attempts file_size rest : ∀ acc,
  attempts (w_log (fold_left (delete_file file_size) rest acc).2)
  = attempts (w_log acc.2) ++ rest.
Proof.
  induction rest as [|p rest IH]; intros acc; simpl.
  - by rewrite app_nil_r.
  - by rewrite IH, delete_file_attempts, <- app_assoc.
Qed.

Lemma fold_delete_frame file_size rest : ∀ acc q,
  q ∉ rest →
  fs_files (w_fs (fold_left (delete_file file_size) rest acc).2) !! q
  = fs_files (w_fs acc.2) !! q.
Proof.
  induction rest as [|p rest IH]; intros acc q Hq; simpl; [done|].
  apply not_elem_of_cons in Hq as [Hqp Hq].
  by rewrite IH, delete_file_frame.
Qed.

(** The three ways through one group. *)
Lemma delete_loop_cons acc h filepaths items :
  delete_loop acc ((h, filepaths) :: items)
  = match filepaths with
    | [] => delete_loop acc items
    | keeper :: rest =>
        match stat (w_fs acc.2) keeper with
        | Some file_size =>
            delete_loop (fold_left (delete_file file_size) rest acc) items
        | None => delete_loop acc items
        end
    end.
Proof.
  simpl. unfold delete_group. destruct filepaths as [|keeper rest]; [done|].
  by destruct (stat (w_fs acc.2) keeper).
Qed.

Lemma delete_loop_app items1 : ∀ acc items2,
  delete_loop acc (items1 ++ items2)
  = match delete_loop acc items1 with
    | Ok acc' => delete_loop acc' items2
    | Raise e => Raise e
    end.
Proof.
  induction items1 as [|[h filepaths] items1 IH]; intros acc items2; [done|].
  rewrite <- app_comm_cons, !delete_loop_cons.
  destruct filepaths as [|keeper rest]; [apply IH|].
  destruct (stat (w_fs acc.2) keeper); apply IH.
Qed.

(** No exception leaves [delete_duplicates]. *)
Lemma delete_loop_Ok items : ∀ acc, ∃ acc', delete_loop acc items = Ok acc'.
Proof.
  induction items as [|[h filepaths] items IH]; intros acc; [by eexists|].
  rewrite delete_loop_cons. destruct filepaths as [|keeper rest]; [apply IH|].
  destruct (stat (w_fs acc.2) keeper); apply IH.
Qed.

Lemma delete_loop_le items : ∀ acc acc',
  delete_loop acc items = Ok acc' → fs_le (w_fs acc'.2) (w_fs acc.2).
Proof.
  induction items as [|[h filepaths] items IH]; intros acc acc'.
  - intros [= <-]. apply fs_le_refl.
  - rewrite delete_loop_cons. destruct filepaths as [|keeper rest]; [apply IH|].
    destruct (stat (w_fs acc.2) keeper); [|apply IH].
    intros Hloop%IH. eapply fs_le_trans; [done|apply fold_delete_le].
Qed.

(** C10. A group with an empty path list is a no-op for
    [delete_duplicates]: the [IndexError] of [filepaths[0]] is caught, the
    counters, the file system and the log go on to the next group as
    they were, and the call returns. *)
Theorem C10_empty_group_is_noop fs before h after :
  (∀ acc, delete_loop acc ((h, []) :: after) = delete_loop acc after)
  ∧ delete_duplicates fs (before ++ (h, []) :: after)
    = delete_duplicates fs (before ++ after)
  ∧ ∃ t w, delete_duplicates fs (before ++ (h, []) :: after) = Ok (t, w).
Proof.
  split_and!.
  - intros acc. by rewrite delete_loop_cons.
  - unfold delete_duplicates. rewrite !delete_loop_app.
    destruct (delete_loop _ before); [|done]. by rewrite delete_loop_cons.
  - destruct (delete_loop_Ok (before ++ (h, []) :: after)
                (no_tally, {| w_fs := fs; w_log := [] |})) as [[t w] H].
    by exists t, w.
Qed.






Lemma non_keepers_cons h filepaths items :
  non_keepers ((h, filepaths) :: items) = tail filepaths ++ non_keepers items.
Proof. done. Qed.

(** Only paths at index 1 and above are handed to [unlink], and the
    files at all other paths stay as they are. *)
Lemma delete_loop_attempts items : ∀ acc acc',
  delete_loop acc items = Ok acc' →
  (∃ more, attempts (w_log acc'.2) = attempts (w_log acc.2) ++ more
           ∧ ∀ p, p ∈ more → p ∈ non_keepers items)
  ∧ ∀ q, q ∉ non_keepers items →
         fs_files (w_fs acc'.2) !! q = fs_files (w_fs acc.2) !! q.
Proof.
  induction items as [|[h filepaths] items IH]; intros acc acc' Hloop.
  - injection Hloop as <-. split; [|done].
    exists []. split; [by rewrite app_nil_r|]. by intros p ?%elem_of_nil.
  - rewrite delete_loop_cons in Hloop. rewrite non_keepers_cons.
    assert (∀ acc0, delete_loop acc0 items = Ok acc' →
              fs_files (w_fs acc0.2) = fs_files (w_fs acc.2) →
              attempts (w_log acc0.2) = attempts (w_log acc.2) →
              (∃ more, attempts (w_log acc'.2) = attempts (w_log acc.2) ++ more
                       ∧ ∀ p, p ∈ more → p ∈ tail filepaths ++ non_keepers items)
              ∧ ∀ q, q ∉ tail filepaths ++ non_keepers items →
                     fs_files (w_fs acc'.2) !! q = fs_files (w_fs acc.2) !! q)
      as Hskip.
    { intros acc0 [(more & Hlog & Hmore) Hframe]%IH Hfs Hlog0. split.
      - exists more. split; [congruence|]. set_solver.
      - intros q Hq. rewrite Hframe, Hfs; [done|set_solver]. }
    destruct filepaths as [|keeper rest]; [by apply (Hskip acc)|].
    destruct (stat (w_fs acc.2) keeper) as [file_size|];
      [|by apply (Hskip acc)].
    apply IH in Hloop as [(more & Hlog & Hmore) Hframe]. simpl. split.
    + exists (rest ++ more). split; [|set_solver].
      by rewrite Hlog, fold_delete_attempts, <- app_assoc.
    + intros q Hq. rewrite Hframe, fold_delete_frame; set_solver.
Qed.




(** ** The analyzer *)

Lemma analyze_loop_sum fs ds : ∀ total_space,
  (∀ h paths, (h, paths) ∈ ds → paths ≠ []) →
  analyze_loop fs total_space ds = Ok (total_space + reclaimable_bytes fs ds).
Proof.
  induction ds as [|[h paths] ds IH]; intros total_space Hne; simpl.
  - f_equal. lia.
  - destruct paths as [|keeper rest]; [by destruct (Hne h []); [left|]|].
    unfold analyze_group. simpl.
    destruct (stat fs keeper) as [file_size|];
      (rewrite IH; [f_equal; lia|]); intros h' paths' Hin;
      apply (Hne h'); by right.
Qed.

Lemma reclaimable_bytes_app fs ds1 ds2 :
  reclaimable_bytes fs (ds1 ++ ds2)
  = reclaimable_bytes fs ds1 + reclaimable_bytes fs ds2.
Proof.
  induction ds1 as [|[h paths] ds1 IH]; simpl; [done|].
  fold (reclaimable_bytes fs (ds1 ++ ds2)). fold (reclaimable_bytes fs ds1).
  rewrite IH. destruct (head paths ≫= stat fs); lia.
Qed.

(** C5. For a set whose groups each have a first path,
    [analyze_duplicates] returns the number of groups and the sum, over
    the groups, of the size of the first path times the group length
    minus one; a group whose first path cannot be stat-ed adds nothing
    to the sum and the call still returns. *)
Theorem C5_analyze_counts_and_sums fs ds :
  (∀ h paths, (h, paths) ∈ ds → paths ≠ []) →
  analyze_duplicates fs ds
  = Ok (Z.of_nat (length ds), reclaimable_bytes fs ds)
  ∧ (∀ before h keeper rest after,
       ds = before ++ (h, keeper :: rest) :: after →
       stat fs keeper = None →
       analyze_duplicates fs ds
       = Ok (Z.of_nat (length ds), reclaimable_bytes fs (before ++ after))).
Proof.
  intros Hne.
  assert (analyze_duplicates fs ds
          = Ok (Z.of_nat (length ds), reclaimable_bytes fs ds)) as Hres.
  { unfold analyze_duplicates. by rewrite analyze_loop_sum. }
  split; [done|].
  intros before h keeper rest after -> Hstat. rewrite Hres. do 2 f_equal.
  rewrite !reclaimable_bytes_app. simpl. rewrite Hstat. done.
Qed.

Lemma C5_witness :
  analyze_duplicates fs_analyze ds_analyze = Ok (2, 25 * 2 + 35 * 1)
  ∧ analyze_duplicates fs_analyze ds_analyze
    = Ok (Z.of_nat (length ds_analyze), reclaimable_bytes fs_analyze ds_analyze).
Proof.
  split; [vm_compute; reflexivity|].
  apply (C5_analyze_counts_and_sums fs_analyze ds_analyze).
  intros h paths Hin. unfold ds_analyze in Hin.
  repeat (apply elem_of_cons in Hin as [[= -> ->]|Hin]; [discriminate|]).
  by apply elem_of_nil in Hin.
Defined.

Example analyze_keeper_gone :
  analyze_duplicates fs_keeper_gone
    [("02129bb861061d1a052c592e2dc6b383", ["/d/a.txt"; "/d/b.txt"])]
  = Ok (1, 0).
Proof. vm_compute. reflexivity. Qed.

(** Outside the sets of the specification: the [IndexError] of an empty
    group is not caught by [analyze_duplicates]. *)
Example analyze_empty_group :
  analyze_duplicates fs_xxy [("h", [])] = Raise IndexError.
Proof. reflexivity. Qed.

(** ** The root of the scan *)

Lemma os_walk_inaccessible fs directory :
  accessible_dir fs directory = false → os_walk fs directory = [].
Proof.
  unfold accessible_dir, os_walk.
  destruct (find_dir directory (fs_tree fs)) as [[root listable names subdirs]|];
    [|done].
  by intros ->.
Qed.

(** C4, as the code has it.  For a root that is not an accessible
    directory [find_duplicates] signals nothing: it visits no file, makes
    no progress call and returns the empty set.  The error for a root
    that is not a directory comes from [validate_args] of the command
    line, as a [ValueError] that names the root. *)
Theorem C4_invalid_root_scans_nothing fs root_path recursive min_size cb :
  accessible_dir fs root_path = false →
  find_duplicates_run fs root_path recursive min_size cb = scan_init
  ∧ find_duplicates fs root_path recursive min_size cb = []
  ∧ progress_calls fs root_path recursive min_size cb = []
  ∧ (isdir fs root_path = false →
     ∀ a, directory a = root_path →
       validate_args fs a
       = Raise (ValueError ("'" +:+ root_path +:+ "' is not a valid directory"))).
Proof.
  intros Hacc.
  assert (find_duplicates_run fs root_path recursive min_size cb = scan_init)
    as Hrun.
  { unfold find_duplicates_run. rewrite os_walk_inaccessible by done. done. }
  unfold find_duplicates, progress_calls. rewrite Hrun. split_and!; [done..|].
  intros Hdir a <-. unfold validate_args. by rewrite Hdir.
Qed.

Lemma C4_witness :
  find_duplicates_run fs_xxy "/nowhere" true 1 true = scan_init
  ∧ find_duplicates fs_xxy "/nowhere" true 1 true = []
  ∧ progress_calls fs_xxy "/nowhere" true 1 true = []
  ∧ (isdir fs_xxy "/nowhere" = false →
     ∀ a, directory a = "/nowhere" →
       validate_args fs_xxy a
       = Raise (ValueError ("'" +:+ "/nowhere" +:+ "' is not a valid directory"))).
Proof.
  apply (C4_invalid_root_scans_nothing fs_xxy "/nowhere" true 1 true).
  vm_compute. reflexivity.
Defined.

(** C4 as stated fails: the root is not a directory and [find_duplicates]
    returns the ordinary empty set, as [test_find_duplicates_invalid_directory]
    expects. *)
Lemma C4_counterexample :
  isdir fs_xxy "/path/that/does/not/exist" = false
  ∧ find_duplicates fs_xxy "/path/that/does/not/exist" true 1 false = [].
Proof. split; vm_compute; reflexivity. Qed.

Example unlistable_root :
  validate_args fs_unlistable
    {| directory := "/locked"; recursive := true; min_size := 1;
       show_size := false; dry_run := false; delete_flag := false;
       quiet := false |} = Ok tt
  ∧ find_duplicates fs_unlistable "/locked" true 1 false = [].
Proof. split; vm_compute; reflexivity. Qed.

(** ** The progress callback *)

(** C3, at the failing input: no file has been hashed and the callback
    is called, with [processed = 0]. *)
Lemma C3_callback_without_hash :
  processed_files (find_duplicates_run fs_locked "/d" true 1 true) = 0
  ∧ progress_calls fs_locked "/d" true 1 true = [(0, 1)].
Proof. split; vm_compute; reflexivity. Qed.

(** ** Scanning again after the eliminator *)

Lemma map_filter_comm {A B} (f : A → B) (P : B → Prop)
    `{∀ y, Decision (P y)} (l : list A) :
  map f (filter (λ x, P (f x)) l) = filter P (map f l).
Proof.
  induction l as [|x l IH]; [done|]. simpl. rewrite !filter_cons.
  destruct (decide (P (f x))); simpl; by rewrite IH.
Qed.

Lemma walk_paths_list_dir fs skeleton :
  walk_paths (map (list_dir fs) skeleton)
  = filter (λ p, is_Some (fs_files fs !! p)) (walk_paths skeleton).
Proof.
  unfold walk_paths.
  induction skeleton as [|[[root dirs] names] skeleton IH]; [done|].
  simpl. rewrite filter_app, IH. f_equal.
  exact (map_filter_comm (path_join root)
           (λ p : string, is_Some (fs_files fs !! p)) names).
Qed.

Lemma enumerated_static fs directory recursive :
  enumerated fs directory recursive
  = filter (λ p, is_Some (fs_files fs !! p))
      (static_paths (fs_tree fs) directory recursive).
Proof.
  unfold enumerated, static_paths, os_walk.
  rewrite <- walk_paths_list_dir. f_equal.
  destruct (find_dir directory (fs_tree fs)) as [t|]; [|by destruct recursive].
  destruct recursive; [done|]. by destruct (walk_tree t).
Qed.

Lemma enumerated_le fs' fs directory recursive :
  fs_le fs' fs →
  enumerated fs' directory recursive
  = filter (λ p, is_Some (fs_files fs' !! p)) (enumerated fs directory recursive).
Proof.
  intros Hle. rewrite !enumerated_static. destruct Hle as [-> Hsub].
  rewrite list_filter_filter_l; [done|].
  intros p [i Hp]. exists i. by eapply lookup_weaken.
Qed.

Lemma file_digest_le fs' fs min_size p h :
  fs_le fs' fs →
  file_digest fs' min_size p = Some h
  ↔ file_digest fs min_size p = Some h ∧ is_Some (fs_files fs' !! p).
Proof.
  intros Hle. rewrite !file_digest_Some. split.
  - intros (i & Hp & ?). split; [|by exists i].
    exists i. split; [by eapply fs_le_lookup|done].
  - intros [(i & Hp & ?) [i' Hp']]. exists i. split; [|done].
    by rewrite Hp', <- Hp, (fs_le_lookup _ _ _ _ Hle Hp').
Qed.

Lemma group_le fs' fs directory recursive min_size h :
  fs_le fs' fs →
  filter (λ p, file_digest fs' min_size p = Some h)
    (enumerated fs' directory recursive)
  = filter (λ p, is_Some (fs_files fs' !! p))
      (filter (λ p, file_digest fs min_size p = Some h)
         (enumerated fs directory recursive)).
Proof.
  intros Hle. rewrite (enumerated_le fs' fs) by done.
  rewrite !list_filter_filter. apply list_filter_iff. intros p.
  rewrite (file_digest_le fs' fs) by done. naive_solver.
Qed.

Lemma lookup_None_le fs' fs p :
  fs_le fs' fs → fs_files fs !! p = None → fs_files fs' !! p = None.
Proof.
  intros Hle Hp. destruct (fs_files fs' !! p) as [i|] eqn:Hp'; [|done].
  apply (fs_le_lookup _ _ _ _ Hle) in Hp'. congruence.
Qed.

Lemma stat_lookup fs1 fs2 p :
  fs_files fs1 !! p = fs_files fs2 !! p → stat fs1 p = stat fs2 p.
Proof. unfold stat. by intros ->. Qed.

Lemma delete_file_log file_size acc p :
  ∃ more, w_log (delete_file file_size acc p).2 = w_log acc.2 ++ more.
Proof.
  delete_file_outcomes file_size acc p; by eexists.
Qed.

Lemma fold_delete_log file_size rest : ∀ acc,
  ∃ more,
    w_log (fold_left (delete_file file_size) rest acc).2 = w_log acc.2 ++ more.
Proof.
  induction rest as [|p rest IH]; intros acc; simpl.
  - exists []. by rewrite app_nil_r.
  - destruct (IH (delete_file file_size acc p)) as [more1 ->].
    destruct (delete_file_log file_size acc p) as [more0 ->].
    exists (more0 ++ more1). by rewrite app_assoc.
Qed.

Lemma delete_loop_log items : ∀ acc acc',
  delete_loop acc items = Ok acc' →
  ∃ more, w_log acc'.2 = w_log acc.2 ++ more.
Proof.
  induction items as [|[h filepaths] items IH]; intros acc acc'.
  - intros [= <-]. exists []. by rewrite app_nil_r.
  - rewrite delete_loop_cons. destruct filepaths as [|keeper rest]; [apply IH|].
    destruct (stat (w_fs acc.2) keeper) as [file_size|]; [|apply IH].
    intros [more1 ->]%IH.
    destruct (fold_delete_log file_size rest acc) as [more0 ->].
    exists (more0 ++ more1). by rewrite app_assoc.
Qed.

Lemma no_failure_prefix log more : no_failure (log ++ more) → no_failure log.
Proof. intros H p Hp. apply (H p). apply elem_of_app. by left. Qed.

Lemma fold_delete_gone file_size rest : ∀ acc p,
  no_failure (w_log (fold_left (delete_file file_size) rest acc).2) →
  p ∈ rest →
  fs_files (w_fs (fold_left (delete_file file_size) rest acc).2) !! p = None.
Proof.
  induction rest as [|q rest IH]; intros acc p Hlog Hp; simpl in *.
  - by apply elem_of_nil in Hp.
  - apply elem_of_cons in Hp as [->|Hp]; [|by apply IH].
    eapply lookup_None_le; [apply fold_delete_le|].
    destruct (fold_delete_log file_size rest (delete_file file_size acc q))
      as [more Hmore].
    rewrite Hmore in Hlog. apply no_failure_prefix in Hlog.
    destruct acc as [t w].
    destruct (delete_file_cases file_size t w q) as [(fs' & Hu & Hd)|[Hu Hd]];
      rewrite Hd in Hlog |- *; simpl in *.
    + by rewrite (unlink_lookup _ _ _ q Hu), decide_True.
    + exfalso. apply (Hlog q). set_solver.
Qed.

Lemma delete_loop_gone items : ∀ acc acc',
  delete_loop acc items = Ok acc' →
  no_failure (w_log acc'.2) →
  (∀ h keeper rest, (h, keeper :: rest) ∈ items →
     is_Some (stat (w_fs acc.2) keeper)) →
  keepers_apart items →
  ∀ p, p ∈ non_keepers items → fs_files (w_fs acc'.2) !! p = None.
Proof.
  induction items as [|[h filepaths] items IH];
    intros acc acc' Hloop Hlog Hstat Hapart p Hp.
  - by apply elem_of_nil in Hp.
  - rewrite delete_loop_cons in Hloop. rewrite non_keepers_cons in Hp.
    destruct Hapart as [Hhead Hapart].
    destruct filepaths as [|keeper rest].
    { apply (IH acc acc'); try done. intros h' k' rest' Hin.
      apply (Hstat h' k' rest'). by right. }
    destruct (Hstat h keeper rest) as [file_size Hk]; [by left|].
    rewrite Hk in Hloop. simpl in Hp, Hhead.
    apply elem_of_app in Hp as [Hp|Hp].
    + eapply lookup_None_le; [by eapply delete_loop_le|].
      apply fold_delete_gone; [|done].
      destruct (delete_loop_log _ _ _ Hloop) as [more Hmore].
      rewrite Hmore in Hlog. by apply no_failure_prefix in Hlog.
    + apply (IH _ acc' Hloop); try done.
      intros h' k' rest' Hin.
      rewrite (stat_lookup _ (w_fs acc.2)).
      * apply (Hstat h' k' rest'). by right.
      * apply fold_delete_frame. by eapply Hhead.
Qed.

Lemma elem_of_tail {A} (l : list A) x : x ∈ tail l → x ∈ l.
Proof. destruct l; simpl; [done|]. by right. Qed.

Lemma keyed_keepers_apart (key : string → option string) ds :
  NoDup ds.*1 →
  (∀ h paths p, (h, paths) ∈ ds → p ∈ paths → key p = Some h) →
  keepers_apart ds.
Proof.
  induction ds as [|[h paths] ds IH]; csimpl; intros Hnd Hkey; [done|].
  apply NoDup_cons in Hnd as [Hh Hnd]. split.
  - intros h' keeper' rest' Hin Htail%elem_of_tail.
    assert (key keeper' = Some h) as Hk by (eapply Hkey; [by left|done]).
    assert (key keeper' = Some h') as Hk'.
    { apply (Hkey h' (keeper' :: rest')); [by right|by left]. }
    apply Hh. apply list_elem_of_fmap. exists (h', keeper' :: rest').
    split; [|done]. simpl. congruence.
  - apply IH; [done|]. intros h' paths' p Hin. apply Hkey. by right.
Qed.

Lemma find_duplicates_member_digest fs directory recursive min_size cb h paths p :
  (h, paths) ∈ find_duplicates fs directory recursive min_size cb →
  p ∈ paths → file_digest fs min_size p = Some h.
Proof.
  intros [_ ->]%find_duplicates_elem Hp.
  by apply list_elem_of_filter in Hp as [Hd _].
Qed.

Lemma file_digest_stat fs min_size p h :
  file_digest fs min_size p = Some h → is_Some (stat fs p).
Proof. unfold file_digest. by destruct (stat fs p). Qed.

Lemma non_keepers_elem ds h keeper rest p :
  (h, keeper :: rest) ∈ ds → p ∈ rest → p ∈ non_keepers ds.
Proof.
  intros Hin Hp. unfold non_keepers. apply list_elem_of_In, in_flat_map.
  exists (h, keeper :: rest). split; by apply list_elem_of_In.
Qed.

Lemma filter_none {A} (P : A → Prop) `{∀ x, Decision (P x)} (l : list A) :
  (∀ x, x ∈ l → ¬ P x) → filter P l = [].
Proof.
  induction l as [|x l IH]; intros Hl; [done|].
  rewrite filter_cons_False by (apply Hl; by left).
  apply IH. intros y Hy. apply Hl. by right.
Qed.

(** C7, as the code has it.  Scan, delete what the scan found, scan
    again with the same parameters: when no [unlink] of the deletion
    failed, the second scan finds no duplicate group. *)
Theorem C7_rescan_after_delete_is_empty
    fs directory recursive min_size cb cb' t w :
  delete_duplicates fs (find_duplicates fs directory recursive min_size cb)
  = Ok (t, w) →
  no_failure (w_log w) →
  find_duplicates (w_fs w) directory recursive min_size cb' = [].
Proof.
  intros Hrun Hlog.
  pose proof (delete_loop_le _ _ _ Hrun) as Hle. simpl in Hle.
  assert (∀ p, p ∈ non_keepers
                 (find_duplicates fs directory recursive min_size cb) →
               fs_files (w_fs w) !! p = None) as Hgone.
  { apply (delete_loop_gone _ _ _ Hrun Hlog).
    - intros h keeper rest Hin. simpl.
      apply (file_digest_stat fs min_size keeper h).
      eapply find_duplicates_member_digest; [done|by left].
    - apply (keyed_keepers_apart (file_digest fs min_size)).
      + apply find_duplicates_keys_NoDup.
      + intros h paths p. apply find_duplicates_member_digest. }
  destruct (find_duplicates (w_fs w) directory recursive min_size cb')
    as [|[h paths'] l] eqn:Hscan; [done|]. exfalso.
  assert ((h, paths')
          ∈ find_duplicates (w_fs w) directory recursive min_size cb') as Hin
    by (rewrite Hscan; by left).
  apply find_duplicates_elem in Hin as [Hlen Hpaths'].
  rewrite (group_le _ fs) in Hpaths' by done.
  remember (filter (λ p, file_digest fs min_size p = Some h)
              (enumerated fs directory recursive)) as paths eqn:Hpaths.
  assert (1 < length paths)%nat as Hlen'.
  { rewrite Hpaths' in Hlen. pose proof (length_filter
      (λ p, is_Some (fs_files (w_fs w) !! p)) paths). lia. }
  assert ((h, paths) ∈ find_duplicates fs directory recursive min_size cb)
    as Hgroup by (by apply find_duplicates_elem).
  destruct paths as [|keeper rest]; [simpl in Hlen'; lia|].
  rewrite filter_cons, (filter_none _ rest) in Hpaths'.
  - rewrite Hpaths' in Hlen. case_decide; simpl in Hlen; lia.
  - intros p Hp [i Hi]. rewrite Hgone in Hi; [done|].
    by eapply non_keepers_elem.
Qed.

Lemma C7_witness :
  delete_duplicates fs_xxy (find_duplicates fs_xxy "/d" true 1 false)
  = Ok ({| deleted_count := 1; freed_space := 1 |},
        {| w_fs := fs_xxy_deduped; w_log := [Unlink "/d/b.txt" true] |})
  ∧ no_failure [Unlink "/d/b.txt" true]
  ∧ find_duplicates fs_xxy_deduped "/d" true 1 false = [].
Proof.
  assert (delete_duplicates fs_xxy (find_duplicates fs_xxy "/d" true 1 false)
          = Ok ({| deleted_count := 1; freed_space := 1 |},
                {| w_fs := fs_xxy_deduped;
                   w_log := [Unlink "/d/b.txt" true] |})) as Hrun
    by (vm_compute; reflexivity).
  assert (no_failure [Unlink "/d/b.txt" true]) as Hlog.
  { intros p Hp. apply list_elem_of_singleton in Hp. discriminate. }
  split_and!; [exact Hrun|exact Hlog|].
  exact (C7_rescan_after_delete_is_empty fs_xxy "/d" true 1 false false
           _ _ Hrun Hlog).
Defined.

(** C7 as stated fails: nothing is added between the operations, the
    deletion of [b.txt] fails, and the second scan finds the group of the
    first. *)
Lemma C7_counterexample :
  find_duplicates fs_undeletable "/d" true 1 false
  = [("02129bb861061d1a052c592e2dc6b383", ["/d/a.txt"; "/d/b.txt"])]
  ∧ delete_duplicates fs_undeletable
      (find_duplicates fs_undeletable "/d" true 1 false)
    = Ok (no_tally,
          {| w_fs := fs_undeletable;
             w_log := [Unlink "/d/b.txt" false;
                       Printed "Error deleting /d/b.txt"] |})
  ∧ find_duplicates fs_undeletable "/d" true 1 false ≠ [].
Proof.
  split_and!; [vm_compute; reflexivity..|].
  vm_compute. discriminate.
Qed.

Lemma hundreds_succ processed :
  0 ≤ processed →
  hundreds (processed + 1)
  = if (processed + 1) mod 100 =? 0
    then hundreds processed ++ [processed + 1]
    else hundreds processed.
Proof.
  intros Hp. unfold hundreds.
  destruct (Z.eqb_spec ((processed + 1) mod 100) 0) as [Hm|Hm].
  - assert ((processed + 1) / 100 = processed / 100 + 1) as ->
      by (Z.div_mod_to_equations; lia).
    assert (0 ≤ processed / 100) by (Z.div_mod_to_equations; lia).
    rewrite Z2Nat.inj_add, Nat.add_1_r, seq_S, map_app by lia.
    cbn [map Nat.add]. do 2 f_equal.
    rewrite Nat2Z.inj_succ, Z2Nat.id by done.
    Z.div_mod_to_equations. lia.
  - assert ((processed + 1) / 100 = processed / 100) as ->
      by (Z.div_mod_to_equations; lia).
    done.
Qed.

(** What C3 asks for holds on the runs in which every file that passes
    the size check can be read: the callback is called once per hundred
    hashed files, with the count of hashed files at that moment. *)
Lemma scan_cadence_without_read_errors fs min_size ps : ∀ st,
  (∀ p sz, p ∈ ps → stat fs p = Some sz → min_size ≤ sz →
           is_Some (open_rb fs p)) →
  0 ≤ processed_files st →
  (calls st).*1 = hundreds (processed_files st) →
  0 ≤ processed_files (fold_left (scan_filepath fs min_size true) ps st)
  ∧ (calls (fold_left (scan_filepath fs min_size true) ps st)).*1
    = hundreds (processed_files
                  (fold_left (scan_filepath fs min_size true) ps st)).
Proof.
  induction ps as [|p ps IH]; intros st Hread Hpos Hcalls; simpl; [done|].
  assert (∀ q sz, q ∈ ps → stat fs q = Some sz → min_size ≤ sz →
                  is_Some (open_rb fs q)) as Hread'
    by (intros q sz Hq; apply Hread; by right).
  apply IH; [done|..]; unfold scan_filepath;
    rewrite calculate_file_hash_default;
    destruct (stat fs p) as [sz|] eqn:Hs; try done;
    destruct (Z.ltb_spec sz min_size); try done;
    (destruct (Hread p sz) as [c ->]; [by left|done|lia|]);
    cbn [fmap option_fmap option_map]; rewrite md5_hex_truthy; simpl.
  - lia.
  - rewrite hundreds_succ by done.
    destruct ((processed_files st + 1) mod 100 =? 0); [|done].
    by rewrite fmap_app, Hcalls.
Qed.

Lemma progress_cadence_without_read_errors fs directory recursive min_size :
  (∀ p sz, p ∈ enumerated fs directory recursive →
           stat fs p = Some sz → min_size ≤ sz → is_Some (open_rb fs p)) →
  (progress_calls fs directory recursive min_size true).*1
  = hundreds (processed_files
                (find_duplicates_run fs directory recursive min_size true)).
Proof.
  intros Hread. unfold progress_calls. rewrite find_duplicates_run_fold.
  by apply scan_cadence_without_read_errors.
Qed.

(** ** The scenarios of the tests *)

Example scan_scenario_recursive :
  find_duplicates fs_scenario "/r" true 1 false
  = [ ("19389472c9b0eef5750186b22364b945",
       ["/r/dupe_root_0.txt"; "/r/dupe_root_1.txt"; "/r/dupe_root_2.txt"]);
      ("2d0f184d0ea1e0667df37f84028e20ce",
       ["/r/subdir/dupe_sub_0.txt"; "/r/subdir/dupe_sub_1.txt"]) ].
Proof. vm_compute. reflexivity. Qed.

Example scan_scenario_top_level :
  find_duplicates fs_scenario "/r" false 1 false
  = [ ("19389472c9b0eef5750186b22364b945",
       ["/r/dupe_root_0.txt"; "/r/dupe_root_1.txt"; "/r/dupe_root_2.txt"]) ].
Proof. vm_compute. reflexivity. Qed.

Example scan_scenario_min_size_1000 :
  find_duplicates fs_scenario "/r" true 1000 false = [].
Proof. vm_compute. reflexivity. Qed.

Example analyze_xxy :
  analyze_duplicates fs_xxy (find_duplicates fs_xxy "/d" true 1 false)
  = Ok (1, 1).
Proof. vm_compute. reflexivity. Qed.

Example scan_single_file :
  find_duplicates (fs_many 1) "/m" true 1 false = [].
Proof. vm_compute. reflexivity. Qed.

Example scan_empty_directory :
  find_duplicates (fs_many 0) "/m" true 1 false = []
  ∧ analyze_duplicates (fs_many 0) [] = Ok (0, 0).
Proof. split; vm_compute; reflexivity. Qed.

Example progress_99_files :
  progress_calls (fs_many 99) "/m" true 1 true = [].
Proof. vm_compute. reflexivity. Qed.

Example progress_150_files :
  progress_calls (fs_many 150) "/m" true 1 true = [(100, 100)].
Proof. vm_compute. reflexivity. Qed.

Example progress_200_files :
  progress_calls (fs_many 200) "/m" true 1 true = [(100, 100); (200, 200)].
Proof. vm_compute. reflexivity. Qed.

Example delete_analyze_fixture :
  ∃ w, delete_duplicates fs_analyze ds_analyze
       = Ok ({| deleted_count := 3; freed_space := 85 |}, w)
       ∧ attempts (w_log w)
         = ["/t/g1_1.txt"; "/t/g1_2.txt"; "/t/g2_1.txt"]
       ∧ is_Some (fs_files (w_fs w) !! "/t/g1_0.txt")
       ∧ is_Some (fs_files (w_fs w) !! "/t/g2_0.txt")
       ∧ fs_files (w_fs w) !! "/t/g1_1.txt" = None.
Proof.
  destruct (delete_loop_Ok ds_analyze
              (no_tally, {| w_fs := fs_analyze; w_log := [] |})) as [[t w] H].
  exists w. revert H. unfold delete_duplicates.
  vm_compute. intros [= <- <-]. split_and!; try reflexivity; by eexists.
Qed.

(** * The rest of the two modules *)

(** ** [format_size] *)

Example format_size_tests :
  map format_size
    [0; 500; 1023; 1024; 2048; 1536; 1048576; 3145728; 1073741824;
     2147483648; 1099511627776]
  = ["0.0 B"; "500.0 B"; "1023.0 B"; "1.0 KB"; "2.0 KB"; "1.5 KB"; "1.0 MB";
     "3.0 MB"; "1.0 GB"; "2.0 GB"; "1.0 TB"].
Proof. vm_compute. reflexivity. Qed.

(** Ties go to the even digit, and the top of a unit's range rounds up to
    1024.0 of that unit; values CPython prints the same way. *)
Example format_size_rounding :
  map format_size
    [1280; 1792; 1048524; 1048525; 1048575; 9007199254740991;
     1125899906842624]
  = ["1.2 KB"; "1.8 KB"; "1023.9 KB"; "1024.0 KB"; "1024.0 KB"; "8192.0 TB";
     "1024.0 TB"].
Proof. vm_compute. reflexivity. Qed.

(** ** [calculate_file_hash] *)

(** X1. The chunk size does not matter: for every positive chunk size
    [calculate_file_hash] returns [None] exactly when the file cannot be
    opened for reading, and otherwise the MD5 digest of the whole content. *)
Theorem hash_independent_of_chunk_size fs filepath chunk_size chunk_size' :
  (0 < chunk_size)%nat → (0 < chunk_size')%nat →
  calculate_file_hash fs filepath chunk_size
  = calculate_file_hash fs filepath chunk_size'
  ∧ (calculate_file_hash fs filepath chunk_size = None
     ↔ open_rb fs filepath = None)
  ∧ (∀ bs, open_rb fs filepath = Some bs →
           calculate_file_hash fs filepath chunk_size = Some (md5_hex bs)).
Proof.
  intros Hn Hm. rewrite !calculate_file_hash_chunked by done.
  split_and!; [done| |by intros bs ->].
  by destruct (open_rb fs filepath).
Qed.

Lemma hash_independent_of_chunk_size_witness :
  calculate_file_hash fs_xxy "/d/a.txt" 1
  = calculate_file_hash fs_xxy "/d/a.txt" 4096
  ∧ (calculate_file_hash fs_xxy "/d/a.txt" 1 = None
     ↔ open_rb fs_xxy "/d/a.txt" = None)
  ∧ (∀ bs, open_rb fs_xxy "/d/a.txt" = Some bs →
           calculate_file_hash fs_xxy "/d/a.txt" 1 = Some (md5_hex bs)).
Proof.
  apply (hash_independent_of_chunk_size fs_xxy "/d/a.txt" 1 4096); lia.
Defined.

Lemma feed_chunks_zero fuel f h : feed_chunks fuel 0 f h = h.
Proof. by destruct fuel. Qed.

(** X2. With [chunk_size = 0] the first [f.read(0)] is already [b''], the
    loop body never runs, and every file that opens hashes to the digest
    of the empty byte string, whatever it holds. *)
Theorem hash_with_chunk_size_zero fs filepath :
  calculate_file_hash fs filepath 0
  = (λ _, empty_digest) <$> open_rb fs filepath.
Proof.
  unfold calculate_file_hash. destruct (open_rb fs filepath) as [f|]; [|done].
  rewrite feed_chunks_zero, hexdigest_fed.
  change (MD5.fed MD5.new) with (@nil byte). rewrite md5_hex_nil.
  reflexivity.
Qed.

Lemma hexdigit_hex d : MD5.hexdigit d ∈ hex_chars.
Proof.
  unfold MD5.hexdigit, hex_chars. apply list_elem_of_In.
  destruct (nth_in_or_default (Z.to_nat d)
              (list_ascii_of_string "0123456789abcdef") "0"%char) as [H| ->];
    [done|].
  vm_compute. tauto.
Qed.

Lemma hex_word_hex w :
  Forall (λ c, c ∈ hex_chars) (list_ascii_of_string (MD5.hex_word w)).
Proof.
  unfold MD5.hex_word, MD5.hex_byte. cbn [append list_ascii_of_string].
  repeat (apply Forall_cons; split; [apply hexdigit_hex|]). constructor.
Qed.

Lemma list_ascii_of_string_app s1 s2 :
  list_ascii_of_string (s1 +:+ s2)
  = list_ascii_of_string s1 ++ list_ascii_of_string s2.
Proof. induction s1 as [|c s1 IH]; simpl; [done|]. by rewrite IH. Qed.

(** X3. A digest that [calculate_file_hash] returns is 32 characters long
    and made of the characters [0-9a-f], so it is never the empty string
    that [if file_hash:] would take for a failure. *)
Theorem hash_is_32_hex_digits fs filepath chunk_size h :
  (0 < chunk_size)%nat →
  calculate_file_hash fs filepath chunk_size = Some h →
  String.length h = 32%nat
  ∧ Forall (λ c, c ∈ hex_chars) (list_ascii_of_string h)
  ∧ truthy h = true.
Proof.
  intros Hn. rewrite calculate_file_hash_chunked by done.
  destruct (open_rb fs filepath) as [bs|]; [|done]. intros [= <-].
  split_and!; [apply md5_hex_length| |apply md5_hex_truthy].
  unfold md5_hex, MD5.hexdigest, MD5.hex_state.
  destruct (MD5.digest _) as [[[a b] c] d].
  rewrite !list_ascii_of_string_app, !Forall_app.
  split_and!; apply hex_word_hex.
Qed.

Lemma hash_is_32_hex_digits_witness :
  String.length "02129bb861061d1a052c592e2dc6b383" = 32%nat
  ∧ Forall (λ c, c ∈ hex_chars)
      (list_ascii_of_string "02129bb861061d1a052c592e2dc6b383")
  ∧ truthy "02129bb861061d1a052c592e2dc6b383" = true.
Proof.
  apply (hash_is_32_hex_digits fs_xxy "/d/a.txt" default_chunk_size).
  - unfold default_chunk_size. lia.
  - vm_compute. reflexivity.
Defined.

(** ** [find_duplicates] *)

Lemma fold_scan_counters fs min_size cb ps : ∀ st,
  total_files (fold_left (scan_filepath fs min_size cb) ps st)
  = total_files st + Z.of_nat (length ps)
  ∧ processed_files (fold_left (scan_filepath fs min_size cb) ps st)
    = processed_files st
      + Z.of_nat (length (filter (λ p, is_Some (file_digest fs min_size p)) ps)).
Proof.
  induction ps as [|p ps IH]; intros st; [simpl; lia|].
  cbn [fold_left]. destruct (IH (scan_filepath fs min_size cb st p)) as [-> ->].
  rewrite filter_cons. unfold scan_filepath, file_digest.
  rewrite calculate_file_hash_default.
  destruct (stat fs p) as [sz|];
    [|rewrite decide_False by (by intros [? ?]); simpl; lia].
  destruct (sz <? min_size);
    [rewrite decide_False by (by intros [? ?]); simpl; lia|].
  destruct (open_rb fs p) as [bs|]; cbn [fmap option_fmap option_map].
  - rewrite md5_hex_truthy, decide_True by done. simpl. lia.
  - rewrite decide_False by (by intros [? ?]). simpl. lia.
Qed.

(** X4. When the scan ends, [total_files] is the number of paths it
    visited and [processed_files] the number of those it hashed; so the
    second never exceeds the first, whatever was skipped. *)
Theorem scan_counters fs directory recursive min_size cb :
  total_files (find_duplicates_run fs directory recursive min_size cb)
  = Z.of_nat (length (enumerated fs directory recursive))
  ∧ processed_files (find_duplicates_run fs directory recursive min_size cb)
    = Z.of_nat (length (filter (λ p, is_Some (file_digest fs min_size p))
                          (enumerated fs directory recursive)))
  ∧ 0 ≤ processed_files (find_duplicates_run fs directory recursive min_size cb)
      ≤ total_files (find_duplicates_run fs directory recursive min_size cb).
Proof.
  rewrite find_duplicates_run_fold.
  destruct (fold_scan_counters fs min_size cb
              (enumerated fs directory recursive) scan_init) as [-> ->].
  pose proof (length_filter (λ p, is_Some (file_digest fs min_size p))
                (enumerated fs directory recursive)).
  simpl. lia.
Qed.

Lemma find_duplicates_member_file
    fs directory recursive min_size cb h paths p :
  (h, paths) ∈ find_duplicates fs directory recursive min_size cb →
  p ∈ paths →
  p ∈ enumerated fs directory recursive
  ∧ ∃ i, fs_files fs !! p = Some i
         ∧ stat_ok i = true ∧ readable i = true
         ∧ min_size ≤ Z.of_nat (length (content i))
         ∧ h = md5_hex (content i).
Proof.
  intros [_ Hpaths]%find_duplicates_elem Hp. rewrite Hpaths in Hp.
  apply list_elem_of_filter in Hp as [Hd Hp]. split; [done|].
  by apply file_digest_Some.
Qed.

Lemma find_duplicates_groups_apart
    fs directory recursive min_size cb h paths h' paths' p :
  (h, paths) ∈ find_duplicates fs directory recursive min_size cb →
  (h', paths') ∈ find_duplicates fs directory recursive min_size cb →
  p ∈ paths → p ∈ paths' → h' = h ∧ paths' = paths.
Proof.
  intros Hin Hin' Hp Hp'.
  pose proof (find_duplicates_member_digest _ _ _ _ _ _ _ _ Hin Hp) as Hd.
  pose proof (find_duplicates_member_digest _ _ _ _ _ _ _ _ Hin' Hp') as Hd'.
  assert (h' = h) as -> by congruence. split; [done|].
  apply find_duplicates_elem in Hin as [_ ->].
  apply find_duplicates_elem in Hin' as [_ ->]. done.
Qed.

(** X5. Every group of a scan result has at least two paths; each of them
    was visited and is filed under the group's digest, which is the MD5
    digest of a file that [stat] and [open] accept and that is at least
    [min_size] bytes long; no digest has two groups and no path is in two
    groups. *)
Theorem scan_result_well_formed fs directory recursive min_size cb h paths :
  (h, paths) ∈ find_duplicates fs directory recursive min_size cb →
  (2 ≤ length paths)%nat
  ∧ (∀ p, p ∈ paths →
       p ∈ enumerated fs directory recursive
       ∧ ∃ i, fs_files fs !! p = Some i
              ∧ stat_ok i = true ∧ readable i = true
              ∧ min_size ≤ Z.of_nat (length (content i))
              ∧ h = md5_hex (content i))
  ∧ (∀ h' paths' p,
       (h', paths') ∈ find_duplicates fs directory recursive min_size cb →
       p ∈ paths → p ∈ paths' → h' = h ∧ paths' = paths)
  ∧ (∀ paths',
       (h, paths') ∈ find_duplicates fs directory recursive min_size cb →
       paths' = paths).
Proof.
  intros Hin. pose proof Hin as [Hlen Hpaths]%find_duplicates_elem.
  split_and!; [lia| | |].
  - intros p Hp. by eapply find_duplicates_member_file.
  - intros h' paths' p Hin' Hp Hp'.
    by eapply find_duplicates_groups_apart.
  - intros paths' [_ ->]%find_duplicates_elem. done.
Qed.

Lemma scan_result_well_formed_witness :
  (2 ≤ length ["/d/a.txt"; "/d/b.txt"])%nat
  ∧ (∀ p, p ∈ ["/d/a.txt"; "/d/b.txt"] →
       p ∈ enumerated fs_xxy "/d" true
       ∧ ∃ i, fs_files fs_xxy !! p = Some i
              ∧ stat_ok i = true ∧ readable i = true
              ∧ 1 ≤ Z.of_nat (length (content i))
              ∧ "02129bb861061d1a052c592e2dc6b383" = md5_hex (content i))
  ∧ (∀ h' paths' p,
       (h', paths') ∈ find_duplicates fs_xxy "/d" true 1 false →
       p ∈ ["/d/a.txt"; "/d/b.txt"] → p ∈ paths' →
       h' = "02129bb861061d1a052c592e2dc6b383"
       ∧ paths' = ["/d/a.txt"; "/d/b.txt"])
  ∧ (∀ paths',
       ("02129bb861061d1a052c592e2dc6b383", paths')
       ∈ find_duplicates fs_xxy "/d" true 1 false →
       paths' = ["/d/a.txt"; "/d/b.txt"]).
Proof.
  apply (scan_result_well_formed fs_xxy "/d" true 1 false).
  vm_compute. constructor.
Defined.

Lemma enumerated_top_level_prefix fs directory :
  enumerated fs directory false `prefix_of` enumerated fs directory true.
Proof.
  unfold enumerated, walk_paths.
  destruct (os_walk fs directory) as [|entry walk]; simpl; [done|].
  rewrite app_nil_r. by apply prefix_app_r.
Qed.

(** X6. What the top-level scan finds, the recursive scan finds too: a
    group of the scan with [recursive = False] is the beginning of the
    group of the same digest in the scan with [recursive = True], so the
    two agree on the keeper. *)
Theorem top_level_scan_within_recursive fs directory min_size cb cb' h paths :
  (h, paths) ∈ find_duplicates fs directory false min_size cb →
  ∃ paths',
    (h, paths') ∈ find_duplicates fs directory true min_size cb'
    ∧ paths `prefix_of` paths'
    ∧ head paths' = head paths.
Proof.
  intros [Hlen ->]%find_duplicates_elem.
  destruct (enumerated_top_level_prefix fs directory) as [more Hmore].
  exists (filter (λ p, file_digest fs min_size p = Some h)
            (enumerated fs directory true)).
  rewrite Hmore, filter_app in *. split_and!.
  - apply find_duplicates_elem. rewrite Hmore, filter_app.
    split; [|done]. rewrite length_app. lia.
  - by apply prefix_app_r.
  - destruct (filter _ (enumerated fs directory false)); [simpl in Hlen; lia|].
    done.
Qed.

Lemma top_level_scan_within_recursive_witness :
  ∃ paths',
    ("19389472c9b0eef5750186b22364b945", paths')
    ∈ find_duplicates fs_scenario "/r" true 1 false
    ∧ ["/r/dupe_root_0.txt"; "/r/dupe_root_1.txt"; "/r/dupe_root_2.txt"]
      `prefix_of` paths'
    ∧ head paths'
      = head ["/r/dupe_root_0.txt"; "/r/dupe_root_1.txt"; "/r/dupe_root_2.txt"].
Proof.
  apply (top_level_scan_within_recursive fs_scenario "/r" 1 false false).
  vm_compute. constructor.
Defined.

Lemma file_digest_min_size fs min_size min_size' p h :
  min_size ≤ min_size' →
  file_digest fs min_size' p = Some h → file_digest fs min_size p = Some h.
Proof.
  intros Hle. rewrite !file_digest_Some.
  intros (i & ? & ? & ? & ? & ?). exists i. split_and!; [done..|lia|done].
Qed.

(** X7. Raising [min_size] only takes paths away: a group of the scan
    with the larger [min_size] is the group of the same digest of the scan
    with the smaller one, or an order-preserving part of it. *)
Theorem larger_min_size_finds_less
    fs directory recursive min_size min_size' cb cb' h paths :
  min_size ≤ min_size' →
  (h, paths) ∈ find_duplicates fs directory recursive min_size' cb →
  ∃ paths',
    (h, paths') ∈ find_duplicates fs directory recursive min_size cb'
    ∧ paths `sublist_of` paths'.
Proof.
  intros Hle [Hlen ->]%find_duplicates_elem.
  exists (filter (λ p, file_digest fs min_size p = Some h)
            (enumerated fs directory recursive)).
  assert (filter (λ p, file_digest fs min_size' p = Some h)
            (enumerated fs directory recursive)
          `sublist_of` filter (λ p, file_digest fs min_size p = Some h)
                         (enumerated fs directory recursive)) as Hsub.
  { rewrite <- (list_filter_filter_l _
                  (λ p, file_digest fs min_size p = Some h)).
    - apply sublist_filter.
    - intros p. by apply file_digest_min_size. }
  split; [|done]. apply find_duplicates_elem. split; [|done].
  apply sublist_length in Hsub. lia.
Qed.

Lemma larger_min_size_finds_less_witness :
  ∃ paths',
    ("e807f1fcf82d132f9bb018ca6738a19f", paths')
    ∈ find_duplicates fs_min_size "/t" true 0 false
    ∧ ["/t/small.txt"; "/t/small2.txt"] `sublist_of` paths'.
Proof.
  apply (larger_min_size_finds_less fs_min_size "/t" true 0 1 false false);
    [lia|].
  vm_compute. constructor.
Defined.

(** ** [analyze_duplicates] *)

Lemma analyze_loop_raises fs ds : ∀ total_space,
  (analyze_loop fs total_space ds = Raise IndexError ↔ ∃ h, (h, []) ∈ ds)
  ∧ ∀ e, analyze_loop fs total_space ds = Raise e → e = IndexError.
Proof.
  induction ds as [|[h paths] ds IH]; intros total_space; simpl.
  - split; [|done]. split; [done|]. by intros [h ?%elem_of_nil].
  - destruct paths as [|keeper rest]; simpl.
    + split; [|by intros e [= <-]]. split; [|done]. intros _. exists h. by left.
    + assert ((∃ h0, (h0, []) ∈ (h, keeper :: rest) :: ds)
              ↔ ∃ h0, (h0, []) ∈ ds) as ->.
      { split; intros [h0 Hin]; exists h0; [|by right].
        by apply elem_of_cons in Hin as [?|?]. }
      destruct (stat fs keeper); apply IH.
Qed.

Lemma analyze_duplicates_raises fs ds :
  (analyze_duplicates fs ds = Raise IndexError ↔ ∃ h, (h, []) ∈ ds)
  ∧ (∀ e, analyze_duplicates fs ds = Raise e → e = IndexError).
Proof.
  unfold analyze_duplicates.
  destruct (analyze_loop_raises fs ds 0) as [Hiff Hexn].
  split.
  - rewrite <- Hiff. destruct (analyze_loop fs 0 ds); [done|].
    split; by intros [= ->].
  - intros e. destruct (analyze_loop fs 0 ds) as [|e'] eqn:E; [done|].
    intros [= <-]. by apply Hexn.
Qed.

Lemma analyze_duplicates_Ok fs ds :
  (∀ h, (h, []) ∉ ds) →
  analyze_duplicates fs ds
  = Ok (Z.of_nat (length ds), reclaimable_bytes fs ds).
Proof.
  intros Hne. unfold analyze_duplicates. rewrite analyze_loop_sum; [done|].
  intros h paths Hin ->. by apply (Hne h).
Qed.

(** X8. [analyze_duplicates] fails exactly on a set with a group whose
    path list is empty, and then with the [IndexError] of [filepaths[0]]:
    nothing is returned for the other groups.  No other exception leaves
    it. *)
Theorem analyze_raises_iff_empty_group fs ds :
  (analyze_duplicates fs ds = Raise IndexError ↔ ∃ h, (h, []) ∈ ds)
  ∧ (∀ e, analyze_duplicates fs ds = Raise e → e = IndexError)
  ∧ ((∀ h, (h, []) ∉ ds) →
     analyze_duplicates fs ds
     = Ok (Z.of_nat (length ds), reclaimable_bytes fs ds)).
Proof.
  destruct (analyze_duplicates_raises fs ds) as [Hiff Hexn].
  split_and!; [done..|]. apply analyze_duplicates_Ok.
Qed.

(** ** [delete_duplicates] *)

Lemma successes_app log1 log2 :
  successes (log1 ++ log2) = successes log1 + successes log2.
Proof.
  induction log1 as [|[p [|]|line] log1 IH]; simpl; lia.
Qed.

Lemma stat_Some_le fs' fs p sz :
  fs_le fs' fs → stat fs' p = Some sz → stat fs p = Some sz.
Proof.
  intros Hle. unfold stat.
  destruct (fs_files fs' !! p) as [i|] eqn:Hp; [|done].
  by rewrite (fs_le_lookup _ _ _ _ Hle Hp).
Qed.

Lemma stat_nonneg fs p sz : stat fs p = Some sz → 0 ≤ sz.
Proof.
  unfold stat. destruct (fs_files fs !! p) as [i|]; [|done].
  destruct (stat_ok i); [|done]. intros [= <-]. lia.
Qed.

Lemma unlink_size fs p fs' :
  unlink fs p = Some fs' →
  size (fs_files fs) = S (size (fs_files fs')).
Proof.
  unfold unlink. destruct (fs_files fs !! p) as [i|] eqn:Hp; [|done].
  destruct (removable i); [|done]. intros [= <-]. simpl.
  rewrite map_size_delete, Hp.
  assert (size (fs_files fs) ≠ 0%nat); [|lia].
  apply map_size_non_empty_iff. intros Hempty.
  by rewrite Hempty, lookup_empty in Hp.
Qed.

(** The books of the inner loop: [s] unlinks succeeded. *)
Lemma fold_delete_tally file_size rest : ∀ t w,
  ∃ s, 0 ≤ s ≤ Z.of_nat (length rest)
    ∧ deleted_count (fold_left (delete_file file_size) rest (t, w)).1
      = deleted_count t + s
    ∧ freed_space (fold_left (delete_file file_size) rest (t, w)).1
      = freed_space t + file_size * s
    ∧ successes (w_log (fold_left (delete_file file_size) rest (t, w)).2)
      = successes (w_log w) + s
    ∧ Z.of_nat (size (fs_files (w_fs w)))
      = Z.of_nat (size (fs_files
                          (w_fs (fold_left (delete_file file_size) rest (t, w)).2)))
        + s
    ∧ (no_failure (w_log (fold_left (delete_file file_size) rest (t, w)).2) →
       s = Z.of_nat (length rest)).
Proof.
  induction rest as [|p rest IH]; intros t w.
  - exists 0. simpl. split_and!; lia.
  - cbn [fold_left].
    destruct (delete_file_cases file_size t w p) as [(fs' & Hu & ->)|[Hu ->]].
    + destruct (IH {| deleted_count := deleted_count t + 1;
                      freed_space := freed_space t + file_size |}
                   {| w_fs := fs'; w_log := w_log w ++ [Unlink p true] |})
        as (s & Hs & -> & -> & -> & Hsize & Hall).
      exists (1 + s). simpl in *. rewrite successes_app.
      apply unlink_size in Hu. simpl.
      split_and!; [lia..|]. intros Hlog. rewrite Hall by done. lia.
    + destruct (IH t {| w_fs := w_fs w;
                        w_log := w_log w
                                 ++ [Unlink p false;
                                     Printed ("Error deleting " +:+ p)] |})
        as (s & Hs & -> & -> & -> & Hsize & Hall).
      exists s. simpl in *. rewrite successes_app. simpl.
      split_and!; [lia..|]. intros Hlog. exfalso.
      destruct (fold_delete_log file_size rest
                  (t, {| w_fs := w_fs w;
                         w_log := w_log w
                                  ++ [Unlink p false;
                                      Printed ("Error deleting " +:+ p)] |}))
        as [more Hmore].
      rewrite Hmore in Hlog. simpl in Hlog. apply (Hlog p). set_solver.
Qed.

Lemma reclaimable_bytes_cons fs h paths ds :
  reclaimable_bytes fs ((h, paths) :: ds)
  = match head paths ≫= stat fs with
    | Some size_of_first_path =>
        size_of_first_path * (Z.of_nat (length paths) - 1)
        + reclaimable_bytes fs ds
    | None => reclaimable_bytes fs ds
    end.
Proof. done. Qed.

Lemma reclaimable_bytes_le fs' fs ds :
  fs_le fs' fs →
  0 ≤ reclaimable_bytes fs' ds ≤ reclaimable_bytes fs ds.
Proof.
  intros Hle. induction ds as [|[h paths] ds IH]; [done|].
  rewrite !reclaimable_bytes_cons. destruct paths as [|keeper rest]; [done|].
  cbn [head mbind option_bind].
  destruct (stat fs' keeper) as [sz|] eqn:Hk.
  - rewrite (stat_Some_le _ _ _ _ Hle Hk). apply stat_nonneg in Hk.
    simpl length. nia.
  - destruct (stat fs keeper) as [sz|] eqn:Hk'; [|done].
    apply stat_nonneg in Hk'. simpl length. nia.
Qed.

(** The books of the outer loop. *)
Lemma delete_loop_tally items : ∀ t w t' w',
  delete_loop (t, w) items = Ok (t', w') →
  ∃ s, 0 ≤ s ≤ Z.of_nat (length (non_keepers items))
    ∧ deleted_count t' = deleted_count t + s
    ∧ successes (w_log w') = successes (w_log w) + s
    ∧ Z.of_nat (size (fs_files (w_fs w)))
      = Z.of_nat (size (fs_files (w_fs w'))) + s
    ∧ freed_space t ≤ freed_space t'
      ≤ freed_space t + reclaimable_bytes (w_fs w) items.
Proof.
  induction items as [|[h filepaths] items IH]; intros t w t' w' Hloop.
  - injection Hloop as <- <-. exists 0. simpl. split_and!; lia.
  - rewrite delete_loop_cons in Hloop.
    rewrite non_keepers_cons, length_app, reclaimable_bytes_cons.
    assert (delete_loop (t, w) items = Ok (t', w') →
            0 ≤ match head filepaths ≫= stat (w_fs w) with
                | Some sz => sz * (Z.of_nat (length filepaths) - 1)
                | None => 0
                end →
            ∃ s, 0 ≤ s ≤ Z.of_nat (length (tail filepaths)
                                    + length (non_keepers items))
              ∧ deleted_count t' = deleted_count t + s
              ∧ successes (w_log w') = successes (w_log w) + s
              ∧ Z.of_nat (size (fs_files (w_fs w)))
                = Z.of_nat (size (fs_files (w_fs w'))) + s
              ∧ freed_space t ≤ freed_space t'
                ≤ freed_space t
                  + match head filepaths ≫= stat (w_fs w) with
                    | Some sz =>
                        sz * (Z.of_nat (length filepaths) - 1)
                        + reclaimable_bytes (w_fs w) items
                    | None => reclaimable_bytes (w_fs w) items
                    end) as Hskip.
    { intros (s & ? & ? & ? & ? & ?)%IH Hterm. exists s.
      split_and!; [lia..|]. destruct (head filepaths ≫= stat (w_fs w)); lia. }
    destruct filepaths as [|keeper rest]; [by apply Hskip|].
    cbn [head mbind option_bind tail] in *. simpl in Hloop.
    destruct (stat (w_fs w) keeper) as [file_size|] eqn:Hk;
      [|by apply Hskip].
    pose proof (stat_nonneg _ _ _ Hk) as Hsz.
    destruct (fold_delete_tally file_size rest t w)
      as (s1 & Hs1 & Hd1 & Hf1 & Hl1 & Hz1 & _).
    pose proof (fold_delete_le file_size rest (t, w)) as Hle. simpl in Hle.
    destruct (fold_left (delete_file file_size) rest (t, w)) as [t1 w1].
    simpl in *.
    apply IH in Hloop as (s2 & Hs2 & Hd2 & Hl2 & Hz2 & Hf2).
    pose proof (reclaimable_bytes_le _ _ items Hle).
    exists (s1 + s2). split_and!; [lia..|]. nia.
Qed.

Lemma fold_delete_entries file_size rest : ∀ acc,
  ∃ more,
    w_log (fold_left (delete_file file_size) rest acc).2 = w_log acc.2 ++ more
    ∧ ∀ p, fs_files (w_fs (fold_left (delete_file file_size) rest acc).2) !! p
           = None
           ↔ fs_files (w_fs acc.2) !! p = None ∨ Unlink p true ∈ more.
Proof.
  induction rest as [|q rest IH]; intros acc; cbn [fold_left].
  - exists []. split; [by rewrite app_nil_r|]. intros p. split; [by left|].
    by intros [?|?%elem_of_nil].
  - destruct (IH (delete_file file_size acc q)) as (more1 & -> & Hgone).
    destruct acc as [t w].
    destruct (delete_file_cases file_size t w q) as [(fs' & Hu & Hd)|[Hu Hd]];
      rewrite Hd in Hgone |- *; simpl in *.
    + exists (Unlink q true :: more1). split; [by rewrite <- app_assoc|].
      intros p. rewrite Hgone, (unlink_lookup _ _ _ p Hu), elem_of_cons.
      case_decide as Hqp; [subst; naive_solver|].
      split; [naive_solver|]. intros [?|[[= ->]|?]]; by eauto.
    + exists (Unlink q false :: Printed ("Error deleting " +:+ q) :: more1).
      split; [by rewrite <- app_assoc|].
      intros p. rewrite Hgone, !elem_of_cons. naive_solver.
Qed.

(** The entries that are gone after the loop are those that were not
    there and those on which an [unlink] succeeded. *)
Lemma delete_loop_entries items : ∀ acc acc',
  delete_loop acc items = Ok acc' →
  ∃ more,
    w_log acc'.2 = w_log acc.2 ++ more
    ∧ ∀ p, fs_files (w_fs acc'.2) !! p = None
           ↔ fs_files (w_fs acc.2) !! p = None ∨ Unlink p true ∈ more.
Proof.
  induction items as [|[h filepaths] items IH]; intros acc acc'.
  - intros [= <-]. exists []. split; [by rewrite app_nil_r|].
    intros p. split; [by left|]. by intros [?|?%elem_of_nil].
  - rewrite delete_loop_cons. destruct filepaths as [|keeper rest]; [apply IH|].
    destruct (stat (w_fs acc.2) keeper) as [file_size|]; [|apply IH].
    intros (more1 & -> & Hgone1)%IH.
    destruct (fold_delete_entries file_size rest acc) as (more0 & -> & Hgone0).
    exists (more0 ++ more1). split; [by rewrite app_assoc|].
    intros p. rewrite Hgone1, Hgone0, elem_of_app. naive_solver.
Qed.

(** X9. [deleted_count] is the number of [unlink] calls that succeeded,
    and it is the number of directory entries the file system lost: the
    paths that have no entry afterwards are those that had none before
    and those on which an [unlink] succeeded.  The directory tree is as
    it was. *)
Theorem delete_count_is_files_gone fs ds t w :
  delete_duplicates fs ds = Ok (t, w) →
  deleted_count t = successes (w_log w)
  ∧ Z.of_nat (size (fs_files fs))
    = Z.of_nat (size (fs_files (w_fs w))) + deleted_count t
  ∧ fs_tree (w_fs w) = fs_tree fs
  ∧ (∀ p, fs_files (w_fs w) !! p = None
          ↔ fs_files fs !! p = None ∨ Unlink p true ∈ w_log w).
Proof.
  intros Hrun. pose proof (delete_loop_le _ _ _ Hrun) as Hle.
  pose proof (delete_loop_entries _ _ _ Hrun) as (more & Hlog & Hgone).
  apply delete_loop_tally in Hrun as (s & _ & Hd & Hl & Hz & _).
  simpl in *. subst more. split_and!; [lia|lia|apply Hle|done].
Qed.

Lemma delete_count_is_files_gone_witness :
  deleted_count {| deleted_count := 1; freed_space := 1 |}
  = successes [Unlink "/d/b.txt" true]
  ∧ Z.of_nat (size (fs_files fs_xxy))
    = Z.of_nat (size (fs_files fs_xxy_deduped))
      + deleted_count {| deleted_count := 1; freed_space := 1 |}
  ∧ fs_tree fs_xxy_deduped = fs_tree fs_xxy
  ∧ (∀ p, fs_files fs_xxy_deduped !! p = None
          ↔ fs_files fs_xxy !! p = None
            ∨ Unlink p true ∈ [Unlink "/d/b.txt" true]).
Proof.
  apply (delete_count_is_files_gone fs_xxy
           (find_duplicates fs_xxy "/d" true 1 false)
           {| deleted_count := 1; freed_space := 1 |}
           {| w_fs := fs_xxy_deduped; w_log := [Unlink "/d/b.txt" true] |}).
  vm_compute. reflexivity.
Defined.

(** X10. [delete_duplicates] never reports more than [analyze_duplicates]
    announced for the same set on the same file system: the freed space
    is between 0 and the reclaimable space, and the number of deleted
    files is at most the number of paths at index 1 and above. *)
Theorem delete_within_analysis fs ds n total_space t w :
  analyze_duplicates fs ds = Ok (n, total_space) →
  delete_duplicates fs ds = Ok (t, w) →
  0 ≤ freed_space t ≤ total_space
  ∧ 0 ≤ deleted_count t ≤ Z.of_nat (length (non_keepers ds)).
Proof.
  intros Han Hrun.
  destruct (analyze_duplicates_raises fs ds) as [Hiff _].
  pose proof (analyze_duplicates_Ok fs ds) as Hok.
  rewrite Hok in Han.
  - injection Han as <- <-.
    apply delete_loop_tally in Hrun as (s & ? & ? & _ & _ & ?). simpl in *.
    lia.
  - intros h Hin. assert (analyze_duplicates fs ds = Raise IndexError) as Hr
      by (apply Hiff; by exists h).
    congruence.
Qed.

Lemma delete_within_analysis_witness :
  0 ≤ freed_space {| deleted_count := 3; freed_space := 85 |} ≤ 85
  ∧ 0 ≤ deleted_count {| deleted_count := 3; freed_space := 85 |}
      ≤ Z.of_nat (length (non_keepers ds_analyze)).
Proof.
  destruct (delete_loop_Ok ds_analyze
              (no_tally, {| w_fs := fs_analyze; w_log := [] |})) as [[t w] H].
  assert (t = {| deleted_count := 3; freed_space := 85 |}) as <-.
  { revert H. vm_compute. by intros [= <- <-]. }
  apply (delete_within_analysis fs_analyze ds_analyze 2 85 t w);
    [vm_compute; reflexivity|exact H].
Defined.

Lemma reclaimable_bytes_ext fs' fs ds :
  (∀ h keeper rest, (h, keeper :: rest) ∈ ds → stat fs' keeper = stat fs keeper) →
  reclaimable_bytes fs' ds = reclaimable_bytes fs ds.
Proof.
  induction ds as [|[h paths] ds IH]; intros Hstat; [done|].
  rewrite !reclaimable_bytes_cons, IH.
  - destruct paths as [|keeper rest]; [done|]. cbn [head mbind option_bind].
    rewrite (Hstat h keeper rest); [done|by left].
  - intros h' keeper rest Hin. apply (Hstat h' keeper rest). by right.
Qed.

(** When no unlink fails and no keeper is deleted before its group is
    reached, every path at index 1 and above is deleted and counted. *)
Lemma delete_loop_exact items : ∀ t w t' w',
  delete_loop (t, w) items = Ok (t', w') →
  no_failure (w_log w') →
  (∀ h keeper rest, (h, keeper :: rest) ∈ items →
     is_Some (stat (w_fs w) keeper)) →
  keepers_apart items →
  deleted_count t' = deleted_count t + Z.of_nat (length (non_keepers items))
  ∧ freed_space t' = freed_space t + reclaimable_bytes (w_fs w) items.
Proof.
  induction items as [|[h filepaths] items IH];
    intros t w t' w' Hloop Hlog Hstat Hapart.
  - injection Hloop as <- <-. simpl. lia.
  - rewrite delete_loop_cons in Hloop.
    rewrite non_keepers_cons, length_app, reclaimable_bytes_cons.
    destruct Hapart as [Hhead Hapart].
    destruct filepaths as [|keeper rest].
    { apply (IH t w t' w') in Hloop; [simpl; lia|done| |done].
      intros h' k' rest' Hin. apply (Hstat h' k' rest'). by right. }
    destruct (Hstat h keeper rest) as [file_size Hk]; [by left|].
    cbn [head mbind option_bind tail] in *. simpl in Hloop.
    rewrite Hk in Hloop |- *.
    destruct (fold_delete_tally file_size rest t w)
      as (s1 & Hs1 & Hd1 & Hf1 & _ & _ & Hall).
    pose proof (fold_delete_frame file_size rest (t, w)) as Hframe.
    destruct (fold_left (delete_file file_size) rest (t, w)) as [t1 w1].
    simpl in *.
    destruct (delete_loop_log _ _ _ Hloop) as [more Hmore]. simpl in Hmore.
    rewrite Hall in * by (rewrite Hmore in Hlog; by eapply no_failure_prefix).
    assert (∀ h' k' rest', (h', k' :: rest') ∈ items →
              stat (w_fs w1) k' = stat (w_fs w) k') as Hsame.
    { intros h' k' rest' Hin. apply stat_lookup, Hframe. by eapply Hhead. }
    apply IH in Hloop as [-> ->]; [|done| |done].
    + rewrite (reclaimable_bytes_ext (w_fs w1) (w_fs w)) by done.
      simpl length. lia.
    + intros h' k' rest' Hin. rewrite (Hsame h' k' rest') by done.
      apply (Hstat h' k' rest'). by right.
Qed.

Lemma dry_run_space_sum fs ds :
  (∀ h paths, (h, paths) ∈ ds → ∃ keeper rest,
     paths = keeper :: rest ∧ is_Some (stat fs keeper)) →
  dry_run_space fs ds = Ok (reclaimable_bytes fs ds).
Proof.
  induction ds as [|[h paths] ds IH]; intros Hds; [done|].
  destruct (Hds h paths) as (keeper & rest & -> & [sz Hk]); [by left|].
  rewrite reclaimable_bytes_cons. cbn [dry_run_space head mbind option_bind].
  rewrite Hk, IH; [done|].
  intros h' paths' Hin. apply (Hds h'). by right.
Qed.

Lemma scan_keepers_stat fs directory recursive min_size cb h paths :
  (h, paths) ∈ find_duplicates fs directory recursive min_size cb →
  ∃ keeper rest, paths = keeper :: rest ∧ is_Some (stat fs keeper).
Proof.
  intros Hin. pose proof Hin as [Hlen _]%find_duplicates_elem.
  destruct paths as [|keeper rest]; [simpl in Hlen; lia|].
  exists keeper, rest. split; [done|].
  apply (file_digest_stat fs min_size keeper h).
  eapply find_duplicates_member_digest; [done|by left].
Qed.

(** X11. On the result of a scan, when no [unlink] fails,
    [delete_duplicates] deletes every path at index 1 and above and frees
    exactly the space that [analyze_duplicates] and the sum of the dry
    run give for that result. *)
Theorem delete_frees_what_analysis_announced
    fs directory recursive min_size cb t w :
  delete_duplicates fs (find_duplicates fs directory recursive min_size cb)
  = Ok (t, w) →
  no_failure (w_log w) →
  deleted_count t
  = Z.of_nat (length (non_keepers
                        (find_duplicates fs directory recursive min_size cb)))
  ∧ analyze_duplicates fs (find_duplicates fs directory recursive min_size cb)
    = Ok (Z.of_nat (length (find_duplicates fs directory recursive min_size cb)),
          freed_space t)
  ∧ dry_run_space fs (find_duplicates fs directory recursive min_size cb)
    = Ok (freed_space t).
Proof.
  intros Hrun Hlog.
  apply delete_loop_exact in Hrun as [Hd Hf]; [|done| |].
  - simpl in *. rewrite Hd, Hf. split_and!; [lia| |].
    + rewrite (analyze_duplicates_Ok fs
                 (find_duplicates fs directory recursive min_size cb));
        [by rewrite Z.add_0_l|].
      intros h Hin. by destruct (scan_keepers_stat _ _ _ _ _ _ _ Hin)
        as (? & ? & ? & _).
    + rewrite dry_run_space_sum; [by rewrite Z.add_0_l|].
      intros h paths. apply scan_keepers_stat.
  - intros h keeper rest Hin. simpl.
    by destruct (scan_keepers_stat _ _ _ _ _ _ _ Hin) as (? & ? & [= <- <-] & ?).
  - apply (keyed_keepers_apart (file_digest fs min_size)).
    + apply find_duplicates_keys_NoDup.
    + intros h paths p. apply find_duplicates_member_digest.
Qed.

Lemma delete_frees_what_analysis_announced_witness :
  deleted_count {| deleted_count := 1; freed_space := 1 |}
  = Z.of_nat (length (non_keepers (find_duplicates fs_xxy "/d" true 1 false)))
  ∧ analyze_duplicates fs_xxy (find_duplicates fs_xxy "/d" true 1 false)
    = Ok (Z.of_nat (length (find_duplicates fs_xxy "/d" true 1 false)),
          freed_space {| deleted_count := 1; freed_space := 1 |})
  ∧ dry_run_space fs_xxy (find_duplicates fs_xxy "/d" true 1 false)
    = Ok (freed_space {| deleted_count := 1; freed_space := 1 |}).
Proof.
  apply (delete_frees_what_analysis_announced fs_xxy "/d" true 1 false
           {| deleted_count := 1; freed_space := 1 |}
           {| w_fs := fs_xxy_deduped; w_log := [Unlink "/d/b.txt" true] |}).
  - vm_compute. reflexivity.
  - intros p Hp. apply list_elem_of_singleton in Hp. discriminate.
Defined.

(** ** [format_size] *)

Lemma append_assoc_string (s1 s2 s3 : string) :
  (s1 +:+ s2) +:+ s3 = s1 +:+ s2 +:+ s3.
Proof.
  induction s1 as [|c s1 IH]; [done|].
  change (String c ((s1 +:+ s2) +:+ s3) = String c (s1 +:+ s2 +:+ s3)).
  by rewrite IH.
Qed.

Lemma round_half_even_whole c den :
  0 < den → round_half_even (c * den) den = c.
Proof.
  intros Hden. unfold round_half_even.
  rewrite Z.div_mul, Z.mod_mul by lia.
  destruct (Z.ltb_spec den (2 * 0)); [lia|].
  destruct (Z.eqb_spec (2 * 0) den); [lia|]. done.
Qed.

Lemma format_1f_whole num den c :
  0 < den → num = c * den → format_1f num den = pretty c +:+ ".0".
Proof.
  intros Hden ->. unfold format_1f.
  replace (10 * (c * den)) with ((10 * c) * den) by lia.
  rewrite round_half_even_whole by done.
  replace (10 * c) with (c * 10) by lia.
  rewrite Z.div_mul, Z.mod_mul by lia. done.
Qed.

(** Walks down the tests of [format_size_loop] to the one that holds. *)
Ltac pick_unit :=
  repeat match goal with
         | |- context [if ?a <? ?b then _ else _] =>
             destruct (Z.ltb_spec a b); [try lia|try lia]; cbv iota
         end.

(** X12. A whole number [c] of a unit is printed as [c.0] with that unit:
    bytes below 1024 as [B], and [c] times 1024, 1024^2, 1024^3 for
    [c < 1024] as [KB], [MB], [GB]; from 1024^4 on the unit is [TB], and
    stays [TB] for 1024 of them and more (shown up to 8191, where the
    float division is still exact). *)
Theorem format_size_whole_units c :
  1 ≤ c < 8192 →
  format_size (c * 1099511627776) = pretty c +:+ ".0 TB"
  ∧ (c < 1024 →
     format_size c = pretty c +:+ ".0 B"
     ∧ format_size (c * 1024) = pretty c +:+ ".0 KB"
     ∧ format_size (c * 1048576) = pretty c +:+ ".0 MB"
     ∧ format_size (c * 1073741824) = pretty c +:+ ".0 GB").
Proof.
  intros Hc. unfold format_size, format_size_loop.
  split; [|intros Hc'; split_and!]; pick_unit;
    rewrite (format_1f_whole _ _ c) by lia;
    by rewrite append_assoc_string.
Qed.

Lemma format_size_whole_units_witness :
  format_size (3 * 1099511627776) = pretty 3 +:+ ".0 TB"
  ∧ (3 < 1024 →
     format_size 3 = pretty 3 +:+ ".0 B"
     ∧ format_size (3 * 1024) = pretty 3 +:+ ".0 KB"
     ∧ format_size (3 * 1048576) = pretty 3 +:+ ".0 MB"
     ∧ format_size (3 * 1073741824) = pretty 3 +:+ ".0 GB").
Proof. apply (format_size_whole_units 3). lia. Defined.

Lemma round_half_even_top num den :
  0 < den → 20479 * den ≤ 20 * num → num < 1024 * den →
  round_half_even (10 * num) den = 10240.
Proof.
  intros Hden Hlo Hhi. unfold round_half_even.
  assert (10 * num / den = 10239) as Hq
    by (symmetry; apply (Z.div_unique _ _ _ (10 * num - 10239 * den)); lia).
  assert ((10 * num) mod den = 10 * num - 10239 * den) as Hr
    by (symmetry; apply (Z.mod_unique _ _ 10239); lia).
  rewrite Hq, Hr.
  destruct (Z.ltb_spec den (2 * (10 * num - 10239 * den))); [done|].
  destruct (Z.eqb_spec (2 * (10 * num - 10239 * den)) den); [done|lia].
Qed.

(** X13. Just below the next unit the number is rounded up to 1024.0 and
    the unit is not changed: a size within a twentieth of a unit below
    1024 of it is printed as [1024.0 KB], [1024.0 MB] or [1024.0 GB]. *)
Theorem format_size_prints_1024 n den unit :
  (den, unit) ∈ [(1024, "KB"); (1048576, "MB"); (1073741824, "GB")] →
  20479 * den ≤ 20 * n → n < 1024 * den →
  format_size n = "1024.0 " +:+ unit.
Proof.
  intros Hunit Hlo Hhi.
  assert (format_1f n den = "1024.0") as H1024.
  { unfold format_1f. rewrite round_half_even_top by (set_solver || lia).
    reflexivity. }
  unfold format_size, format_size_loop.
  repeat (apply elem_of_cons in Hunit as [[= -> ->]|Hunit];
          [pick_unit;
           match goal with
           | |- context [format_1f ?m ?d] =>
               replace (format_1f m d) with "1024.0"
                 by (rewrite <- H1024; f_equal; lia)
           end; reflexivity|]).
  by apply elem_of_nil in Hunit.
Qed.

Lemma format_size_prints_1024_witness :
  format_size 1048575 = "1024.0 " +:+ "KB".
Proof.
  apply (format_size_prints_1024 1048575 1024 "KB"); [|lia..].
  constructor.
Defined.

(** ** [get_duplicates_report] *)

Lemma report_loop_lines fs show_size items : ∀ i report_lines,
  (∀ h, (h, []) ∉ items) →
  report_loop fs show_size i items report_lines
  = Ok (report_lines
        ++ concat (imap (λ j, listed_lines fs show_size (i + j)) items)).
Proof.
  induction items as [|[h paths] items IH]; intros i report_lines Hne.
  - simpl. by rewrite app_nil_r.
  - rewrite imap_cons. cbn [report_loop concat].
    assert (imap ((λ j, listed_lines fs show_size (i + j)) ∘ S) items
            = imap (λ j, listed_lines fs show_size (S i + j)) items) as ->.
    { apply imap_ext. intros j g _. simpl. f_equal. lia. }
    assert (∀ h0, (h0, []) ∉ items) as Hne'
      by (intros h0 Hin; apply (Hne h0); by right).
    unfold listed_lines at 1. cbn [fst snd]. rewrite Nat.add_0_r.
    destruct paths as [|keeper rest]; [by destruct (Hne h); left|].
    unfold group_lines.
    destruct (stat fs keeper) as [file_size|].
    + rewrite IH by done. f_equal. by rewrite <- app_assoc.
    + by rewrite IH.
Qed.

(** X14. [get_duplicates_report] answers an empty set with the line
    "No duplicate files found!"; on any other set it fails exactly when
    some group has an empty path list, with the [IndexError] that
    [analyze_duplicates] lets through, and no other exception leaves it. *)
Theorem report_raises_iff_empty_group fs ds show_size :
  get_duplicates_report fs [] show_size
  = Ok ("No duplicate files found!" +:+ nl)
  ∧ (get_duplicates_report fs ds show_size = Raise IndexError
     ↔ ∃ h, (h, []) ∈ ds)
  ∧ (∀ e, get_duplicates_report fs ds show_size = Raise e → e = IndexError).
Proof.
  split; [done|].
  destruct ds as [|g ds].
  { split; [|done]. split; [done|]. by intros [h ?%elem_of_nil]. }
  destruct (analyze_duplicates_raises fs (g :: ds)) as [Hiff Hexn].
  pose proof (analyze_duplicates_Ok fs (g :: ds)) as Hok.
  unfold get_duplicates_report.
  destruct (analyze_duplicates fs (g :: ds)) as [[n total]|e] eqn:Han.
  - assert (∀ h, (h, []) ∉ g :: ds) as Hne.
    { intros h Hin. assert (Ok (n, total) = @Raise (Z * Z) IndexError) as Heq
        by (apply Hiff; by exists h).
      discriminate. }
    rewrite report_loop_lines by done.
    split; [|done]. split; [done|]. intros [h Hin]. by destruct (Hne h).
  - pose proof (Hexn e eq_refl) as ->. split; [|by intros e [= <-]].
    split; [|done]. intros _. by apply Hiff.
Qed.

Lemma scan_reclaimable_positive fs directory recursive min_size cb :
  1 ≤ min_size →
  find_duplicates fs directory recursive min_size cb ≠ [] →
  0 < reclaimable_bytes fs (find_duplicates fs directory recursive min_size cb).
Proof.
  intros Hmin Hne.
  destruct (find_duplicates fs directory recursive min_size cb)
    as [|[h paths] ds] eqn:Hscan; [done|].
  assert ((h, paths) ∈ find_duplicates fs directory recursive min_size cb)
    as Hin by (rewrite Hscan; by left).
  pose proof Hin as [Hlen _]%find_duplicates_elem.
  destruct paths as [|keeper rest]; [simpl in Hlen; lia|].
  assert (file_digest fs min_size keeper = Some h) as Hd
    by (eapply find_duplicates_member_digest; [done|by left]).
  apply file_digest_Some in Hd as (i & Hi & Hs & _ & Hsz & _).
  rewrite reclaimable_bytes_cons. cbn [head mbind option_bind].
  unfold stat at 1. rewrite Hi, Hs.
  pose proof (reclaimable_bytes_le fs fs ds (fs_le_refl fs)).
  simpl length in *. nia.
Qed.

(** X15. The report of a scan made with [min_size >= 1] that found
    something is produced without an error; its first line counts the
    groups, its last line is the total reclaimable space, which is
    positive, and in between every path of every group has its line,
    marked [KEEP] at index 0 and [DUPLICATE] elsewhere. *)
Theorem report_of_scan fs directory recursive min_size cb show_size :
  1 ≤ min_size →
  find_duplicates fs directory recursive min_size cb ≠ [] →
  ∃ lines,
    get_duplicates_report fs
      (find_duplicates fs directory recursive min_size cb) show_size
    = Ok (String.concat nl
            ([ "Found "
                 +:+ pretty (Z.of_nat
                               (length (find_duplicates fs directory recursive
                                          min_size cb)))
                 +:+ " sets of duplicates:";
               dashes 60 ]
             ++ lines
             ++ [ nl +:+ "Total reclaimable space: "
                    +:+ format_size
                          (reclaimable_bytes fs
                             (find_duplicates fs directory recursive
                                min_size cb)) ]))
    ∧ 0 < reclaimable_bytes fs
            (find_duplicates fs directory recursive min_size cb)
    ∧ ∀ h paths j p,
        (h, paths) ∈ find_duplicates fs directory recursive min_size cb →
        paths !! j = Some p →
        path_line j p ∈ lines.
Proof.
  intros Hmin Hne.
  pose proof (scan_reclaimable_positive _ _ _ _ cb Hmin Hne) as Hpos.
  assert (∀ h, (h, []) ∉ find_duplicates fs directory recursive min_size cb)
    as Hgroups.
  { intros h Hin.
    by destruct (scan_keepers_stat _ _ _ _ _ _ _ Hin) as (? & ? & ? & _). }
  exists (concat (imap (λ j, listed_lines fs show_size (1 + j))
                    (find_duplicates fs directory recursive min_size cb))).
  split_and!; [|done|].
  - unfold get_duplicates_report.
    rewrite (analyze_duplicates_Ok fs
               (find_duplicates fs directory recursive min_size cb)); [|done].
    rewrite report_loop_lines by done.
    destruct (find_duplicates fs directory recursive min_size cb)
      as [|g ds] eqn:Hscan; [done|].
    destruct (Z.ltb_spec 0 (reclaimable_bytes fs (g :: ds))); [|lia].
    by rewrite <- app_assoc.
  - intros h paths j p Hin Hj.
    destruct (scan_keepers_stat _ _ _ _ _ _ _ Hin)
      as (keeper & rest & -> & [sz Hk]).
    apply list_elem_of_lookup in Hin as [idx Hidx].
    apply list_elem_of_In, in_concat.
    exists (listed_lines fs show_size (1 + idx) (h, keeper :: rest)).
    split; apply list_elem_of_In.
    + by apply (elem_of_lookup_imap_2
                  (λ j, listed_lines fs show_size (1 + j))).
    + unfold listed_lines, group_lines. cbn [fst snd]. rewrite Hk.
      do 2 apply list_elem_of_further.
      by apply (elem_of_lookup_imap_2 path_line).
Qed.

Lemma report_of_scan_witness :
  ∃ lines,
    get_duplicates_report fs_xxy (find_duplicates fs_xxy "/d" true 1 false) true
    = Ok (String.concat nl
            ([ "Found "
                 +:+ pretty (Z.of_nat
                               (length (find_duplicates fs_xxy "/d" true 1 false)))
                 +:+ " sets of duplicates:";
               dashes 60 ]
             ++ lines
             ++ [ nl +:+ "Total reclaimable space: "
                    +:+ format_size
                          (reclaimable_bytes fs_xxy
                             (find_duplicates fs_xxy "/d" true 1 false)) ]))
    ∧ 0 < reclaimable_bytes fs_xxy (find_duplicates fs_xxy "/d" true 1 false)
    ∧ ∀ h paths j p,
        (h, paths) ∈ find_duplicates fs_xxy "/d" true 1 false →
        paths !! j = Some p →
        path_line j p ∈ lines.
Proof.
  apply (report_of_scan fs_xxy "/d" true 1 false true); [lia|].
  vm_compute. discriminate.
Defined.

Example report_xxy :
  get_duplicates_report fs_xxy (find_duplicates fs_xxy "/d" true 1 false) true
  = Ok (String.concat nl
          [ "Found 1 sets of duplicates:";
            "------------------------------------------------------------";
            nl +:+ "Set 1 - Hash: 02129bb8... (1.0 B)";
            "Files:";
            "  [KEEP]    /d/a.txt";
            "  [DUPLICATE] /d/b.txt";
            nl +:+ "Total reclaimable space: 1.0 B" ]).
Proof. vm_compute. reflexivity. Qed.

(** With [min_size = 0] and only zero-byte duplicates nothing can be
    reclaimed, and the report has no total line. *)
Example report_zero_byte_duplicates :
  get_duplicates_report fs_min_size
    [(empty_digest, ["/t/empty.txt"; "/t/empty2.txt"])] false
  = Ok (String.concat nl
          [ "Found 1 sets of duplicates:";
            "------------------------------------------------------------";
            nl +:+ "Set 1 - Hash: d41d8cd9...";
            "Files:";
            "  [KEEP]    /t/empty.txt";
            "  [DUPLICATE] /t/empty2.txt" ]).
Proof. vm_compute. reflexivity. Qed.

(** A group whose first path is gone is counted in the first line, is
    left out of the listing, and uses up its number. *)
Example report_skips_unreadable_group :
  get_duplicates_report fs_xxy
    [ ("aaaaaaaaaaaa", ["/d/gone.txt"; "/d/c.txt"]);
      ("02129bb861061d1a052c592e2dc6b383", ["/d/a.txt"; "/d/b.txt"]) ] false
  = Ok (String.concat nl
          [ "Found 2 sets of duplicates:";
            "------------------------------------------------------------";
            nl +:+ "Set 2 - Hash: 02129bb8...";
            "Files:";
            "  [KEEP]    /d/a.txt";
            "  [DUPLICATE] /d/b.txt";
            nl +:+ "Total reclaimable space: 1.0 B" ]).
Proof. vm_compute. reflexivity. Qed.

(** ** [main] *)

Lemma scan_no_empty_group fs directory recursive min_size cb h :
  (h, []) ∉ find_duplicates fs directory recursive min_size cb.
Proof.
  intros Hin.
  by destruct (scan_keepers_stat _ _ _ _ _ _ _ Hin) as (? & ? & ? & _).
Qed.

Lemma report_of_scan_Ok fs directory recursive min_size cb show_size :
  ∃ report,
    get_duplicates_report fs
      (find_duplicates fs directory recursive min_size cb) show_size
    = Ok report.
Proof.
  pose proof (scan_no_empty_group fs directory recursive min_size cb) as Hne.
  unfold get_duplicates_report.
  rewrite (analyze_duplicates_Ok fs
             (find_duplicates fs directory recursive min_size cb)) by done.
  rewrite report_loop_lines by done.
  destruct (find_duplicates fs directory recursive min_size cb); by eexists.
Qed.

Lemma dry_run_space_of_scan fs directory recursive min_size cb :
  dry_run_space fs (find_duplicates fs directory recursive min_size cb)
  = Ok (reclaimable_bytes fs
          (find_duplicates fs directory recursive min_size cb)).
Proof.
  apply dry_run_space_sum. intros h paths. apply scan_keepers_stat.
Qed.

Lemma validate_args_Ok fs a :
  validate_args fs a = Ok tt
  ↔ isdir fs (directory a) = true
    ∧ (delete_flag a && dry_run a) = false
    ∧ 0 ≤ min_size a.
Proof.
  unfold validate_args.
  destruct (isdir fs (directory a)); simpl; [|naive_solver].
  destruct (delete_flag a && dry_run a); [naive_solver|].
  destruct (Z.ltb_spec (min_size a) 0); [|naive_solver].
  split; [done|]. intros (_ & _ & ?). lia.
Qed.

Lemma validate_args_cases fs a :
  validate_args fs a = Ok tt
  ∨ ∃ msg, validate_args fs a = Raise (ValueError msg).
Proof.
  unfold validate_args.
  destruct (negb (isdir fs (directory a))); [right; by eexists|].
  destruct (delete_flag a && dry_run a); [right; by eexists|].
  destruct (min_size a <? 0); [right; by eexists|by left].
Qed.

Lemma fold_scan_no_callback fs min_size ps : ∀ st,
  calls (fold_left (scan_filepath fs min_size false) ps st) = calls st.
Proof.
  induction ps as [|p ps IH]; intros st; [done|].
  cbn [fold_left]. rewrite IH. unfold scan_filepath.
  destruct (stat fs p) as [sz|]; [|done].
  destruct (sz <? min_size); [done|].
  by destruct (calculate_file_hash fs p default_chunk_size) as [h|];
    [destruct (truthy h)|].
Qed.

(** *** The walk and the recursion limit *)

Lemma dirtree_subdirs_ind (P : dirtree → Prop) :
  (∀ root listable names subdirs,
     Forall P subdirs → P (Dir root listable names subdirs)) →
  ∀ t, P t.
Proof.
  intros Hdir. fix IH 1. intros [root listable names subdirs].
  apply Hdir. induction subdirs as [|t ts IHts]; constructor; [apply IH|done].
Qed.

Lemma walk_tree_within_Dir depth root listable names subdirs :
  walk_tree_within depth (Dir root listable names subdirs)
  = if listable then
      match subdirs, depth with
      | [], _ => ([(root, map dir_root subdirs, names)], false)
      | _ :: _, O => ([(root, map dir_root subdirs, names)], true)
      | _ :: _, S depth' =>
          ((root, map dir_root subdirs, names)
             :: (walk_until (walk_tree_within depth') subdirs).1,
           (walk_until (walk_tree_within depth') subdirs).2)
      end
    else ([], false).
Proof. by destruct listable, subdirs, depth. Qed.

Lemma walk_until_complete depth ts :
  Forall (λ t, ∀ depth, (walk_tree_within depth t).2 = false →
                        (walk_tree_within depth t).1 = walk_tree t) ts →
  (walk_until (walk_tree_within depth) ts).2 = false →
  (walk_until (walk_tree_within depth) ts).1 = flat_map walk_tree ts.
Proof.
  induction 1 as [|t ts Ht _ IH]; [done|]. cbn [walk_until flat_map].
  specialize (Ht depth).
  destruct (walk_tree_within depth t) as [yielded [|]]; [done|].
  destruct (walk_until (walk_tree_within depth) ts) as [yielded' overflow].
  simpl in *. intros ->. by rewrite Ht, IH.
Qed.

(** A walk that does not reach the limit yields what [os.walk] yields. *)
Lemma walk_tree_within_complete t : ∀ depth,
  (walk_tree_within depth t).2 = false →
  (walk_tree_within depth t).1 = walk_tree t.
Proof.
  induction t as [root listable names subdirs IH] using dirtree_subdirs_ind.
  intros depth. rewrite walk_tree_within_Dir. cbn [walk_tree].
  destruct listable; [|done].
  destruct subdirs as [|t ts]; [done|]. destruct depth as [|depth]; [done|].
  cbn [fst snd]. intros Hover. by rewrite walk_until_complete.
Qed.

Lemma walk_until_height depth ts :
  Forall (λ t, ∀ depth, (tree_height t ≤ depth)%nat →
                        (walk_tree_within depth t).2 = false) ts →
  Forall (λ t, (tree_height t ≤ depth)%nat) ts →
  (walk_until (walk_tree_within depth) ts).2 = false.
Proof.
  induction 1 as [|t ts Ht _ IH]; [done|].
  intros [Hle Hles]%Forall_cons. cbn [walk_until].
  specialize (Ht depth Hle). specialize (IH Hles).
  destruct (walk_tree_within depth t) as [yielded [|]]; [done|].
  by destruct (walk_until (walk_tree_within depth) ts) as [yielded' overflow].
Qed.

(** A tree with no more levels than the limit leaves room for is walked
    to its end. *)
Lemma walk_tree_within_height t : ∀ depth,
  (tree_height t ≤ depth)%nat → (walk_tree_within depth t).2 = false.
Proof.
  induction t as [root listable names subdirs IH] using dirtree_subdirs_ind.
  intros depth. rewrite walk_tree_within_Dir. cbn [tree_height].
  destruct listable; [|done].
  destruct subdirs as [|t ts]; [done|].
  destruct depth as [|depth]; [lia|]. intros Hle. cbn [snd].
  apply walk_until_height; [done|].
  apply Forall_forall. intros t' Hin.
  assert (list_max (map tree_height (t :: ts)) ≤ depth)%nat as Hmax by lia.
  apply list_max_le in Hmax. rewrite List.Forall_forall in Hmax.
  apply Hmax, in_map. by apply list_elem_of_In.
Qed.

Lemma os_walk_within_complete walk_depth fs directory :
  (os_walk_within walk_depth fs directory).2 = false →
  (os_walk_within walk_depth fs directory).1 = os_walk fs directory.
Proof.
  unfold os_walk_within, os_walk.
  destruct (find_dir directory (fs_tree fs)) as [t|]; [|done].
  destruct walk_depth as [depth|]; [|done].
  pose proof (walk_tree_within_complete t depth) as Hfull.
  destruct (walk_tree_within depth t) as [yielded overflow]. simpl in *.
  intros ->. by rewrite Hfull.
Qed.

Lemma walk_overflows_false walk_depth fs directory recursive :
  walk_depth = None ∨ recursive = false
  ∨ (∃ depth t, walk_depth = Some depth
                ∧ find_dir directory (fs_tree fs) = Some t
                ∧ (tree_height t ≤ depth)%nat) →
  walk_overflows walk_depth fs directory recursive = false.
Proof.
  unfold walk_overflows, os_walk_within.
  intros [->|[->|(depth & t & -> & -> & Hle)]]; [|done|].
  - destruct (find_dir directory (fs_tree fs)); apply andb_false_r.
  - apply walk_tree_within_height in Hle.
    destruct (walk_tree_within depth t) as [yielded overflow].
    simpl in *. subst. apply andb_false_r.
Qed.

(** *** The ways through [main] *)

Lemma main_invalid walk_depth stdout_error fs a msg :
  validate_args fs a = Raise (ValueError msg) →
  main walk_depth stdout_error fs a
  = {| ended := Exit 1; stdout := [];
       stderr := ["Error: " +:+ msg +:+ nl]; final_fs := fs |}.
Proof. intros Hv. unfold main. by rewrite Hv. Qed.

Lemma main_overflow walk_depth stdout_error fs a :
  validate_args fs a = Ok tt →
  walk_overflows walk_depth fs (directory a) (recursive a) = true →
  ∃ before,
    main walk_depth stdout_error fs a
    = {| ended := Exit 1; stdout := [];
         stderr := before ++ [nl +:+ "Error: " +:+ recursion_error +:+ nl];
         final_fs := fs |}
    ∧ (quiet a = true → before = []).
Proof.
  intros Hv Hover. unfold main. rewrite Hv, Hover.
  eexists. split; [by rewrite app_assoc|].
  intros ->. cbn [negb app].
  by rewrite scan_walk_fold, fold_scan_no_callback.
Qed.

Lemma main_refused walk_depth stdout_error fs a report msg :
  validate_args fs a = Ok tt →
  walk_overflows walk_depth fs (directory a) (recursive a) = false →
  get_duplicates_report fs
    (find_duplicates fs (directory a) (recursive a) (min_size a)
       (negb (quiet a))) (show_size a)
  = Ok report →
  stdout_error report = Some msg →
  ∃ before,
    main walk_depth stdout_error fs a
    = {| ended := Exit 1; stdout := [];
         stderr := before ++ [nl +:+ "Error: " +:+ msg +:+ nl];
         final_fs := fs |}
    ∧ (quiet a = true → before = []).
Proof.
  intros Hv Hover Hr Hmsg. unfold main. rewrite Hv, Hover, Hr, Hmsg.
  eexists. split; [done|].
  intros ->. cbn [negb app].
  by rewrite find_duplicates_run_fold, fold_scan_no_callback.
Qed.

Lemma main_printed walk_depth stdout_error fs a report :
  validate_args fs a = Ok tt →
  walk_overflows walk_depth fs (directory a) (recursive a) = false →
  get_duplicates_report fs
    (find_duplicates fs (directory a) (recursive a) (min_size a)
       (negb (quiet a))) (show_size a)
  = Ok report →
  stdout_error report = None →
  ended (main walk_depth stdout_error fs a) = Returned.
Proof.
  intros Hv Hover Hr Hnone. unfold main. rewrite Hv, Hover, Hr, Hnone.
  destruct (dry_run a); [by rewrite dry_run_space_of_scan|].
  destruct (delete_flag a && negb (bool_decide _)); [|done].
  destruct (delete_loop_Ok
              (find_duplicates fs (directory a) (recursive a) (min_size a)
                 (negb (quiet a)))
              (no_tally, {| w_fs := fs; w_log := [] |})) as [[t w] Hd].
  unfold delete_duplicates. fold no_tally. by rewrite Hd.
Qed.

(** X16. [main] never lets an exception through.  It returns normally
    exactly when the arguments pass [validate_args], the scan does not
    reach the recursion limit and [print(report)] does not fail: the
    report, the dry-run sum and the deletion never reach the handler
    [except Exception].  In every other case it exits with status 1,
    with nothing on [stdout] and the file system as it was: before
    anything is scanned and with one line on [stderr] when the arguments
    do not pass, a root that is not a directory being the first thing
    reported; with the line of the [RecursionError] last on [stderr]
    when the scan reaches the limit; with the line of the error of
    [print(report)] last on [stderr] when the report cannot be printed.
    The limit is not reached when [os.walk] does not recurse, when the
    scan is not recursive, or when the tree has no more levels than the
    limit leaves room for. *)
Theorem main_exit_status walk_depth stdout_error fs a :
  (ended (main walk_depth stdout_error fs a) = Returned
   ↔ (isdir fs (directory a) = true
      ∧ (delete_flag a && dry_run a) = false
      ∧ 0 ≤ min_size a)
     ∧ walk_overflows walk_depth fs (directory a) (recursive a) = false
     ∧ ∃ report,
         get_duplicates_report fs
           (find_duplicates fs (directory a) (recursive a) (min_size a)
              (negb (quiet a))) (show_size a)
         = Ok report
         ∧ stdout_error report = None)
  ∧ (ended (main walk_depth stdout_error fs a) ≠ Returned →
     ended (main walk_depth stdout_error fs a) = Exit 1
     ∧ stdout (main walk_depth stdout_error fs a) = []
     ∧ final_fs (main walk_depth stdout_error fs a) = fs
     ∧ ((∃ msg, validate_args fs a = Raise (ValueError msg)
                ∧ stderr (main walk_depth stdout_error fs a)
                  = ["Error: " +:+ msg +:+ nl])
        ∨ (validate_args fs a = Ok tt
           ∧ walk_overflows walk_depth fs (directory a) (recursive a) = true
           ∧ ∃ before,
               stderr (main walk_depth stdout_error fs a)
               = before ++ [nl +:+ "Error: " +:+ recursion_error +:+ nl])
        ∨ (validate_args fs a = Ok tt
           ∧ walk_overflows walk_depth fs (directory a) (recursive a) = false
           ∧ ∃ report msg before,
               get_duplicates_report fs
                 (find_duplicates fs (directory a) (recursive a) (min_size a)
                    (negb (quiet a))) (show_size a)
               = Ok report
               ∧ stdout_error report = Some msg
               ∧ stderr (main walk_depth stdout_error fs a)
                 = before ++ [nl +:+ "Error: " +:+ msg +:+ nl])))
  ∧ (isdir fs (directory a) = false →
     stderr (main walk_depth stdout_error fs a)
     = ["Error: " +:+ ("'" +:+ directory a +:+ "' is not a valid directory")
          +:+ nl])
  ∧ (walk_depth = None ∨ recursive a = false
     ∨ (∃ depth t, walk_depth = Some depth
                   ∧ find_dir (directory a) (fs_tree fs) = Some t
                   ∧ (tree_height t ≤ depth)%nat) →
     walk_overflows walk_depth fs (directory a) (recursive a) = false).
Proof.
  destruct (report_of_scan_Ok fs (directory a) (recursive a) (min_size a)
              (negb (quiet a)) (show_size a)) as [report Hr].
  split_and!; [| | |apply walk_overflows_false].
  - rewrite <- validate_args_Ok. split.
    + intros Hret.
      destruct (validate_args_cases fs a) as [Hv|[msg Hv]];
        [|by rewrite (main_invalid _ _ _ _ msg Hv) in Hret].
      split; [done|].
      destruct (walk_overflows walk_depth fs (directory a) (recursive a))
        eqn:Hover.
      { destruct (main_overflow walk_depth stdout_error fs a Hv Hover)
          as (before & Hm & _).
        by rewrite Hm in Hret. }
      split; [done|]. exists report. split; [done|].
      destruct (stdout_error report) as [msg|] eqn:Hmsg; [|done].
      destruct (main_refused walk_depth stdout_error fs a report msg
                  Hv Hover Hr Hmsg) as (before & Hm & _).
      by rewrite Hm in Hret.
    + intros (Hv & Hover & report' & Hr' & Hnone). by eapply main_printed.
  - intros Hret.
    destruct (validate_args_cases fs a) as [Hv|[msg Hv]].
    + destruct (walk_overflows walk_depth fs (directory a) (recursive a))
        eqn:Hover.
      { destruct (main_overflow walk_depth stdout_error fs a Hv Hover)
          as (before & Hm & _).
        rewrite Hm. split_and!; [done..|]. right. left.
        split_and!; [done..|]. by exists before. }
      destruct (stdout_error report) as [msg|] eqn:Hmsg;
        [|by destruct Hret; eapply main_printed].
      destruct (main_refused walk_depth stdout_error fs a report msg
                  Hv Hover Hr Hmsg) as (before & Hm & _).
      rewrite Hm. split_and!; [done..|]. right. right.
      split_and!; [done..|]. by exists report, msg, before.
    + rewrite (main_invalid _ _ _ _ msg Hv). split_and!; [done..|].
      left. by exists msg.
  - intros Hdir.
    rewrite (main_invalid _ _ _ _
               ("'" +:+ directory a +:+ "' is not a valid directory"));
      [done|].
    unfold validate_args. by rewrite Hdir.
Qed.

(** With all that it has, the fixture of the tests is one level deep: an
    interpreter with no room to go down scans the root and stops. *)
Example main_recursion_limit :
  main (Some 0%nat) (λ _, None) fs_scenario
    {| directory := "/r"; recursive := true; min_size := 1;
       show_size := false; dry_run := false; delete_flag := true;
       quiet := true |}
  = {| ended := Exit 1; stdout := [];
       stderr := [nl +:+ "Error: " +:+ recursion_error +:+ nl];
       final_fs := fs_scenario |}.
Proof. vm_compute. reflexivity. Qed.

(** A report that cannot be printed ends the run before the deletion. *)
Example main_report_refused :
  main None (λ _, Some "'utf-8' codec can't encode character")
    fs_xxy args_delete_xxy
  = {| ended := Exit 1; stdout := [];
       stderr := [nl +:+ "Error: 'utf-8' codec can't encode character"
                    +:+ nl];
       final_fs := fs_xxy |}.
Proof. vm_compute. reflexivity. Qed.

Lemma main_final_fs walk_depth stdout_error fs a :
  final_fs (main walk_depth stdout_error fs a) = fs
  ∨ delete_flag a = true ∧ dry_run a = false
    ∧ walk_overflows walk_depth fs (directory a) (recursive a) = false
    ∧ (∃ report,
         get_duplicates_report fs
           (find_duplicates fs (directory a) (recursive a) (min_size a)
              (negb (quiet a))) (show_size a)
         = Ok report
         ∧ stdout_error report = None)
    ∧ ∃ t w,
        delete_duplicates fs
          (find_duplicates fs (directory a) (recursive a) (min_size a)
             (negb (quiet a)))
        = Ok (t, w)
        ∧ final_fs (main walk_depth stdout_error fs a) = w_fs w.
Proof.
  unfold main.
  destruct (validate_args fs a) as [[]|[| |msg]] eqn:Hv; try by left.
  destruct (walk_overflows walk_depth fs (directory a) (recursive a))
    eqn:Hover; [by left|].
  destruct (report_of_scan_Ok fs (directory a) (recursive a) (min_size a)
              (negb (quiet a)) (show_size a)) as [report Hr].
  rewrite Hr.
  destruct (stdout_error report) as [msg|] eqn:Hmsg; [by left|].
  destruct (dry_run a) eqn:Hdry.
  { rewrite dry_run_space_of_scan. by left. }
  destruct (delete_flag a) eqn:Hdel; [|by left]. simpl.
  destruct (negb (bool_decide _)); [|by left].
  destruct (delete_duplicates fs _) as [[t w]|e] eqn:Hrun; [|by left].
  right. split_and!; [done..|by exists report|]. by exists t, w.
Qed.

(** The entry of a path that no group has at index 1 or above is there
    after the run if it was there before. *)
Lemma main_entry_stays walk_depth stdout_error fs a p :
  p ∉ non_keepers
        (find_duplicates fs (directory a) (recursive a) (min_size a)
           (negb (quiet a))) →
  is_Some (fs_files fs !! p) →
  is_Some (fs_files (final_fs (main walk_depth stdout_error fs a)) !! p).
Proof.
  intros Hp Hthere.
  destruct (main_final_fs walk_depth stdout_error fs a)
    as [->|(_ & _ & _ & _ & t & w & Hrun & ->)]; [done|].
  apply delete_loop_attempts in Hrun as [_ Hframe].
  simpl in Hframe. by rewrite Hframe.
Qed.

(** X17. [main] changes the file system only when [--delete] is given
    without [--dry-run], the scan does not reach the recursion limit and
    the report is printed; whatever the arguments, it adds no directory
    entry, leaves the directory tree alone, and removes no entry whose
    path is not at index 1 or above of a group of the scan. *)
Theorem main_deletes_only_on_request walk_depth stdout_error fs a :
  (delete_flag a = false ∨ dry_run a = true
   ∨ walk_overflows walk_depth fs (directory a) (recursive a) = true
   ∨ (∃ report msg,
        get_duplicates_report fs
          (find_duplicates fs (directory a) (recursive a) (min_size a)
             (negb (quiet a))) (show_size a)
        = Ok report
        ∧ stdout_error report = Some msg) →
   final_fs (main walk_depth stdout_error fs a) = fs)
  ∧ fs_tree (final_fs (main walk_depth stdout_error fs a)) = fs_tree fs
  ∧ (∀ p, is_Some (fs_files (final_fs (main walk_depth stdout_error fs a))
                     !! p) →
          is_Some (fs_files fs !! p))
  ∧ (∀ p, p ∉ non_keepers
                (find_duplicates fs (directory a) (recursive a) (min_size a)
                   (negb (quiet a))) →
          is_Some (fs_files fs !! p) →
          is_Some (fs_files (final_fs (main walk_depth stdout_error fs a))
                     !! p)).
Proof.
  split_and!; [| | |apply main_entry_stays];
    destruct (main_final_fs walk_depth stdout_error fs a)
      as [->|(Hdel & Hdry & Hover & (report & Hr & Hnone) & t & w & Hrun & ->)];
    try done.
  - intros [?|[?|[?|(report' & msg & Hr' & Hmsg)]]]; congruence.
  - by apply (delete_loop_le _ _ _ Hrun).
  - intros p [i Hi]. exists i.
    by apply (fs_le_lookup _ _ _ _ (delete_loop_le _ _ _ Hrun)).
Qed.

Lemma scan_keeper_not_deleted fs directory recursive min_size cb h keeper rest :
  NoDup (enumerated fs directory recursive) →
  (h, keeper :: rest) ∈ find_duplicates fs directory recursive min_size cb →
  keeper ∉ non_keepers (find_duplicates fs directory recursive min_size cb).
Proof.
  intros Hnd Hin Hk. unfold non_keepers in Hk.
  apply list_elem_of_In, in_flat_map in Hk as [[h' paths'] [Hin' Hk]].
  apply list_elem_of_In in Hin', Hk.
  destruct (find_duplicates_groups_apart _ _ _ _ _ _ _ _ _ keeper Hin Hin')
    as [-> ->]; [by left|by apply elem_of_tail|].
  simpl in Hk.
  apply find_duplicates_elem in Hin as [_ Hpaths].
  assert (NoDup (keeper :: rest)) as Hnd'
    by (rewrite Hpaths; by apply NoDup_filter).
  by apply NoDup_cons in Hnd' as [? _].
Qed.

(** X18. When the traversal lists no path twice, [main] never unlinks
    the first discovered path of a group, with [--delete] or without:
    after the run the directory entry of every keeper of the scan is
    still there. *)
Theorem main_keeps_every_keeper walk_depth stdout_error fs a h keeper rest :
  NoDup (enumerated fs (directory a) (recursive a)) →
  (h, keeper :: rest)
  ∈ find_duplicates fs (directory a) (recursive a) (min_size a)
      (negb (quiet a)) →
  is_Some (fs_files fs !! keeper)
  ∧ is_Some (fs_files (final_fs (main walk_depth stdout_error fs a))
               !! keeper).
Proof.
  intros Hnd Hin.
  assert (is_Some (fs_files fs !! keeper)) as Hthere.
  { destruct (find_duplicates_member_file _ _ _ _ _ _ _ keeper Hin)
      as (_ & i & -> & _); [by left|by eexists]. }
  split; [done|].
  apply main_entry_stays; [|done]. by eapply scan_keeper_not_deleted.
Qed.

Lemma main_keeps_every_keeper_witness :
  is_Some (fs_files fs_xxy !! "/d/a.txt")
  ∧ is_Some (fs_files
               (final_fs (main None (λ _, None) fs_xxy args_delete_xxy))
               !! "/d/a.txt").
Proof.
  apply (main_keeps_every_keeper None (λ _, None) fs_xxy args_delete_xxy
           "02129bb861061d1a052c592e2dc6b383" "/d/a.txt" ["/d/b.txt"]).
  - vm_compute. repeat constructor; set_solver.
  - vm_compute. constructor.
Defined.

Example main_delete_xxy :
  main None (λ _, None) fs_xxy args_delete_xxy
  = {| ended := Returned;
       stdout := [ String.concat nl
                     [ "Found 1 sets of duplicates:";
                       "------------------------------------------------------------";
                       nl +:+ "Set 1 - Hash: 02129bb8...";
                       "Files:";
                       "  [KEEP]    /d/a.txt";
                       "  [DUPLICATE] /d/b.txt";
                       nl +:+ "Total reclaimable space: 1.0 B" ] +:+ nl ];
       stderr := [];
       final_fs := fs_xxy_deduped |}.
Proof. vm_compute. reflexivity. Qed.

(** X19. A dry run whose scan does not reach the recursion limit and
    whose report is printed returns, leaves the file system as it was,
    and prints after the report the number of groups and, as the space
    that would be freed, the reclaimable space [analyze_duplicates]
    gives for the scan. *)
Theorem main_dry_run walk_depth stdout_error fs a report :
  validate_args fs a = Ok tt →
  walk_overflows walk_depth fs (directory a) (recursive a) = false →
  get_duplicates_report fs
    (find_duplicates fs (directory a) (recursive a) (min_size a)
       (negb (quiet a))) (show_size a)
  = Ok report →
  stdout_error report = None →
  dry_run a = true →
  analyze_duplicates fs
    (find_duplicates fs (directory a) (recursive a) (min_size a)
       (negb (quiet a)))
  = Ok (Z.of_nat (length (find_duplicates fs (directory a) (recursive a)
                            (min_size a) (negb (quiet a)))),
        reclaimable_bytes fs
          (find_duplicates fs (directory a) (recursive a) (min_size a)
             (negb (quiet a))))
  ∧ ended (main walk_depth stdout_error fs a) = Returned
  ∧ final_fs (main walk_depth stdout_error fs a) = fs
  ∧ stdout (main walk_depth stdout_error fs a)
    = [ report +:+ nl;
        nl +:+ "Dry run: Would delete "
          +:+ pretty (length (find_duplicates fs (directory a) (recursive a)
                                (min_size a) (negb (quiet a))))
          +:+ " duplicate sets" +:+ nl;
        "Would free approximately "
          +:+ format_size
                (reclaimable_bytes fs
                   (find_duplicates fs (directory a) (recursive a)
                      (min_size a) (negb (quiet a))))
          +:+ nl ].
Proof.
  intros Hv Hover Hr Hnone Hdry. split.
  { apply analyze_duplicates_Ok. intros h. apply scan_no_empty_group. }
  unfold main.
  rewrite Hv, Hover, Hr, Hnone, Hdry, dry_run_space_of_scan. done.
Qed.

Lemma main_dry_run_witness :
  ended (main (Some 0%nat) (λ _, None) fs_xxy args_dry_run_xxy) = Returned
  ∧ final_fs (main (Some 0%nat) (λ _, None) fs_xxy args_dry_run_xxy)
    = fs_xxy.
Proof.
  destruct (main_dry_run (Some 0%nat) (λ _, None) fs_xxy args_dry_run_xxy
              (String.concat nl
                 [ "Found 1 sets of duplicates:";
                   "------------------------------------------------------------";
                   nl +:+ "Set 1 - Hash: 02129bb8...";
                   "Files:";
                   "  [KEEP]    /d/a.txt";
                   "  [DUPLICATE] /d/b.txt";
                   nl +:+ "Total reclaimable space: 1.0 B" ]))
    as (_ & Hend & Hfs & _);
    [vm_compute; reflexivity|vm_compute; reflexivity|vm_compute; reflexivity
    |reflexivity|reflexivity|].
  by split.
Defined.

(** X20. With [--quiet] and arguments that pass the validation, [main]
    writes no scan banner, no progress line and no deletion summary:
    [stderr] stays empty when the scan does not reach the recursion
    limit and the report is printed.  The line of the handler
    [except Exception] is not suppressed by [--quiet]: it is all that
    [stderr] holds when the scan reaches the limit or the report cannot
    be printed.  The lines [delete_duplicates] prints for failed
    deletions go to [stdout] and are not suppressed either. *)
Theorem main_quiet walk_depth stdout_error fs a report :
  validate_args fs a = Ok tt →
  quiet a = true →
  get_duplicates_report fs
    (find_duplicates fs (directory a) (recursive a) (min_size a) false)
    (show_size a)
  = Ok report →
  (walk_overflows walk_depth fs (directory a) (recursive a) = true →
   stderr (main walk_depth stdout_error fs a)
   = [nl +:+ "Error: " +:+ recursion_error +:+ nl])
  ∧ (walk_overflows walk_depth fs (directory a) (recursive a) = false →
     (∀ msg, stdout_error report = Some msg →
             stderr (main walk_depth stdout_error fs a)
             = [nl +:+ "Error: " +:+ msg +:+ nl])
     ∧ (stdout_error report = None →
        stderr (main walk_depth stdout_error fs a) = []
        ∧ (dry_run a = false → delete_flag a = true →
           ∀ t w,
             delete_duplicates fs
               (find_duplicates fs (directory a) (recursive a) (min_size a)
                  false)
             = Ok (t, w) →
             stdout (main walk_depth stdout_error fs a)
             = (report +:+ nl) :: printed (w_log w)))).
Proof.
  intros Hv Hq Hr. split.
  { intros Hover.
    destruct (main_overflow walk_depth stdout_error fs a Hv Hover)
      as (before & -> & Hb).
    by rewrite Hb. }
  intros Hover. split.
  { intros msg Hmsg.
    destruct (main_refused walk_depth stdout_error fs a report msg)
      as (before & -> & Hb); [done|done|by rewrite Hq|done|].
    by rewrite Hb. }
  intros Hnone.
  assert (calls (find_duplicates_run fs (directory a) (recursive a)
                   (min_size a) false) = []) as Hcalls.
  { rewrite find_duplicates_run_fold. apply fold_scan_no_callback. }
  unfold main. rewrite Hv, Hover, Hq. cbn [negb]. rewrite Hcalls, Hr, Hnone.
  split.
  - destruct (dry_run a); [by rewrite dry_run_space_of_scan|].
    destruct (delete_flag a && negb (bool_decide _)); [|done].
    destruct (delete_loop_Ok
                (find_duplicates fs (directory a) (recursive a) (min_size a)
                   false)
                (no_tally, {| w_fs := fs; w_log := [] |})) as [[t w] Hd].
    unfold delete_duplicates. fold no_tally. by rewrite Hd.
  - intros -> -> t w Hrun. cbn [andb].
    case_bool_decide as Hnil; cbn [negb].
    + rewrite Hnil in Hrun. injection Hrun as <- <-. done.
    + by rewrite Hrun.
Qed.

Lemma main_quiet_witness :
  stderr (main (Some 0%nat) (λ _, None) fs_xxy args_delete_xxy) = [].
Proof.
  destruct (main_quiet (Some 0%nat) (λ _, None) fs_xxy args_delete_xxy
              (String.concat nl
                 [ "Found 1 sets of duplicates:";
                   "------------------------------------------------------------";
                   nl +:+ "Set 1 - Hash: 02129bb8...";
                   "Files:";
                   "  [KEEP]    /d/a.txt";
                   "  [DUPLICATE] /d/b.txt";
                   nl +:+ "Total reclaimable space: 1.0 B" ]))
    as [_ Hwithin];
    [vm_compute; reflexivity|reflexivity|vm_compute; reflexivity|].
  destruct Hwithin as [_ Hprinted]; [vm_compute; reflexivity|].
  destruct Hprinted as [Hstderr _]; [reflexivity|].
  exact Hstderr.
Defined.

(** ** The progress callback, when nothing is skipped *)

Lemma fold_scan_all_hashed fs min_size ps : ∀ st,
  (∀ p, p ∈ ps → is_Some (file_digest fs min_size p)) →
  0 ≤ processed_files st →
  total_files st = processed_files st →
  calls st = map (λ x, (x, x)) (hundreds (processed_files st)) →
  calls (fold_left (scan_filepath fs min_size true) ps st)
  = map (λ x, (x, x))
      (hundreds (processed_files st + Z.of_nat (length ps))).
Proof.
  induction ps as [|p ps IH]; intros st Hall Hpos Htot Hcalls.
  - simpl. by rewrite Z.add_0_r.
  - cbn [fold_left]. destruct (Hall p) as [h Hd]; [by left|].
    assert (scan_filepath fs min_size true st p
            = {| duplicates := dict_append (duplicates st) h p;
                 total_files := total_files st + 1;
                 processed_files := processed_files st + 1;
                 calls :=
                   if (processed_files st + 1) mod 100 =? 0
                   then calls st
                        ++ [(processed_files st + 1, total_files st + 1)]
                   else calls st |}) as ->.
    { unfold file_digest in Hd. unfold scan_filepath.
      rewrite calculate_file_hash_default.
      destruct (stat fs p) as [sz|]; [|done].
      destruct (sz <? min_size); [done|].
      destruct (open_rb fs p) as [bs|]; [|done].
      injection Hd as <-. cbn [fmap option_fmap option_map].
      by rewrite md5_hex_truthy. }
    rewrite IH; cbn [processed_files total_files calls].
    + f_equal. f_equal. rewrite length_cons. lia.
    + intros q Hq. apply Hall. by right.
    + lia.
    + lia.
    + rewrite hundreds_succ by done. rewrite Htot, Hcalls.
      destruct ((processed_files st + 1) mod 100 =? 0); [|done].
      by rewrite map_app.
Qed.

(** X21. When every visited file is hashed, the callback is called once
    per hundred files and each call reports the same number as processed
    and as total: the calls are (100, 100), (200, 200), ... up to the
    number of files, none for fewer than 100 files. *)
Theorem progress_calls_when_all_hashed fs directory recursive min_size :
  (∀ p, p ∈ enumerated fs directory recursive →
        is_Some (file_digest fs min_size p)) →
  progress_calls fs directory recursive min_size true
  = map (λ x, (x, x))
      (hundreds (Z.of_nat (length (enumerated fs directory recursive))))
  ∧ length (progress_calls fs directory recursive min_size true)
    = (length (enumerated fs directory recursive) / 100)%nat.
Proof.
  intros Hall.
  assert (progress_calls fs directory recursive min_size true
          = map (λ x, (x, x))
              (hundreds (Z.of_nat (length (enumerated fs directory recursive)))))
    as Hcalls.
  { unfold progress_calls. rewrite find_duplicates_run_fold.
    rewrite (fold_scan_all_hashed fs min_size _ scan_init); done. }
  split; [done|]. rewrite Hcalls. unfold hundreds.
  rewrite !length_map, length_seq.
  rewrite <- (Nat2Z.id (length (enumerated fs directory recursive) / 100)).
  f_equal. by rewrite Nat2Z.inj_div.
Qed.

Lemma progress_calls_when_all_hashed_witness :
  progress_calls (fs_many 150) "/m" true 1 true
  = map (λ x, (x, x))
      (hundreds (Z.of_nat (length (enumerated (fs_many 150) "/m" true))))
  ∧ length (progress_calls (fs_many 150) "/m" true 1 true)
    = (length (enumerated (fs_many 150) "/m" true) / 100)%nat.
Proof.
  apply (progress_calls_when_all_hashed (fs_many 150) "/m" true 1).
  assert (Forall (λ p, is_Some (file_digest (fs_many 150) 1 p))
            (enumerated (fs_many 150) "/m" true)) as Hall
    by (apply (bool_decide_unpack _); vm_compute; exact I).
  intros p Hp. by apply (proj1 (Forall_forall _ _) Hall).
Defined.

(** ** The order of the groups *)

Lemma grouping_keys key ps k :
  k ∈ (fold_left (file_under key) ps []).*1 ↔ ∃ p, p ∈ ps ∧ key p = Some k.
Proof.
  rewrite list_elem_of_fmap. split.
  - intros ([k' paths] & -> & [Hne ->]%grouping_elem). simpl.
    destruct (filter _ ps) as [|p l] eqn:Hf; [done|].
    assert (p ∈ filter (λ p, key p = Some k') ps) as Hp
      by (rewrite Hf; by left).
    apply list_elem_of_filter in Hp as [? ?]. eauto.
  - intros (p & Hp & Hk).
    exists (k, filter (λ p, key p = Some k) ps). split; [done|].
    apply grouping_elem. split; [|done].
    intros Hnil.
    assert (p ∈ filter (λ p, key p = Some k) ps) as Hpf
      by (by apply list_elem_of_filter).
    rewrite Hnil in Hpf. by apply elem_of_nil in Hpf.
Qed.

Lemma grouping_keys_snoc key ps p :
  (fold_left (file_under key) (ps ++ [p]) []).*1
  = match key p with
    | Some h =>
        if decide (h ∈ (fold_left (file_under key) ps []).*1)
        then (fold_left (file_under key) ps []).*1
        else (fold_left (file_under key) ps []).*1 ++ [h]
    | None => (fold_left (file_under key) ps []).*1
    end.
Proof.
  rewrite fold_left_app. simpl. unfold file_under at 1.
  destruct (key p); [apply dict_append_keys|done].
Qed.

(** The keys of a grouping are in the order of their first paths. *)
Lemma grouping_keys_order key ps : ∀ k1 k2,
  [k1; k2] `sublist_of` (fold_left (file_under key) ps []).*1 →
  ∃ l1 l2, ps = l1 ++ l2
           ∧ (∃ p, p ∈ l1 ∧ key p = Some k1)
           ∧ ∀ q, q ∈ l1 → key q ≠ Some k2.
Proof.
  induction ps as [|p ps IH] using rev_ind; intros k1 k2 Hsub.
  - simpl in Hsub. by apply sublist_nil_r in Hsub.
  - assert ([k1; k2] `sublist_of` (fold_left (file_under key) ps []).*1 →
            ∃ l1 l2, ps ++ [p] = l1 ++ l2
                     ∧ (∃ p0, p0 ∈ l1 ∧ key p0 = Some k1)
                     ∧ ∀ q, q ∈ l1 → key q ≠ Some k2) as Hold.
    { intros (l1 & l2 & -> & H1 & H2)%IH. exists l1, (l2 ++ [p]).
      by rewrite app_assoc. }
    rewrite grouping_keys_snoc in Hsub.
    destruct (key p) as [h|] eqn:Hp; [|by apply Hold].
    case_decide as Hh; [by apply Hold|].
    apply sublist_app_r in Hsub as (x & y & Hxy & Hx & Hy).
    destruct x as [|x1 [|x2 [|x3 x]]]; simpl in Hxy.
    + subst y. apply sublist_length in Hy. simpl in Hy. lia.
    + injection Hxy as <- <-.
      apply sublist_subseteq in Hx, Hy.
      assert (k2 = h) as -> by set_solver.
      assert (k1 ∈ (fold_left (file_under key) ps []).*1) as Hk1
        by set_solver.
      apply grouping_keys in Hk1 as (p1 & Hp1 & Hk1).
      exists ps, [p]. split_and!; [done|by exists p1|].
      intros q Hq Hkq. apply Hh. apply grouping_keys. by exists q.
    + injection Hxy as <- <- <-. by apply Hold.
    + by destruct x.
Qed.

Lemma List_filter_sublist {A} (f : A → bool) l :
  List.filter f l `sublist_of` l.
Proof.
  induction l as [|x l IH]; simpl; [constructor|].
  destruct (f x); by constructor.
Qed.

Lemma sublist_fmap_fst (l1 l2 : list (string * list string)) :
  l1 `sublist_of` l2 → l1.*1 `sublist_of` l2.*1.
Proof. induction 1; csimpl; by constructor. Qed.

(** X22. The groups of a scan result come in the order in which their
    keepers were discovered: when one group is listed before another, the
    traversal reached the keeper of the first before any path of the
    second. *)
Theorem groups_in_discovery_order
    fs directory recursive min_size cb h1 paths1 h2 paths2 :
  [(h1, paths1); (h2, paths2)]
    `sublist_of` find_duplicates fs directory recursive min_size cb →
  ∃ keeper1 rest1 before after,
    paths1 = keeper1 :: rest1
    ∧ enumerated fs directory recursive = before ++ after
    ∧ keeper1 ∈ before
    ∧ ∀ q, q ∈ paths2 → q ∉ before.
Proof.
  intros Hsub.
  assert ((h1, paths1) ∈ find_duplicates fs directory recursive min_size cb
          ∧ (h2, paths2) ∈ find_duplicates fs directory recursive min_size cb)
    as [Hin1 Hin2].
  { apply sublist_subseteq in Hsub. split; apply Hsub; set_solver. }
  assert ([h1; h2]
            `sublist_of` (fold_left (file_under (file_digest fs min_size))
                            (enumerated fs directory recursive) []).*1)
    as Hkeys.
  { apply sublist_fmap_fst in Hsub. etrans; [exact Hsub|].
    apply sublist_fmap_fst. unfold find_duplicates.
    rewrite find_duplicates_run_fold, fold_scan_duplicates.
    apply List_filter_sublist. }
  apply grouping_keys_order in Hkeys
    as (before & after & Henum & (p & Hp & Hd) & Hnone).
  apply find_duplicates_elem in Hin1 as [_ Hpaths1].
  rewrite Henum, filter_app in Hpaths1.
  assert (p ∈ filter (λ p, file_digest fs min_size p = Some h1) before)
    as Hpf by (by apply list_elem_of_filter).
  destruct (filter (λ p, file_digest fs min_size p = Some h1) before)
    as [|keeper1 rest] eqn:Hf; [by apply elem_of_nil in Hpf|].
  exists keeper1, (rest ++ filter (λ p, file_digest fs min_size p = Some h1) after),
    before, after.
  split_and!; [done|done| |].
  - assert (keeper1 ∈ filter (λ p, file_digest fs min_size p = Some h1) before)
      as Hk by (rewrite Hf; by left).
    by apply list_elem_of_filter in Hk as [_ ?].
  - intros q Hq Hb. apply (Hnone q Hb).
    by eapply find_duplicates_member_digest.
Qed.

Lemma groups_in_discovery_order_witness :
  ∃ keeper1 rest1 before after,
    ["/t/empty.txt"; "/t/empty2.txt"] = keeper1 :: rest1
    ∧ enumerated fs_min_size "/t" true = before ++ after
    ∧ keeper1 ∈ before
    ∧ ∀ q, q ∈ ["/t/small.txt"; "/t/small2.txt"] → q ∉ before.
Proof.
  apply (groups_in_discovery_order fs_min_size "/t" true 0 false
           empty_digest _ "e807f1fcf82d132f9bb018ca6738a19f").
  vm_compute. repeat constructor.
Defined.

(** * [model_by_day.py] *)

Lemma run_in_sequence_loop_for_each {St : Type}
    (func : Z → St → St * ModelByDay.attempt Z) to_date :
  to_date ≤ ModelByDay.date_max →
  ∀ fuel tdate s,
    fuel = Z.to_nat (to_date - tdate) →
    ModelByDay.run_in_sequence_loop fuel tdate to_date func s
    = Some (for_each_date func (seqZ tdate (to_date - tdate)) s).
Proof.
  intros Hmax fuel.
  induction fuel as [|fuel IH]; intros tdate s Hfuel; simpl;
    destruct (Z.ltb_spec tdate to_date) as [Hlt|Hge]; try lia.
  - by rewrite seqZ_nil by lia.
  - rewrite seqZ_cons by lia. simpl.
    destruct (func tdate s) as [s' [r|e]]; [|done].
    unfold ModelByDay.add_day.
    destruct (Z.ltb_spec tdate ModelByDay.date_max); [|lia].
    rewrite IH by lia. do 2 f_equal.
    f_equal; lia.
Qed.

(** X23. [run_in_sequence] returns for every [to_date] that is a date: it
    calls [func] on [from_date] and on each following day in turn, up to
    and not including [to_date], and stops at the first call that raises;
    the step to the next day never overflows.  With [to_date] not after
    [from_date] it calls nothing. *)
Theorem run_in_sequence_half_open_range {St : Type}
    from_date to_date (func : Z → St → St * ModelByDay.attempt Z) s :
  to_date ≤ ModelByDay.date_max →
  ModelByDay.run_in_sequence from_date to_date func s
  = Some (for_each_date func (seqZ from_date (to_date - from_date)) s)
  ∧ (to_date ≤ from_date →
     ModelByDay.run_in_sequence from_date to_date func s
     = Some (s, ModelByDay.Returns tt)).
Proof.
  intros Hmax.
  assert (ModelByDay.run_in_sequence from_date to_date func s
          = Some (for_each_date func (seqZ from_date (to_date - from_date)) s))
    as Hrun by (by apply run_in_sequence_loop_for_each).
  split; [done|]. intros Hle. rewrite Hrun. by rewrite seqZ_nil by lia.
Qed.

Lemma run_in_sequence_half_open_range_witness :
  ModelByDay.run_in_sequence 739617 739620 ModelByDay.calculate_model []
  = Some (for_each_date ModelByDay.calculate_model
            (seqZ 739617 (739620 - 739617)) [])
  ∧ (739620 ≤ 739617 →
     ModelByDay.run_in_sequence 739617 739620 ModelByDay.calculate_model []
     = Some ([], ModelByDay.Returns tt)).
Proof.
  apply (run_in_sequence_half_open_range 739617 739620
           ModelByDay.calculate_model []).
  unfold ModelByDay.date_max. lia.
Defined.

Lemma fold_pair_step pairs : ∀ kwarg,
  (∀ k v b, (k, v, b) ∈ pairs →
            String.prefix "--" k = true ∧ String.prefix "--" v = false) →
  fold_left ModelByDay.pair_step (pair_args pairs) (None, None, kwarg)
  = (None, None, fold_left (λ kwarg '(k, v, _), <[k := v]> kwarg) pairs kwarg).
Proof.
  induction pairs as [|[[k v] b] pairs IH]; intros kwarg Hwf; [done|].
  destruct (Hwf k v b) as [Hk Hv]; [by left|].
  unfold pair_args. cbn [flat_map]. fold (pair_args pairs).
  rewrite fold_left_app.
  assert (fold_left ModelByDay.pair_step (if b then [v; k] else [k; v])
            (None, None, kwarg)
          = (None, None, <[k := v]> kwarg)) as ->.
  { destruct b; cbn [fold_left]; unfold ModelByDay.pair_step;
      by rewrite ?Hk, ?Hv; cbn beta iota zeta; rewrite ?Hk, ?Hv. }
  rewrite IH; [done|].
  intros k' v' b' Hin. apply (Hwf k' v' b'). by right.
Qed.

(** X24. The loop that pairs the arguments of [period]: when the
    arguments after the command are pairs of a key that starts with [--]
    and a value that does not, [kwarg] maps each key to its value, a later
    pair replacing an earlier one with the same key; a pair may be written
    value first, and one more argument after the last pair is dropped. *)
Theorem period_kwarg_pairs argv0 argv1 pairs :
  (∀ k v b, (k, v, b) ∈ pairs →
            String.prefix "--" k = true ∧ String.prefix "--" v = false) →
  ModelByDay.period_kwarg (argv0 :: argv1 :: pair_args pairs)
  = pair_dict pairs
  ∧ ∀ arg, ModelByDay.period_kwarg
             (argv0 :: argv1 :: pair_args pairs ++ [arg])
           = pair_dict pairs.
Proof.
  intros Hwf. unfold ModelByDay.period_kwarg, pair_dict.
  cbn [drop]. split; [by rewrite drop_0, fold_pair_step|].
  intros arg. rewrite drop_0, fold_left_app, fold_pair_step by done.
  cbn [fold_left]. unfold ModelByDay.pair_step.
  by destruct (String.prefix "--" arg).
Qed.

Lemma period_kwarg_pairs_witness :
  ModelByDay.period_kwarg
    ("model_by_day.py" :: "period"
       :: pair_args [("--end", "2026-01-04", true);
                     ("--start", "2026-01-01", false)])
  = pair_dict [("--end", "2026-01-04", true);
               ("--start", "2026-01-01", false)]
  ∧ ∀ arg, ModelByDay.period_kwarg
             ("model_by_day.py" :: "period"
                :: pair_args [("--end", "2026-01-04", true);
                              ("--start", "2026-01-01", false)] ++ [arg])
           = pair_dict [("--end", "2026-01-04", true);
                        ("--start", "2026-01-01", false)].
Proof.
  apply (period_kwarg_pairs "model_by_day.py" "period"
           [("--end", "2026-01-04", true); ("--start", "2026-01-01", false)]).
  intros k v b Hin.
  apply elem_of_cons in Hin as [[= -> -> ->]|Hin]; [by vm_compute|].
  apply elem_of_cons in Hin as [[= -> -> ->]|Hin]; [by vm_compute|].
  by apply elem_of_nil in Hin.
Defined.

Lemma for_each_calculate_model dates : ∀ out,
  for_each_date ModelByDay.calculate_model dates out
  = (out ++ map ModelByDay.DoneCalculations dates, ModelByDay.Returns tt).
Proof.
  induction dates as [|d dates IH]; intros out; simpl.
  - by rewrite app_nil_r.
  - rewrite IH. by rewrite <- app_assoc.
Qed.

Lemma period_runs fromisoformat today argv start start_date end_date :
  ModelByDay.period_kwarg argv !! "--start" = Some start →
  fromisoformat start = ModelByDay.Returns start_date →
  match ModelByDay.period_kwarg argv !! "--end" with
  | None => ModelByDay.Returns (Z.max today start_date)
  | Some e => fromisoformat e
  end = ModelByDay.Returns end_date →
  end_date ≤ ModelByDay.date_max →
  ModelByDay.period fromisoformat today argv
  = Some (map ModelByDay.DoneCalculations
            (seqZ start_date (end_date - start_date)),
          ModelByDay.Exit 0).
Proof.
  intros Hstart Hiso Hend Hmax. unfold ModelByDay.period.
  rewrite Hstart, Hiso, Hend.
  destruct (run_in_sequence_half_open_range start_date end_date
              ModelByDay.calculate_model [] Hmax) as [-> _].
  by rewrite for_each_calculate_model.
Qed.

Lemma script_period fromisoformat today argv :
  argv !! 1%nat = Some "period" →
  ModelByDay.try_block fromisoformat today argv
  = ModelByDay.period fromisoformat today argv.
Proof.
  intros H1. unfold ModelByDay.try_block. rewrite H1.
  assert ((length argv <? 2)%nat = false) as ->.
  { apply Nat.ltb_ge. apply lookup_lt_Some in H1. lia. }
  done.
Qed.

(** X25. [period --start S --end E] runs the calculation for [S] and each
    following day up to the day before [E], in that order, and exits with
    status 0: the end date itself is not calculated, and nothing is when
    [E] is not after [S]. *)
Theorem period_excludes_end_date
    fromisoformat today argv start end_arg start_date end_date :
  argv !! 1%nat = Some "period" →
  ModelByDay.period_kwarg argv !! "--start" = Some start →
  ModelByDay.period_kwarg argv !! "--end" = Some end_arg →
  fromisoformat start = ModelByDay.Returns start_date →
  fromisoformat end_arg = ModelByDay.Returns end_date →
  end_date ≤ ModelByDay.date_max →
  ModelByDay.script fromisoformat today argv
  = Some (0, map ModelByDay.DoneCalculations
               (seqZ start_date (end_date - start_date)))
  ∧ ModelByDay.DoneCalculations end_date
    ∉ map ModelByDay.DoneCalculations
        (seqZ start_date (end_date - start_date)).
Proof.
  intros H1 Hstart Hend Hiso Hiso' Hmax. split.
  - unfold ModelByDay.script. rewrite script_period by done.
    rewrite (period_runs _ _ _ start start_date end_date); try done.
    by rewrite Hend.
  - intros Hin. apply list_elem_of_fmap in Hin as (d & [= <-] & Hd).
    apply elem_of_seqZ in Hd. lia.
Qed.

Lemma period_excludes_end_date_witness :
  ModelByDay.script iso_2026 739700
    ["model_by_day.py"; "period"; "--start"; "2026-01-01";
     "--end"; "2026-01-04"]
  = Some (0, map ModelByDay.DoneCalculations (seqZ 739617 (739620 - 739617)))
  ∧ ModelByDay.DoneCalculations 739620
    ∉ map ModelByDay.DoneCalculations (seqZ 739617 (739620 - 739617)).
Proof.
  apply (period_excludes_end_date iso_2026 739700
           ["model_by_day.py"; "period"; "--start"; "2026-01-01";
            "--end"; "2026-01-04"]
           "2026-01-01" "2026-01-04" 739617 739620);
    try reflexivity.
  unfold ModelByDay.date_max. lia.
Defined.

(** X26. [period --start S] with no [--end] runs the calculation for [S]
    and each following day up to yesterday and exits with status 0: today
    is not calculated, and nothing is when [S] is today or later. *)
Theorem period_without_end_stops_before_today
    fromisoformat today argv start start_date :
  argv !! 1%nat = Some "period" →
  ModelByDay.period_kwarg argv !! "--start" = Some start →
  ModelByDay.period_kwarg argv !! "--end" = None →
  fromisoformat start = ModelByDay.Returns start_date →
  start_date ≤ ModelByDay.date_max →
  today ≤ ModelByDay.date_max →
  ModelByDay.script fromisoformat today argv
  = Some (0, map ModelByDay.DoneCalculations
               (seqZ start_date (today - start_date)))
  ∧ (today ≤ start_date →
     ModelByDay.script fromisoformat today argv = Some (0, [])).
Proof.
  intros H1 Hstart Hend Hiso Hmax Hmax'.
  assert (ModelByDay.script fromisoformat today argv
          = Some (0, map ModelByDay.DoneCalculations
                       (seqZ start_date (today - start_date)))) as Hrun.
  { unfold ModelByDay.script. rewrite script_period by done.
    rewrite (period_runs _ _ _ start start_date (Z.max today start_date));
      [|done|done|by rewrite Hend|lia].
    destruct (Z.le_gt_cases today start_date).
    - by rewrite !seqZ_nil by lia.
    - by rewrite Z.max_l by lia. }
  split; [done|]. intros Hle. rewrite Hrun. by rewrite seqZ_nil by lia.
Qed.

Lemma period_without_end_stops_before_today_witness :
  ModelByDay.script iso_2026 739619
    ["model_by_day.py"; "period"; "--start"; "2026-01-01"]
  = Some (0, map ModelByDay.DoneCalculations (seqZ 739617 (739619 - 739617)))
  ∧ (739619 ≤ 739617 →
     ModelByDay.script iso_2026 739619
       ["model_by_day.py"; "period"; "--start"; "2026-01-01"]
     = Some (0, [])).
Proof.
  apply (period_without_end_stops_before_today iso_2026 739619
           ["model_by_day.py"; "period"; "--start"; "2026-01-01"]
           "2026-01-01" 739617);
    try reflexivity; unfold ModelByDay.date_max; lia.
Defined.

Lemma period_outcome fromisoformat today argv :
  (∀ s d, fromisoformat s = ModelByDay.Returns d → d ≤ ModelByDay.date_max) →
  today ≤ ModelByDay.date_max →
  (∃ dates, ModelByDay.period fromisoformat today argv
            = Some (map ModelByDay.DoneCalculations dates, ModelByDay.Exit 0))
  ∨ (∃ e, ModelByDay.period fromisoformat today argv
          = Some ([], ModelByDay.Caught e)).
Proof.
  intros Hiso Htoday.
  destruct (ModelByDay.period_kwarg argv !! "--start") as [start|] eqn:Hstart;
    [|right; eexists; unfold ModelByDay.period; by rewrite Hstart].
  destruct (fromisoformat start) as [start_date|e] eqn:Hs;
    [|right; eexists; unfold ModelByDay.period; by rewrite Hstart, Hs].
  pose proof (Hiso _ _ Hs) as Hmax.
  destruct (match ModelByDay.period_kwarg argv !! "--end" with
            | None => ModelByDay.Returns (Z.max today start_date)
            | Some e => fromisoformat e
            end) as [end_date|e] eqn:Hend.
  - left. eexists. eapply period_runs; [done..|].
    destruct (ModelByDay.period_kwarg argv !! "--end") as [end_arg|].
    + by eapply Hiso.
    + injection Hend as <-. lia.
  - right. exists e. unfold ModelByDay.period. rewrite Hstart, Hs.
    destruct (ModelByDay.period_kwarg argv !! "--end"); [|done].
    by rewrite Hend.
Qed.

(** X27. The script always ends, with exit status 0 or 1, and a run is
    all or nothing: with status 0 it printed the help text or only lines
    of finished calculations; with status 1 it calculated nothing, and
    printed either the error heading and the text of one exception, or,
    exactly when the command is none of [--help], [run] and [period],
    nothing at all. *)
Theorem script_all_or_nothing fromisoformat today argv :
  (∀ s d, fromisoformat s = ModelByDay.Returns d → d ≤ ModelByDay.date_max) →
  today ≤ ModelByDay.date_max →
  ∃ code out,
    ModelByDay.script fromisoformat today argv = Some (code, out)
    ∧ (code = 0
       ∧ (out = [ModelByDay.HelpString]
          ∨ ∃ dates, out = map ModelByDay.DoneCalculations dates)
       ∨ code = 1
         ∧ (out = []
            ∨ ∃ e, out = [ModelByDay.ErrorHeader; ModelByDay.ErrorText e]))
    ∧ (code = 1 ∧ out = []
       ↔ ∃ command, argv !! 1%nat = Some command
                    ∧ command ∉ ["--help"; "run"; "period"]).
Proof.
  intros Hiso Htoday. unfold ModelByDay.script, ModelByDay.try_block.
  destruct (Nat.ltb_spec (length argv) 2) as [Hshort|Hlong]; cbn [orb].
  { exists 0, [ModelByDay.HelpString]. split_and!; [done|left; eauto|].
    split; [by intros [[=] _]|]. intros (c & Hc%lookup_lt_Some & _). lia. }
  destruct (lookup_lt_is_Some_2 argv 1%nat) as [command Hc]; [lia|].
  rewrite Hc. repeat case_bool_decide; simplify_eq.
  - exists 0, [ModelByDay.HelpString]. split_and!; [done|left; eauto|].
    split; [by intros [[=] _]|]. intros (c & [= <-] & Hn).
    destruct Hn. set_solver.
  - assert (¬ ∃ c, Some "run" = Some c ∧ c ∉ ["--help"; "run"; "period"])
      as Hknown by (intros (c & [= <-] & Hn); destruct Hn; set_solver).
    destruct (argv !! 2%nat) as [a|].
    + destruct (fromisoformat a) as [tdate|e]; simpl.
      * exists 0, [ModelByDay.DoneCalculations tdate].
        split_and!; [done|left; split; [done|right; by exists [tdate]]|].
        split; [by intros [[=] _]|done].
      * exists 1, [ModelByDay.ErrorHeader; ModelByDay.ErrorText e].
        split_and!; [done|right; eauto|]. split; [by intros [_ [=]]|done].
    + exists 1, [ModelByDay.ErrorHeader;
                 ModelByDay.ErrorText ModelByDay.IndexError].
      split_and!; [done|right; eauto|]. split; [by intros [_ [=]]|done].
  - assert (¬ ∃ c, Some "period" = Some c ∧ c ∉ ["--help"; "run"; "period"])
      as Hknown by (intros (c & [= <-] & Hn); destruct Hn; set_solver).
    destruct (period_outcome fromisoformat today argv Hiso Htoday)
      as [[dates ->]|[e ->]].
    + exists 0, (map ModelByDay.DoneCalculations dates).
      split_and!; [done|left; eauto|]. split; [by intros [[=] _]|done].
    + exists 1, [ModelByDay.ErrorHeader; ModelByDay.ErrorText e].
      split_and!; [done|right; eauto|]. split; [by intros [_ [=]]|done].
  - exists 1, []. split_and!; [done|right; eauto|].
    split; [|done]. intros _. exists command. split; [done|]. set_solver.
Qed.

Lemma iso_2026_range s d :
  iso_2026 s = ModelByDay.Returns d → d ≤ ModelByDay.date_max.
Proof.
  unfold iso_2026, ModelByDay.date_max.
  repeat destruct (String.eqb s _); intros [= <-]; lia.
Qed.

Lemma script_all_or_nothing_witness :
  ∃ code out,
    ModelByDay.script iso_2026 739619 ["model_by_day.py"; "run"]
    = Some (code, out)
    ∧ (code = 0
       ∧ (out = [ModelByDay.HelpString]
          ∨ ∃ dates, out = map ModelByDay.DoneCalculations dates)
       ∨ code = 1
         ∧ (out = []
            ∨ ∃ e, out = [ModelByDay.ErrorHeader; ModelByDay.ErrorText e]))
    ∧ (code = 1 ∧ out = []
       ↔ ∃ command, ["model_by_day.py"; "run"] !! 1%nat = Some command
                    ∧ command ∉ ["--help"; "run"; "period"]).
Proof.
  apply (script_all_or_nothing iso_2026 739619 ["model_by_day.py"; "run"]).
  - apply iso_2026_range.
  - unfold ModelByDay.date_max. lia.
Defined.
